(** * Darling: errno translation and the xtrace syscall tracer

    A shallow embedding of two translation units of Darling:

    - [src/libSystem/libc/errno.cpp]: the Darwin <-> Linux errno tables
      and [errnoDoMap];
    - the xtrace library: hook installer, nested-call tracker and the
      [execve] environment rewriting.

    Machine integers are [Z] with the conversions written out, memory that
    C leaves indeterminate is an explicit [Undef] cell, and an access outside
    an object is an explicit outcome rather than a silent default. *)

From Stdlib Require Import ZArith Lia Ascii DecimalString HexadecimalString.
From stdpp Require Import base option list strings gmap.

Local Open Scope Z_scope.

(* ===================================================================== *)
(** ** errno.cpp *)
(* ===================================================================== *)

Module Errno.

(** [static int darwin_to_linux[140]; static int linux_to_darwin[140];] *)
Definition table_len : Z := 140.

Definition INT_MIN : Z := - 2 ^ 31.
Definition INT_MAX : Z := 2 ^ 31 - 1.

(** [a[i]] for an [int] array: [None] is an access outside the array. *)
Definition array_get (a : list Z) (i : Z) : option Z :=
  if 0 <=? i then a !! Z.to_nat i else None.

Section Mapping.

(** Width of [size_t]: 64 on x86_64 and arm64, 32 on i386. *)
Variable size_t_bits : Z.

(** The usual arithmetic conversions: in [err < sizeof(..)/sizeof(..)-1] the
    right-hand side has type [size_t], so the [int] on the left is converted
    to [size_t], that is reduced modulo [2 ^ size_t_bits]. *)
Definition to_size_t (i : Z) : Z := i mod 2 ^ size_t_bits.

(** [err < sizeof(darwin_to_linux)/sizeof(darwin_to_linux[0])-1] *)
Definition guard (err : Z) : bool := to_size_t err <? table_len - 1.

(** [static int errnoDoMap(int err, int* map)] *)
Definition errnoDoMap (err : Z) (map : list Z) : option Z :=
  if guard err then
    e ← array_get map err;
    Some (if e =? 0 then err else e)
  else
    Some 0.

(** The tables as [initErrnoMappingTable] leaves them; their contents come
    from [darwin_to_linux.map] and [linux_to_darwin.map]. *)
Variables darwin_to_linux linux_to_darwin : list Z.

Definition errnoDarwinToLinux (err : Z) : option Z :=
  errnoDoMap err darwin_to_linux.

Definition errnoLinuxToDarwin (err : Z) : option Z :=
  errnoDoMap err linux_to_darwin.

End Mapping.

End Errno.

(* ===================================================================== *)
(** ** xtrace: instruction patcher and hook installer (x86_64) *)
(* ===================================================================== *)

Module Hook.

(** [uintptr_t] arithmetic is modulo [2 ^ 64]. *)
Definition wrap (x : Z) : Z := x mod 2 ^ 64.

(** [sizeof(struct hook)]: packed [uint8_t movabs[2]; uint64_t addr;
    uint8_t call[3]]. *)
Definition hook_size : Z := 13.

Record prot := { prot_read : bool; prot_write : bool; prot_exec : bool }.

Definition PROT_NONE : prot :=
  {| prot_read := false; prot_write := false; prot_exec := false |}.
Definition PROT_RW : prot :=
  {| prot_read := true; prot_write := true; prot_exec := false |}.
Definition PROT_RWX : prot :=
  {| prot_read := true; prot_write := true; prot_exec := true |}.
Definition PROT_RX : prot :=
  {| prot_read := true; prot_write := false; prot_exec := true |}.

(** [MAP_FAILED] is [(void* )-1]. *)
Definition MAP_FAILED : Z := wrap (-1).

(** The part of the process the set-up code acts on: the protection of each
    page (by page number), the bytes of the code, the kernel's answers to the
    coming [mprotect] calls ([true]: the call fails and changes nothing), to
    the [mmap] call and to the [sigaltstack] call, the alternate signal stack
    in force, the size for the stacks of future threads, and the tracer's
    suppression flag. *)
Record world := {
  perms : Z -> prot;
  mem : Z -> Z;
  mprotect_fails : list bool;
  mmap_answer : Z;
  sigaltstack_answer : Z;
  altstack : option (Z * Z);
  altstack_default_size : Z;
  xtrace_ignore : bool
}.

(** How a piece of set-up code ends: it returns, it calls [xtrace_abort], or
    a store hits a page that is not writable. *)
Inductive outcome (A : Type) : Type :=
| Done (a : A) (w : world)
| Abort (msg : string)
| Segv (addr : Z).
Arguments Done {A} a w.
Arguments Abort {A} msg.
Arguments Segv {A} addr.

Definition M (A : Type) : Type := world -> outcome A.

#[global] Instance M_ret : MRet M := fun A a w => Done a w.
#[global] Instance M_bind : MBind M := fun A B f m w =>
  match m w with
  | Done a w' => f a w'
  | Abort msg => Abort msg
  | Segv addr => Segv addr
  end.

(** [xtrace_abort(message)]: [_abort_with_payload_for_xtrace], no return. *)
Definition xtrace_abort {A} (message : string) : M A := fun _ => Abort message.

(** [w] after an [mprotect] call was answered: the pages of
    [addr, addr + len) get [p] when [changed], and one answer is used up. *)
Definition answered (w : world) (changed : bool) (addr len : Z) (p : prot)
  : world :=
  {| perms := fun pg =>
       if changed && (addr / 4096 <=? pg) && (pg * 4096 <? addr + len)
       then p else perms w pg;
     mem := mem w;
     mprotect_fails := tail (mprotect_fails w);
     mmap_answer := mmap_answer w;
     sigaltstack_answer := sigaltstack_answer w;
     altstack := altstack w;
     altstack_default_size := altstack_default_size w;
     xtrace_ignore := xtrace_ignore w |}.

(** [mprotect(addr, len, prot)] with [addr] on a page boundary: on success
    every page that meets [addr, addr + len) gets [prot] and 0 is returned;
    on failure nothing changes and -1 is returned. *)
Definition mprotect (addr len : Z) (p : prot) : M Z := fun w =>
  match mprotect_fails w with
  | true :: _ => Done (-1) (answered w false addr len p)
  | _ => Done 0 (answered w true addr len p)
  end.

(** [w] with the byte at [addr] replaced. *)
Definition with_byte (w : world) (addr b : Z) : world :=
  {| perms := perms w;
     mem := fun a => if a =? addr then b else mem w a;
     mprotect_fails := mprotect_fails w;
     mmap_answer := mmap_answer w;
     sigaltstack_answer := sigaltstack_answer w;
     altstack := altstack w;
     altstack_default_size := altstack_default_size w;
     xtrace_ignore := xtrace_ignore w |}.

(** A one-byte store through a pointer into the code. *)
Definition store8 (addr b : Z) : M unit := fun w =>
  if prot_write (perms w (addr / 4096)) then Done tt (with_byte w addr b)
  else Segv addr.

(** [mmap(NULL, len, PROT_READ | PROT_WRITE, MAP_ANON | MAP_PRIVATE, -1, 0)]:
    the kernel's answer, and on success fresh read+write pages there. *)
Definition mmap (len : Z) : M Z := fun w =>
  let sp := mmap_answer w in
  if sp =? MAP_FAILED then Done sp w
  else
    Done sp
      {| perms := fun pg =>
           if (sp / 4096 <=? pg) && (pg * 4096 <? sp + len)
           then PROT_RW else perms w pg;
         mem := mem w;
         mprotect_fails := mprotect_fails w;
         mmap_answer := mmap_answer w;
         sigaltstack_answer := sigaltstack_answer w;
         altstack := altstack w;
         altstack_default_size := altstack_default_size w;
         xtrace_ignore := xtrace_ignore w |}.

(** [_sigaltstack_for_xtrace(&custom_altstack, NULL)] *)
Definition _sigaltstack_for_xtrace (ss_sp ss_size : Z) : M Z := fun w =>
  let r := sigaltstack_answer w in
  if r <? 0 then Done r w
  else
    Done r
      {| perms := perms w; mem := mem w;
         mprotect_fails := mprotect_fails w;
         mmap_answer := mmap_answer w;
         sigaltstack_answer := sigaltstack_answer w;
         altstack := Some (ss_sp, ss_size);
         altstack_default_size := altstack_default_size w;
         xtrace_ignore := xtrace_ignore w |}.

(** [_sigaltstack_set_default_size_for_xtrace(size)] *)
Definition _sigaltstack_set_default_size_for_xtrace (size : Z) : M unit :=
  fun w =>
    Done tt
      {| perms := perms w; mem := mem w;
         mprotect_fails := mprotect_fails w;
         mmap_answer := mmap_answer w;
         sigaltstack_answer := sigaltstack_answer w;
         altstack := altstack w;
         altstack_default_size := size;
         xtrace_ignore := xtrace_ignore w |}.

(** [xtrace_ignore = v] *)
Definition set_xtrace_ignore (v : bool) : M unit := fun w =>
  Done tt
    {| perms := perms w; mem := mem w;
       mprotect_fails := mprotect_fails w;
       mmap_answer := mmap_answer w;
       sigaltstack_answer := sigaltstack_answer w;
       altstack := altstack w;
       altstack_default_size := altstack_default_size w;
       xtrace_ignore := v |}.

(** The unaligned little-endian store of [hook->addr]. *)
Definition store64 (addr v : Z) : M unit :=
  store8 addr (Z.land v 255);;
  store8 (addr + 1) (Z.land (Z.shiftr v 8) 255);;
  store8 (addr + 2) (Z.land (Z.shiftr v 16) 255);;
  store8 (addr + 3) (Z.land (Z.shiftr v 24) 255);;
  store8 (addr + 4) (Z.land (Z.shiftr v 32) 255);;
  store8 (addr + 5) (Z.land (Z.shiftr v 40) 255);;
  store8 (addr + 6) (Z.land (Z.shiftr v 48) 255);;
  store8 (addr + 7) (Z.land (Z.shiftr v 56) 255).

(** [setup_hook(hook, fnptr, jump)], the [__x86_64__] branch:
    [movq $fnptr, %r10; call *%r10] (or [jmp *%r10]). The fields are
    [movabs] at offset 0, [addr] at offset 2 and [call] at offset 10. *)
Definition setup_hook (hook fnptr : Z) (jump : bool) : M unit :=
  store8 (hook + 0) 0x49;;
  store8 (hook + 1) 0xba;;
  store8 (hook + 10) 0x41;;
  store8 (hook + 11) 0xff;;
  store8 (hook + 12) (if jump then 0xe2 else 0xd2);;
  store64 (hook + 2) fnptr.

(** [area &= ~(4096-1)]: the [int] mask is converted to [uintptr_t]. *)
Definition page_mask : Z := wrap (Z.lnot (4096 - 1)).
Definition page_floor (a : Z) : Z := Z.land a page_mask.

(** The range handed to [mprotect], as the three installers compute it from
    the first hook and the last hook:
    [area = first; areaEnd = last + sizeof(struct hook);
     area &= ~(4096-1); areaEnd &= ~(4096-1);
     bytes = 4096 + (areaEnd-area)]. *)
Definition hook_area (first last : Z) : Z * Z :=
  let area := first in
  let areaEnd := wrap (last + hook_size) in
  let area := page_floor area in
  let areaEnd := page_floor areaEnd in
  let bytes := wrap (4096 + (areaEnd - area)) in
  (area, bytes).

Section Installers.

(** [_darling_{mach,bsd}_syscall_{entry,exit}], defined in libsystem_kernel,
    and the trampolines defined in assembly. *)
Variables _darling_mach_syscall_entry _darling_mach_syscall_exit : Z.
Variables _darling_bsd_syscall_entry _darling_bsd_syscall_exit : Z.
Variables darling_mach_syscall_entry_trampoline
          darling_mach_syscall_exit_trampoline
          darling_bsd_syscall_entry_trampoline
          darling_bsd_syscall_exit_trampoline : Z.

(** [static void xtrace_setup_mach(void)]; the value of both [mprotect]
    calls is discarded. *)
Definition xtrace_setup_mach : M unit :=
  let '(area, bytes) :=
    hook_area _darling_mach_syscall_entry _darling_mach_syscall_exit in
  _ ← mprotect area bytes PROT_RWX;
  setup_hook _darling_mach_syscall_entry
             darling_mach_syscall_entry_trampoline false;;
  setup_hook _darling_mach_syscall_exit
             darling_mach_syscall_exit_trampoline false;;
  _ ← mprotect area bytes PROT_RX;
  mret tt.

(** [static void xtrace_setup_bsd(void)] *)
Definition xtrace_setup_bsd : M unit :=
  let '(area, bytes) :=
    hook_area _darling_bsd_syscall_entry _darling_bsd_syscall_exit in
  _ ← mprotect area bytes PROT_RWX;
  setup_hook _darling_bsd_syscall_entry
             darling_bsd_syscall_entry_trampoline false;;
  setup_hook _darling_bsd_syscall_exit
             darling_bsd_syscall_exit_trampoline false;;
  _ ← mprotect area bytes PROT_RX;
  mret tt.

(** [static void setup_hook_with_perms(hook, fnptr, jump)] *)
Definition setup_hook_with_perms (hook fnptr : Z) (jump : bool) : M unit :=
  let '(area, bytes) := hook_area hook hook in
  _ ← mprotect area bytes PROT_RWX;
  setup_hook hook fnptr jump;;
  _ ← mprotect area bytes PROT_RX;
  mret tt.

(** The addresses of [_xtrace_thread_exit], [_xtrace_execve_inject] and
    [_xtrace_postfork_child], and of the three hook functions. *)
Variables _xtrace_thread_exit _xtrace_execve_inject _xtrace_postfork_child : Z.
Variables xtrace_thread_exit_hook xtrace_execve_inject_hook
          xtrace_postfork_child_hook : Z.

(** [static void xtrace_setup_misc_hooks(void)] *)
Definition xtrace_setup_misc_hooks : M unit :=
  setup_hook_with_perms _xtrace_thread_exit xtrace_thread_exit_hook true;;
  setup_hook_with_perms _xtrace_execve_inject xtrace_execve_inject_hook true;;
  setup_hook_with_perms _xtrace_postfork_child xtrace_postfork_child_hook true.

(** [void xtrace_setup()], the constructor, from the hook installation on
    ([SIGALTSTACK_GUARD] is 1). Reading the options and setting up MIG
    tracing come first and touch nothing of [world]. *)
Definition xtrace_setup : M unit :=
  xtrace_setup_mach;;
  xtrace_setup_bsd;;
  xtrace_setup_misc_hooks;;
  let ss_size := 16 * 1024 in
  ss_sp ← mmap (ss_size + 4096);
  (if ss_sp =? MAP_FAILED then
     xtrace_abort "xtrace: failed to allocate larger sigstack for main thread"
   else mret tt);;
  _ ← mprotect ss_sp 4096 PROT_NONE;
  let ss_sp := ss_sp + 4096 in
  r ← _sigaltstack_for_xtrace ss_sp ss_size;
  (if r <? 0 then xtrace_abort "failed to override sigaltstack"
   else mret tt);;
  _sigaltstack_set_default_size_for_xtrace ss_size;;
  set_xtrace_ignore false.

End Installers.

(** The end of a region rounded up to a page boundary, in the words of the
    installer's contract. *)
Definition page_ceil (a : Z) : Z := 4096 * ((a + 4095) / 4096).

(** A piece of set-up code that never ends in [xtrace_abort]. *)
Definition no_abort {A} (m : M A) : Prop :=
  forall w msg, m w <> Abort msg.

(** Every byte of [lo, hi) lies on a writable page. *)
Definition writable_on (w : world) (lo hi : Z) : Prop :=
  forall a, lo <= a < hi -> prot_write (perms w (a / 4096)) = true.

(** A process at load time: every page read+execute and filled with [nop],
    the suppression flag set, and the kernel's answers as given. *)
Definition text_world (answers : list bool) (mmap_ans sigaltstack_ans : Z)
  : world :=
  {| perms := fun _ => PROT_RX; mem := fun _ => 0x90;
     mprotect_fails := answers;
     mmap_answer := mmap_ans;
     sigaltstack_answer := sigaltstack_ans;
     altstack := None;
     altstack_default_size := 8 * 1024;
     xtrace_ignore := true |}.

End Hook.

(* ===================================================================== *)
(** ** xtrace: nested-call tracker and line formatting *)
(* ===================================================================== *)

Module Tracker.

(** [struct calldef], supplied by the syscall tables: an optional name and
    optional printers. A printer receives the log and appends to it; it is
    modelled by the text it appends. *)
Record calldef := {
  name : option string;
  print_args : option (Z -> list Z -> string);
  print_retval : option (Z -> Z -> string)
}.

(** The flags [xtrace_setup_options] and [xtrace_setup] leave behind. *)
Record globals := {
  xtrace_ignore : bool;
  xtrace_split_entry_and_exit : bool;
  xtrace_no_color : bool
}.

(** What one thread owns: [struct nested_call_struct] (a TLS variable), the
    [xtrace::String] its trampolines pass as [log], and the messages it has
    handed to [xtrace_log] so far. *)
Record thread := {
  current_level : Z;
  previous_level : Z;
  nrs : list Z;
  log : string;
  emitted : list string
}.

(** [(struct nested_call_struct) {0}] and an empty log. *)
Definition initial_thread : thread :=
  {| current_level := 0; previous_level := 0; nrs := replicate 64%nat 0;
     log := ""; emitted := [] |}.

(** A handler either returns, or indexes [nrs] outside its 64 slots; the
    second outcome keeps the state at the moment of that access. *)
Inductive outcome (A : Type) : Type :=
| Ok (a : A) (t : thread)
| OutOfBounds (t : thread).
Arguments Ok {A} a t.
Arguments OutOfBounds {A} t.

Definition M (A : Type) : Type := thread -> outcome A.

#[global] Instance M_ret : MRet M := fun A a t => Ok a t.
#[global] Instance M_bind : MBind M := fun A B f m t =>
  match m t with
  | Ok a t' => f a t'
  | OutOfBounds t' => OutOfBounds t'
  end.

Definition get_ptr_nested_call : M thread := fun t => Ok t t.

(** [t] with its two levels replaced. *)
Definition with_levels (t : thread) (cur prev : Z) : thread :=
  {| current_level := cur; previous_level := prev; nrs := nrs t;
     log := log t; emitted := emitted t |}.

(** [t] with slot [i] of [nrs] replaced. *)
Definition with_slot (t : thread) (i : nat) (nr : Z) : thread :=
  {| current_level := current_level t; previous_level := previous_level t;
     nrs := <[i := nr]> (nrs t); log := log t; emitted := emitted t |}.

(** [t] with [s] appended to its log. *)
Definition log_app (t : thread) (s : string) : thread :=
  {| current_level := current_level t; previous_level := previous_level t;
     nrs := nrs t; log := (log t ++ s)%string; emitted := emitted t |}.

(** [t] after its log went to [xtrace_log] as one line and was cleared. *)
Definition flushed (t : thread) : thread :=
  {| current_level := current_level t; previous_level := previous_level t;
     nrs := nrs t; log := "";
     emitted := emitted t ++ [(log t ++ String "010"%char "")%string] |}.

Definition set_levels (cur prev : Z) : M unit := fun t =>
  Ok tt (with_levels t cur prev).

(** [nrs[i] = nr] *)
Definition nrs_store (i nr : Z) : M unit := fun t =>
  if (0 <=? i) && (i <? 64) then Ok tt (with_slot t (Z.to_nat i) nr)
  else OutOfBounds t.

(** [nrs[i]] *)
Definition nrs_load (i : Z) : M Z := fun t =>
  if (0 <=? i) && (i <? 64) then
    match nrs t !! Z.to_nat i with
    | Some nr => Ok nr t
    | None => OutOfBounds t
    end
  else OutOfBounds t.

(** [log->append(s)] *)
Definition append (s : string) : M unit := fun t => Ok tt (log_app t s).

(** [log->clear()] *)
Definition clear : M unit := fun t =>
  Ok tt {| current_level := current_level t;
           previous_level := previous_level t; nrs := nrs t;
           log := ""; emitted := emitted t |}.

(** [xtrace_log(format, ...)] with the message already formatted: the
    message goes to the sink [xtrace_log_v] selects. *)
Definition xtrace_log (msg : string) : M unit := fun t =>
  Ok tt {| current_level := current_level t;
           previous_level := previous_level t; nrs := nrs t;
           log := log t; emitted := emitted t ++ [msg] |}.

(** [xtrace_log("%s\n", log->c_str()); log->clear();] *)
Definition flush_line : M unit :=
  t ← get_ptr_nested_call;
  xtrace_log (log t ++ String "010"%char "")%string;;
  clear.

(** [%d], [%lx] *)
Definition fmt_d (n : Z) : string :=
  DecimalString.NilZero.string_of_int (Z.to_int n).
Definition fmt_lx (n : Z) : string :=
  HexadecimalString.NilZero.string_of_uint (N.to_hex_uint (Z.to_N n)).

Fixpoint spaces (n : nat) : string :=
  match n with
  | O => ""
  | S n => String " "%char (spaces n)
  end.

Definition ESC : ascii := "027"%char.

Section Handlers.

Variable g : globals.
(** [sys_thread_selfid()] of the calling thread. *)
Variable sys_thread_selfid : Z.
Variable defs : Z -> calldef.
Variable type : string.

(** [void xtrace_set_gray_color(xtrace::String* log)] *)
Definition xtrace_set_gray_color : M unit :=
  if xtrace_no_color g then mret tt else append (String ESC "[37m").

(** [void xtrace_reset_color(xtrace::String* log)] *)
Definition xtrace_reset_color : M unit :=
  if xtrace_no_color g then mret tt else append (String ESC "[0m").

(** [void xtrace_start_line(xtrace::String* log, int indent)]; the loop
    appends [indent + 1] blanks. *)
Definition xtrace_start_line (indent : Z) : M unit :=
  xtrace_set_gray_color;;
  append ("[" ++ fmt_d sys_thread_selfid ++ "]")%string;;
  append (spaces (Z.to_nat (indent + 1)));;
  xtrace_reset_color.

(** [static void print_call(log, defs, type, nr, indent, gray_name)] *)
Definition print_call (nr indent : Z) (gray_name : bool) : M unit :=
  xtrace_start_line indent;;
  (if gray_name then xtrace_set_gray_color else mret tt);;
  match name (defs nr) with
  | Some n => append n
  | None => append (type ++ " " ++ fmt_d nr)%string
  end.

(** [void handle_generic_entry(log, defs, type, nr, args)] *)
Definition handle_generic_entry (nr : Z) (args : list Z) : M unit :=
  if xtrace_ignore g then mret tt else
  t ← get_ptr_nested_call;
  (if (previous_level t <? current_level t)
      && negb (xtrace_split_entry_and_exit g)
   then flush_line else mret tt);;
  let indent := 4 * current_level t in
  nrs_store (current_level t) nr;;
  print_call nr indent false;;
  match name (defs nr), print_args (defs nr) with
  | Some _, Some pa => append "(";; append (pa nr args);; append ")"
  | _, _ => append "(...)"
  end;;
  (if xtrace_split_entry_and_exit g then flush_line else mret tt);;
  set_levels (current_level t + 1) (current_level t).

(** [void handle_generic_exit(log, defs, type, retval, force_split)] *)
Definition handle_generic_exit (retval : Z) (force_split : bool) : M unit :=
  if xtrace_ignore g then mret tt else
  t ← get_ptr_nested_call;
  let force_split :=
    if previous_level t >? current_level t then true else force_split in
  set_levels (current_level t - 1) (current_level t);;
  nr ← nrs_load (current_level t - 1);
  (if xtrace_split_entry_and_exit g || force_split then
     let indent := 4 * (current_level t - 1) in
     print_call nr indent true;;
     append "()"
   else mret tt);;
  xtrace_set_gray_color;;
  append " -> ";;
  xtrace_reset_color;;
  match name (defs nr), print_retval (defs nr) with
  | Some _, Some pr => append (pr nr retval)
  | _, _ => append ("0x" ++ fmt_lx retval)%string
  end;;
  flush_line.

(** The two events the trampolines deliver. *)
Inductive event :=
| Entry (nr : Z) (args : list Z)
| Exit (retval : Z) (force_split : bool).

Definition step (e : event) : M unit :=
  match e with
  | Entry nr args => handle_generic_entry nr args
  | Exit retval force_split => handle_generic_exit retval force_split
  end.

(** The events of one thread, handled in order. *)
Fixpoint run (es : list event) : M unit :=
  match es with
  | [] => mret tt
  | e :: es => step e;; run es
  end.

(** The thread's state after each event, up to and including the state an
    out-of-bounds access leaves. *)
Fixpoint states (es : list event) (t : thread) : list thread :=
  match es with
  | [] => []
  | e :: es =>
      match step e t with
      | Ok _ t' => t' :: states es t'
      | OutOfBounds t' => [t']
      end
  end.

End Handlers.

Definition is_entry (e : event) : bool :=
  match e with Entry _ _ => true | Exit _ _ => false end.

Definition entries (es : list event) : Z :=
  Z.of_nat (length (filter (fun e => is_entry e = true) es)).
Definition exits (es : list event) : Z :=
  Z.of_nat (length (filter (fun e => is_entry e = false) es)).

(** Every [Exit] closes an [Entry] that is still open, and no [Entry] opens
    a 65th level: the events fit the 64 slots of [nrs] from depth [d]. *)
Fixpoint nested (d : Z) (es : list event) : bool :=
  match es with
  | [] => true
  | Entry _ _ :: es => (d <? 64) && nested (d + 1) es
  | Exit _ _ :: es => (0 <? d) && nested (d - 1) es
  end.

(** A handler step that only appends the text [s] to the log. *)
Definition appends (m : M unit) (s : string) : Prop :=
  forall t, m t = Ok tt (log_app t s).

(** The text of a trace line as the log line format words it:
    [[<thread-id>] <indent><name-or-"<type> <nr>">(<args>) -> <retval>],
    with the colour codes around the thread id and the arrow. *)
Section LineFormat.

Variable g : globals.
Variable sys_thread_selfid : Z.
Variable defs : Z -> calldef.
Variable type : string.

Definition gray_text : string :=
  if xtrace_no_color g then "" else String ESC "[37m".
Definition reset_text : string :=
  if xtrace_no_color g then "" else String ESC "[0m".

Definition start_line_text (indent : Z) : string :=
  (gray_text ++ ("[" ++ fmt_d sys_thread_selfid ++ "]")
   ++ spaces (Z.to_nat (indent + 1)) ++ reset_text)%string.

Definition call_name_text (nr : Z) : string :=
  match name (defs nr) with
  | Some n => n
  | None => (type ++ " " ++ fmt_d nr)%string
  end.

Definition args_text (nr : Z) (args : list Z) : string :=
  match name (defs nr), print_args (defs nr) with
  | Some _, Some pa => ("(" ++ pa nr args ++ ")")%string
  | _, _ => "(...)"
  end.

Definition retval_text (nr retval : Z) : string :=
  match name (defs nr), print_retval (defs nr) with
  | Some _, Some pr => pr nr retval
  | _, _ => ("0x" ++ fmt_lx retval)%string
  end.

(** The call header [handle_generic_entry] formats at depth [level]. *)
Definition header_text (level nr : Z) (args : list Z) : string :=
  (start_line_text (4 * level) ++ call_name_text nr ++ args_text nr args)%string.

(** The suffix [handle_generic_exit] appends. *)
Definition result_text (nr retval : Z) : string :=
  (gray_text ++ " -> " ++ reset_text ++ retval_text nr retval)%string.

End LineFormat.

(** A configuration with tracing on, and a syscall table without entries. *)
Definition plain_globals : globals :=
  {| xtrace_ignore := false; xtrace_split_entry_and_exit := false;
     xtrace_no_color := false |}.
Definition no_defs : Z -> calldef :=
  fun _ => {| name := None; print_args := None; print_retval := None |}.

End Tracker.

(* ===================================================================== *)
(** ** xtrace: the environment block handed to [execve] *)
(* ===================================================================== *)

Module Envp.

Local Open Scope nat_scope.

(** A byte of memory: written, or still as the allocator left it. *)
Inductive cell :=
| Init (c : ascii)
| Undef.

Definition NUL : ascii := "000"%char.

(** An allocation of [char]: its bytes, and the stores that fell past its
    end (offset from its start and the byte stored). *)
Record chars := {
  cells : list cell;
  past_end : list (nat * cell)
}.

(** A [const char*] that is only read is the memory from the pointer to the
    end of its object. A string literal: *)
Definition cbytes (l : list ascii) : list cell := map Init l ++ [Init NUL].
Definition cstr (s : string) : list cell :=
  cbytes (String.list_ascii_of_string s).

Definition literal (s : string) : chars :=
  {| cells := cstr s; past_end := [] |}.

(** [strlen]; [None]: the scan reads an indeterminate byte or leaves the
    object. *)
Fixpoint strlen (s : list cell) : option nat :=
  match s with
  | Init c :: s' => if Ascii.eqb c NUL then Some 0 else S <$> strlen s'
  | _ => None
  end.

(** [strchr(s, c)]: [Some (Some i)] is [s + i], [Some None] is [NULL]. *)
Fixpoint strchr (s : list cell) (c : ascii) : option (option nat) :=
  match s with
  | Init d :: s' =>
      if Ascii.eqb d c then Some (Some 0)
      else if Ascii.eqb d NUL then Some None
      else
        match strchr s' c with
        | Some (Some i) => Some (Some (S i))
        | r => r
        end
  | _ => None
  end.

(** [strncmp(a, b, n)] *)
Fixpoint strncmp (a b : list cell) (n : nat) {struct n} : option Z :=
  match n with
  | O => Some 0%Z
  | S n' =>
      match a, b with
      | Init x :: a', Init y :: b' =>
          if Ascii.eqb x y then
            if Ascii.eqb x NUL then Some 0%Z else strncmp a' b' n'
          else Some (Z.of_nat (nat_of_ascii x) - Z.of_nat (nat_of_ascii y))%Z
      | _, _ => None
      end
  end.

(** [xtrace_malloc(n)] for bytes: [n] indeterminate bytes. *)
Definition xtrace_malloc (n : nat) : chars :=
  {| cells := replicate n Undef; past_end := [] |}.

(** [b[i] = x]. A store past the end of the allocation is recorded with
    the allocation, by its offset: that it happened, not which other object
    it lands in. Module [EnvpFlat] has the strings in one address space,
    where such a store changes the byte at its address. *)
Definition poke (i : nat) (x : cell) (b : chars) : chars :=
  if i <? length (cells b) then
    {| cells := <[i := x]> (cells b); past_end := past_end b |}
  else
    {| cells := cells b; past_end := past_end b ++ [(i, x)] |}.

(** [memcpy(&dst[off], src, n)] *)
Fixpoint memcpy (dst : chars) (off : nat) (src : list cell) (n : nat)
    {struct n} : option chars :=
  match n with
  | O => Some dst
  | S n' =>
      match src with
      | [] => None
      | x :: src' => memcpy (poke off x dst) (S off) src' n'
      end
  end.

(** [static const char* envp_make_entry(const char* key, const char* value)] *)
Definition envp_make_entry (key value : list cell) : option chars :=
  key_length ← strlen key;
  value_length ← strlen value;
  let entry := xtrace_malloc (key_length + value_length + 2) in
  entry ← memcpy entry 0 key key_length;
  let entry := poke key_length (Init "="%char) entry in
  entry ← memcpy entry (key_length + 1) value value_length;
  let entry := poke (key_length + value_length + 2) (Init NUL) entry in
  Some entry.

(** A cell of a [const char**] array. *)
Inductive slot :=
| Null
| Ptr (e : chars)
| Wild.

(** The arrays of pointers: the caller's block and the ones the hook
    allocates, by address. Freeing an array removes it. *)
Abbreviation heap := (gmap nat (list slot)).

(** [xtrace_malloc] for an array of [n] pointers, all indeterminate. *)
Definition xtrace_malloc_ptrs (n : nat) (h : heap) : nat * heap :=
  let a := fresh (dom h) in (a, <[a := replicate n Wild]> h).

(** [xtrace_free(envp)] *)
Definition xtrace_free (a : nat) (h : heap) : heap := delete a h.

(** [envp[i] = s] *)
Definition slot_store (a i : nat) (s : slot) (h : heap) : option heap :=
  arr ← h !! a;
  if i <? length arr then Some (<[a := <[i := s]> arr]> h) else None.

(** [memcpy] of the first [n] pointers of [src] to [dst]. *)
Definition memcpy_ptrs (dst src n : nat) (h : heap) : option heap :=
  d ← h !! dst;
  s ← h !! src;
  if (n <=? length d) && (n <=? length s)
  then Some (<[dst := take n s ++ drop n d]> h) else None.

(** [static size_t envp_count(const char** envp)], from [ptr]. *)
Fixpoint envp_count_from (ptr : list slot) : option nat :=
  match ptr with
  | Null :: _ => Some 0
  | Ptr _ :: ptr' => S <$> envp_count_from ptr'
  | _ => None
  end.

Definition envp_count (h : heap) (envp : nat) : option nat :=
  arr ← h !! envp; envp_count_from arr.

(** The loop of [envp_find] from [ptr], which is slot [i] of the array. An
    entry without ['='] gives [entry_key_end = NULL] and an
    [entry_key_length] of minus the entry's address, which is no key's
    length: the loop continues. *)
Fixpoint envp_find_from (ptr : list slot) (i : nat) (key : list cell)
    (key_length : nat) : option (option nat) :=
  match ptr with
  | Null :: _ => Some None
  | Ptr e :: ptr' =>
      entry_key_end ← strchr (cells e) "="%char;
      match entry_key_end with
      | None => envp_find_from ptr' (S i) key key_length
      | Some entry_key_length =>
          if negb (entry_key_length =? key_length) then
            envp_find_from ptr' (S i) key key_length
          else
            c ← strncmp key (cells e) key_length;
            if negb (c =? 0)%Z then
              envp_find_from ptr' (S i) key key_length
            else Some (Some i)
      end
  | _ => None
  end.

(** [static const char** envp_find(const char** envp, const char* key)]:
    the index of the slot found, or [Some None] for [NULL]. *)
Definition envp_find (h : heap) (envp : nat) (key : list cell)
  : option (option nat) :=
  key_length ← strlen key;
  arr ← h !! envp;
  envp_find_from arr 0 key key_length.

(** [static void envp_set(const char*** envp_ptr, key, value, bool*
    allocated)]: [*envp_ptr] and [*allocated] go in and come out. *)
Definition envp_set (envp : option nat) (key value : list cell)
    (allocated : bool) (h : heap) : option (option nat * bool * heap) :=
  match envp with
  | None =>
      let '(envp, h) := xtrace_malloc_ptrs 2 h in
      e ← envp_make_entry key value;
      h ← slot_store envp 0 (Ptr e) h;
      h ← slot_store envp 1 Null h;
      Some (Some envp, true, h)
  | Some envp =>
      entry_ptr ← envp_find h envp key;
      match entry_ptr with
      | Some i =>
          e ← envp_make_entry key value;
          h ← slot_store envp i (Ptr e) h;
          Some (Some envp, allocated, h)
      | None =>
          count ← envp_count h envp;
          let '(new_envp, h) := xtrace_malloc_ptrs (count + 2) h in
          h ← memcpy_ptrs new_envp envp count h;
          let h := if allocated then xtrace_free envp h else h in
          e ← envp_make_entry key value;
          h ← slot_store new_envp count (Ptr e) h;
          h ← slot_store new_envp (count + 1) Null h;
          Some (Some new_envp, true, h)
      end
  end.

(** [static const char* envp_get(const char** envp, const char* key)]:
    [Some None] is [NULL]. *)
Definition envp_get (h : heap) (envp : nat) (key : list cell)
  : option (option (list cell)) :=
  entry ← envp_find h envp key;
  match entry with
  | None => Some None
  | Some i =>
      arr ← h !! envp;
      s ← arr !! i;
      match s with
      | Ptr e =>
          eq ← strchr (cells e) "="%char;
          match eq with
          | Some j => Some (Some (drop (j + 1) (cells e)))
          | None => None
          end
      | _ => None
      end
  end.

Definition LIBRARY_PATH : string := "/usr/lib/darling/libxtrace.dylib".
(** [sizeof(LIBRARY_PATH) - 1] *)
Definition LIBRARY_PATH_LENGTH : nat := String.length LIBRARY_PATH.

(** The configuration globals the hook re-exports. *)
Record config := {
  xtrace_split_entry_and_exit : bool;
  xtrace_no_color : bool;
  xtrace_kprintf : bool;
  xtrace_use_per_thread_logfile : bool;
  xtrace_use_logfile : bool;
  xtrace_logfile_base : list cell
}.

Definition flag (b : bool) : list cell := cstr (if b then "1" else "0").

(** The value the hook builds for [DYLD_INSERT_LIBRARIES] from what
    [envp_get] returned. *)
Definition new_insert_libraries (insert_libraries : option (list cell))
  : option chars :=
  insert_libraries_length ←
    match insert_libraries with
    | Some s => strlen s
    | None => Some 0
    end;
  let new_value :=
    xtrace_malloc (insert_libraries_length
                   + (if insert_libraries_length =? 0 then 0 else 1)
                   + LIBRARY_PATH_LENGTH + 1) in
  let offset := 0 in
  '(new_value, offset) ←
    match insert_libraries with
    | Some s =>
        if 0 <? insert_libraries_length then
          new_value ← memcpy new_value offset s insert_libraries_length;
          let offset := offset + insert_libraries_length in
          let new_value := poke offset (Init ":"%char) new_value in
          Some (new_value, offset + 1)
        else Some (new_value, offset)
    | None => Some (new_value, offset)
    end;
  new_value ←
    memcpy new_value offset (cstr LIBRARY_PATH) LIBRARY_PATH_LENGTH;
  let offset := offset + LIBRARY_PATH_LENGTH in
  Some (poke offset (Init NUL) new_value).

(** [static void xtrace_execve_inject_hook(const char*** envp_ptr)] *)
Definition xtrace_execve_inject_hook (cfg : config) (envp : option nat)
    (h : heap) : option (option nat * heap) :=
  let allocated := false in
  '(envp, allocated, h) ←
    envp_set envp (cstr "XTRACE_SPLIT_ENTRY_AND_EXIT")
             (flag (xtrace_split_entry_and_exit cfg)) allocated h;
  '(envp, allocated, h) ←
    envp_set envp (cstr "XTRACE_NO_COLOR")
             (flag (xtrace_no_color cfg)) allocated h;
  '(envp, allocated, h) ←
    envp_set envp (cstr "XTRACE_KPRINTF")
             (flag (xtrace_kprintf cfg)) allocated h;
  '(envp, allocated, h) ←
    envp_set envp (cstr "XTRACE_LOG_FILE_PER_THREAD")
             (flag (xtrace_use_per_thread_logfile cfg)) allocated h;
  '(envp, allocated, h) ←
    envp_set envp (cstr "XTRACE_LOG_FILE")
             (if xtrace_use_logfile cfg then xtrace_logfile_base cfg
              else cstr "") allocated h;
  a ← envp;
  insert_libraries ← envp_get h a (cstr "DYLD_INSERT_LIBRARIES");
  new_value ← new_insert_libraries insert_libraries;
  '(envp, allocated, h) ←
    envp_set envp (cstr "DYLD_INSERT_LIBRARIES") (cells new_value)
             allocated h;
  Some (envp, h).

(** An environment block: the entries, the terminating [NULL], and
    whatever the array holds behind it. *)
Definition block (es : list chars) (behind : list slot) : list slot :=
  map Ptr es ++ Null :: behind.

(** The entry [e] reads [key=...]. *)
Definition has_key (key : list ascii) (e : chars) : Prop :=
  exists rest, cells e = map Init key ++ Init "="%char :: rest.

(** A key is a C string without ['=']. *)
Definition key_ok (key : list ascii) : Prop :=
  (NUL ∉ key) /\ ("="%char ∉ key).

(** The scan of [e] for ['='] stays inside the written part of [e]: it meets
    an ['='] or the terminator. *)
Definition scannable (e : chars) : Prop :=
  is_Some (strchr (cells e) "="%char).

(** A configuration with every option off. *)
Definition default_config : config :=
  {| xtrace_split_entry_and_exit := false; xtrace_no_color := false;
     xtrace_kprintf := false; xtrace_use_per_thread_logfile := false;
     xtrace_use_logfile := false; xtrace_logfile_base := cstr "" |}.

End Envp.

(* ===================================================================== *)
(** ** errno.cpp: building the tables *)
(* ===================================================================== *)

Module ErrnoInit.

Import Errno.

(** [a[i] = v] for an [int] array: [None] is a store outside the array. *)
Definition array_set (a : list Z) (i v : Z) : option (list Z) :=
  if (0 <=? i) && (i <? Z.of_nat (length a)) then Some (<[Z.to_nat i := v]> a)
  else None.

Section Init.

(** From [darwin_errno_codes.h] and [<errno.h>]. *)
Variables _DARWIN_EBADEXEC _DARWIN_EBADARCH _DARWIN_EBADMACHO ENOEXEC : Z.

(** The assignments of [darwin_to_linux.map] and [linux_to_darwin.map], each
    as what it does to the two tables ([darwin_to_linux], [linux_to_darwin]);
    [None] is a store outside a table. *)
Variables darwin_to_linux_map linux_to_darwin_map :
  list Z * list Z -> option (list Z * list Z).

(** [void initErrnoMappingTable()] *)
Definition initErrnoMappingTable : option (list Z * list Z) :=
  let darwin_to_linux := replicate 140%nat 0 in
  let linux_to_darwin := replicate 140%nat 0 in
  '(darwin_to_linux, linux_to_darwin) ←
    darwin_to_linux_map (darwin_to_linux, linux_to_darwin);
  '(darwin_to_linux, linux_to_darwin) ←
    linux_to_darwin_map (darwin_to_linux, linux_to_darwin);
  darwin_to_linux ← array_set darwin_to_linux _DARWIN_EBADEXEC ENOEXEC;
  darwin_to_linux ← array_set darwin_to_linux _DARWIN_EBADARCH ENOEXEC;
  darwin_to_linux ← array_set darwin_to_linux _DARWIN_EBADMACHO ENOEXEC;
  Some (darwin_to_linux, linux_to_darwin).

End Init.

(** A [.map] file keeps the tables at their 140 entries. *)
Definition keeps_sizes (f : list Z * list Z -> option (list Z * list Z))
  : Prop :=
  forall d l d' l',
    length d = 140%nat -> length l = 140%nat ->
    f (d, l) = Some (d', l') ->
    length d' = 140%nat /\ length l' = 140%nat.

End ErrnoInit.


(* ===================================================================== *)
(** ** xtrace: what a patched hook holds *)
(* ===================================================================== *)

Module HookCode.

Import Hook.

(** Byte [i] of [v], least significant first. *)
Definition byte_of (v i : Z) : Z := Z.land (Z.shiftr v (8 * i)) 255.

(** The 13 bytes of a hook on x86_64: [49 ba imm64] is
    [movabs $imm64, %r10], [41 ff d2] is [call *%r10] and [41 ff e2] is
    [jmp *%r10]. *)
Definition hook_code (fnptr : Z) (jump : bool) : list Z :=
  [0x49; 0xba]
  ++ map (byte_of fnptr) [0; 1; 2; 3; 4; 5; 6; 7]
  ++ [0x41; 0xff; if jump then 0xe2 else 0xd2].

(** The [n] bytes of memory from [addr] on. *)
Definition read_bytes (w : world) (addr : Z) (n : nat) : list Z :=
  map (fun i => mem w (addr + Z.of_nat i)) (seq 0 n).

(** The little-endian 64-bit value at [addr]. *)
Definition load64 (w : world) (addr : Z) : Z :=
  foldr (fun b acc => b + 256 * acc) 0 (read_bytes w addr 8).

(** [w] after the stores of [setup_hook], in their order. *)
Definition patched (w : world) (hook fnptr : Z) (jump : bool) : world :=
  let w := with_byte w (hook + 0) 0x49 in
  let w := with_byte w (hook + 1) 0xba in
  let w := with_byte w (hook + 10) 0x41 in
  let w := with_byte w (hook + 11) 0xff in
  let w := with_byte w (hook + 12) (if jump then 0xe2 else 0xd2) in
  let w := with_byte w (hook + 2) (byte_of fnptr 0) in
  let w := with_byte w (hook + 2 + 1) (byte_of fnptr 1) in
  let w := with_byte w (hook + 2 + 2) (byte_of fnptr 2) in
  let w := with_byte w (hook + 2 + 3) (byte_of fnptr 3) in
  let w := with_byte w (hook + 2 + 4) (byte_of fnptr 4) in
  let w := with_byte w (hook + 2 + 5) (byte_of fnptr 5) in
  let w := with_byte w (hook + 2 + 6) (byte_of fnptr 6) in
  with_byte w (hook + 2 + 7) (byte_of fnptr 7).

(** [w] after each hook of [hs], given with its function pointer and its
    kind, was patched, in the order of the list. *)
Fixpoint patched_all (w : world) (hs : list (Z * Z * bool)) : world :=
  match hs with
  | [] => w
  | (hook, fnptr, jump) :: hs' => patched_all (patched w hook fnptr jump) hs'
  end.

(** The way an installer ended from [w] when it went through all its
    steps whatever [mprotect] answered. The first [mprotect], to
    [PROT_RWX], was called and left [w1]. Then either every hook of [hs]
    was patched and the second [mprotect], to [PROT_RX], was called on the
    result, and the installer returned what that call left; or a store into
    one of the hook regions faulted, on a page that is not writable in
    [w1]. *)
Definition patches_or_faults (area bytes : Z) (hs : list (Z * Z * bool))
    (w : world) (out : outcome unit) : Prop :=
  exists r1 w1,
    mprotect area bytes PROT_RWX w = Done r1 w1
    /\ ((exists r2 w',
           mprotect area bytes PROT_RX (patched_all w1 hs) = Done r2 w'
           /\ out = Done tt w')
        \/ (exists a,
              out = Segv a
              /\ Exists (fun h => h.1.1 <= a < h.1.1 + hook_size) hs
              /\ prot_write (perms w1 (a / 4096)) = false)).

(** A hook whose range computation does not wrap around. *)
Definition valid_hook (hook : Z) : Prop :=
  0 <= hook /\ hook + hook_size + 4096 < 2 ^ 64.

(** [w'] differs from [w] at most in memory and page protections. *)
Definition same_kernel (w w' : world) : Prop :=
  mprotect_fails w' = mprotect_fails w
  /\ mmap_answer w' = mmap_answer w
  /\ sigaltstack_answer w' = sigaltstack_answer w
  /\ altstack w' = altstack w
  /\ altstack_default_size w' = altstack_default_size w
  /\ xtrace_ignore w' = xtrace_ignore w.

(** The second half of [xtrace_setup], from the [mmap] of the signal stack
    to the clearing of [xtrace_ignore]. *)
Definition setup_altstack : M unit :=
  let ss_size := 16 * 1024 in
  ss_sp ← mmap (ss_size + 4096);
  (if ss_sp =? MAP_FAILED then
     xtrace_abort "xtrace: failed to allocate larger sigstack for main thread"
   else mret tt);;
  _ ← mprotect ss_sp 4096 PROT_NONE;
  let ss_sp := ss_sp + 4096 in
  r ← _sigaltstack_for_xtrace ss_sp ss_size;
  (if r <? 0 then xtrace_abort "failed to override sigaltstack"
   else mret tt);;
  _sigaltstack_set_default_size_for_xtrace ss_size;;
  set_xtrace_ignore false.

End HookCode.


(* ===================================================================== *)
(** ** xtrace: the tracker's output, read off the sequence of events *)
(* ===================================================================== *)

Module TrackerSpec.

Import Tracker.

(** The number of lines a sequence of events produces when entries and exits
    are merged where possible: one per [Exit], and one per [Entry] that
    directly follows another [Entry] (the line of the call it interrupts).
    [prev_entry] says whether the event before the sequence was an [Entry]. *)
Fixpoint lines (prev_entry : bool) (es : list event) : nat :=
  match es with
  | [] => 0
  | Entry _ _ :: es => (if prev_entry then 1 else 0) + lines true es
  | Exit _ _ :: es => 1 + lines false es
  end.

(** The call numbers of the calls still open after a sequence of events,
    outermost first, starting from the open calls [stack]. *)
Fixpoint open_calls (stack : list Z) (es : list event) : list Z :=
  match es with
  | [] => stack
  | Entry nr _ :: es => open_calls (stack ++ [nr]) es
  | Exit _ _ :: es => open_calls (take (length stack - 1) stack) es
  end.

(** The header an [Exit] re-emits for a call whose line was already
    flushed: the call's name in gray, and empty parentheses. *)
Definition dimmed_header (g : globals) (sys_thread_selfid : Z)
    (defs : Z -> calldef) (type : string) (level nr : Z) : string :=
  (start_line_text g sys_thread_selfid (4 * level)
   ++ gray_text g ++ call_name_text defs type nr ++ "()")%string.

Definition newline : string := String "010"%char "".

(** A configuration with tracing on and every entry and exit on a line of
    its own. *)
Definition split_globals : globals :=
  {| xtrace_ignore := false; xtrace_split_entry_and_exit := true;
     xtrace_no_color := true |}.

End TrackerSpec.


(* ===================================================================== *)
(** ** xtrace: environment blocks as lists of entries *)
(* ===================================================================== *)

Module EnvpSpec.

Import Envp.
Local Open Scope nat_scope.

(** [s] begins with the bytes of [key] and an ['=']. *)
Fixpoint starts_with (key : list ascii) (s : list cell) : bool :=
  match key, s with
  | [], Init c :: _ => Ascii.eqb c "="%char
  | k :: key', Init c :: s' => Ascii.eqb k c && starts_with key' s'
  | _, _ => false
  end.

(** The entry [e] reads [key=...], as a test. *)
Definition has_keyb (key : list ascii) (e : chars) : bool :=
  starts_with key (cells e).

(** The first entry of [es] that reads [key=...], with its index. *)
Fixpoint find_key (key : list ascii) (es : list chars)
  : option (nat * chars) :=
  match es with
  | [] => None
  | e :: es' =>
      if has_keyb key e then Some (0, e)
      else
        match find_key key es' with
        | Some (i, e') => Some (S i, e')
        | None => None
        end
  end.

(** What stands behind [key=] in the entry [e]. *)
Definition value_of (key : list ascii) (e : chars) : list cell :=
  drop (length key + 1) (cells e).

(** The value of [key] in the entries [es]: that of the first entry for
    [key]. *)
Definition lookup_value (key : list ascii) (es : list chars)
  : option (list cell) :=
  match find_key key es with
  | Some (_, e) => Some (value_of key e)
  | None => None
  end.

(** [es] with [e] in the place of the first entry for [key], or behind all
    entries when there is none. *)
Definition upsert (key : list ascii) (e : chars) (es : list chars)
  : list chars :=
  match find_key key es with
  | Some (i, _) => <[i := e]> es
  | None => es ++ [e]
  end.

(** The allocation [envp_make_entry] returns for a key and a value without
    NUL: the bytes of [key=value], a last byte that is never written, and
    the NUL stored one byte past the end. *)
Definition made_entry (key value : list ascii) : chars :=
  {| cells := map Init key ++ Init "="%char :: map Init value ++ [Undef];
     past_end := [(length key + length value + 2, Init NUL)] |}.

(** The entry is a C string: written bytes up to a terminator. *)
Definition c_string (e : chars) : Prop :=
  exists l rest, (NUL ∉ l) /\ cells e = map Init l ++ Init NUL :: rest.

(** The bytes of a C string: those before its terminator. *)
Fixpoint text (v : list cell) : list ascii :=
  match v with
  | Init c :: v' => if Ascii.eqb c NUL then [] else c :: text v'
  | _ => []
  end.

(** The names the hook exports, as bytes. *)
Definition SPLIT_KEY : list ascii :=
  String.list_ascii_of_string "XTRACE_SPLIT_ENTRY_AND_EXIT".
Definition NO_COLOR_KEY : list ascii :=
  String.list_ascii_of_string "XTRACE_NO_COLOR".
Definition KPRINTF_KEY : list ascii :=
  String.list_ascii_of_string "XTRACE_KPRINTF".
Definition PER_THREAD_KEY : list ascii :=
  String.list_ascii_of_string "XTRACE_LOG_FILE_PER_THREAD".
Definition LOG_FILE_KEY : list ascii :=
  String.list_ascii_of_string "XTRACE_LOG_FILE".
Definition INSERT_KEY : list ascii :=
  String.list_ascii_of_string "DYLD_INSERT_LIBRARIES".

(** ["1"] or ["0"] *)
Definition flag_text (b : bool) : list ascii :=
  String.list_ascii_of_string (if b then "1" else "0").

(** The log file name the hook exports: the base name when a log file is in
    use, the empty string otherwise. *)
Definition logfile_text (cfg : config) (base : list ascii) : list ascii :=
  if xtrace_use_logfile cfg then base else [].

(** The entries after the five options are exported, in the hook's order. *)
Definition option_entries (cfg : config) (base : list ascii)
    (es : list chars) : list chars :=
  let es := upsert SPLIT_KEY
              (made_entry SPLIT_KEY
                 (flag_text (xtrace_split_entry_and_exit cfg))) es in
  let es := upsert NO_COLOR_KEY
              (made_entry NO_COLOR_KEY (flag_text (xtrace_no_color cfg))) es in
  let es := upsert KPRINTF_KEY
              (made_entry KPRINTF_KEY (flag_text (xtrace_kprintf cfg))) es in
  let es := upsert PER_THREAD_KEY
              (made_entry PER_THREAD_KEY
                 (flag_text (xtrace_use_per_thread_logfile cfg))) es in
  upsert LOG_FILE_KEY (made_entry LOG_FILE_KEY (logfile_text cfg base)) es.

(** The list of libraries the hook exports, from the old value. *)
Definition insert_libraries_text (old : option (list cell)) : list ascii :=
  match old with
  | Some v =>
      match text v with
      | [] => String.list_ascii_of_string LIBRARY_PATH
      | x => x ++ ":"%char :: String.list_ascii_of_string LIBRARY_PATH
      end
  | None => String.list_ascii_of_string LIBRARY_PATH
  end.

(** The entries the hook leaves. *)
Definition hook_entries (cfg : config) (base : list ascii)
    (es : list chars) : list chars :=
  upsert INSERT_KEY
    (made_entry INSERT_KEY
       (insert_libraries_text (lookup_value INSERT_KEY es)))
    (option_entries cfg base es).

(** The heap [h'] with the block at [a'] that the hook leaves, against the
    heap [h] with the caller's block at [a]: every other array is as it
    was, the caller's array is still allocated, and [a'] is the caller's
    array or one that did not exist before. *)
Definition framed (h : heap) (a : nat) (h' : heap) (a' : nat) : Prop :=
  (forall b, b <> a' -> b <> a -> h' !! b = h !! b)
  /\ is_Some (h' !! a)
  /\ (a' = a \/ h !! a' = None).

End EnvpSpec.


(* ===================================================================== *)
(** ** xtrace: reading the options from the environment *)
(* ===================================================================== *)

Module Options.

Import Envp.
Local Open Scope nat_scope.

(** [static bool string_is_truthy(const char* string)]: [None] is [NULL];
    the result is [None] when the first byte cannot be read. *)
Definition string_is_truthy (string : option (list cell)) : option bool :=
  match string with
  | None => Some false
  | Some (Init c :: _) =>
      Some (Ascii.eqb c "1" || Ascii.eqb c "T" || Ascii.eqb c "t"
            || Ascii.eqb c "Y" || Ascii.eqb c "y")%char
  | Some _ => None
  end.

(** [strlcpy(dst, src, size)] into the array [dst] of [size] bytes: the
    first [size - 1] bytes of the string [src], or all of them when they
    are fewer, and a terminator. *)
Definition strlcpy (dst src : list cell) (size : nat) : option (list cell) :=
  n ← strlen src;
  if size =? 0 then Some dst
  else
    let m := n `min` (size - 1) in
    Some (take m src ++ Init NUL :: drop (m + 1) dst).

Section SetupOptions.

(** From [<limits.h>]. *)
Variable PATH_MAX : nat.

(** [getenv]: the value of a variable in the process's environment. *)
Variable getenv : string -> option (list cell).

(** The statics as the image is loaded: the flags 0 and
    [xtrace_logfile_base[PATH_MAX] = {0}]. *)
Definition initial_config : config :=
  {| xtrace_split_entry_and_exit := false; xtrace_no_color := false;
     xtrace_kprintf := false; xtrace_use_per_thread_logfile := false;
     xtrace_use_logfile := false;
     xtrace_logfile_base := replicate PATH_MAX (Init NUL) |}.

(** [static void xtrace_setup_options(void)] *)
Definition xtrace_setup_options (cfg : config) : option config :=
  let xtrace_log_file := getenv "XTRACE_LOG_FILE" in
  split ← string_is_truthy (getenv "XTRACE_SPLIT_ENTRY_AND_EXIT");
  no_color ← string_is_truthy (getenv "XTRACE_NO_COLOR");
  kprintf ← string_is_truthy (getenv "XTRACE_KPRINTF");
  per_thread ← string_is_truthy (getenv "XTRACE_LOG_FILE_PER_THREAD");
  match xtrace_log_file with
  | None =>
      Some {| xtrace_split_entry_and_exit := split;
              xtrace_no_color := no_color; xtrace_kprintf := kprintf;
              xtrace_use_per_thread_logfile := per_thread;
              xtrace_use_logfile := xtrace_use_logfile cfg;
              xtrace_logfile_base := xtrace_logfile_base cfg |}
  | Some (Init c :: rest) =>
      if Ascii.eqb c NUL then
        Some {| xtrace_split_entry_and_exit := split;
                xtrace_no_color := no_color; xtrace_kprintf := kprintf;
                xtrace_use_per_thread_logfile := per_thread;
                xtrace_use_logfile := xtrace_use_logfile cfg;
                xtrace_logfile_base := xtrace_logfile_base cfg |}
      else
        base ← strlcpy (xtrace_logfile_base cfg) (Init c :: rest) PATH_MAX;
        Some {| xtrace_split_entry_and_exit := split;
                xtrace_no_color := no_color; xtrace_kprintf := kprintf;
                xtrace_use_per_thread_logfile := per_thread;
                xtrace_use_logfile := true;
                xtrace_logfile_base := base |}
  | Some _ => None
  end.

(** The shape of [xtrace_use_logfile] and [xtrace_logfile_base] together:
    no log file and an array of zeros, or a log file and its name, not
    empty, NUL-free and shorter than the array, then zeros. *)
Definition settled (cfg : config) : Prop :=
  (xtrace_use_logfile cfg = false
   /\ xtrace_logfile_base cfg = replicate PATH_MAX (Init NUL))
  \/ (xtrace_use_logfile cfg = true
      /\ exists name,
           name <> [] /\ (NUL ∉ name) /\ length name < PATH_MAX
           /\ xtrace_logfile_base cfg
              = map Init name
                ++ replicate (PATH_MAX - length name) (Init NUL)).

End SetupOptions.



(** The value arguments of the five calls of [envp_set] in
    [xtrace_execve_inject_hook] for the configuration [cfg], by key: the
    strings the hook passes, each with its terminator. They are not the
    entries [envp_make_entry] builds from them. *)
Definition hook_arguments (cfg : config) (name : string)
  : option (list cell) :=
  if String.eqb name "XTRACE_SPLIT_ENTRY_AND_EXIT" then
    Some (flag (xtrace_split_entry_and_exit cfg))
  else if String.eqb name "XTRACE_NO_COLOR" then
    Some (flag (xtrace_no_color cfg))
  else if String.eqb name "XTRACE_KPRINTF" then
    Some (flag (xtrace_kprintf cfg))
  else if String.eqb name "XTRACE_LOG_FILE_PER_THREAD" then
    Some (flag (xtrace_use_per_thread_logfile cfg))
  else if String.eqb name "XTRACE_LOG_FILE" then
    Some (if xtrace_use_logfile cfg then xtrace_logfile_base cfg
          else cstr "")
  else None.

(** An environment that turns the colors off and names a log file, and the
    configuration it gives with a [PATH_MAX] of 8. *)
Definition sample_getenv (name : string) : option (list cell) :=
  if String.eqb name "XTRACE_NO_COLOR" then Some (cstr "yes")
  else if String.eqb name "XTRACE_LOG_FILE" then Some (cstr "/tmp/x")
  else None.

Definition sample_config : config :=
  {| xtrace_split_entry_and_exit := false; xtrace_no_color := true;
     xtrace_kprintf := false; xtrace_use_per_thread_logfile := false;
     xtrace_use_logfile := true;
     xtrace_logfile_base := cstr "/tmp/x" ++ [Init NUL] |}.


End Options.


(* ===================================================================== *)
(** ** xtrace: the log sinks *)
(* ===================================================================== *)

Module Logfile.

(** [int xtrace_kprintf], [static int xtrace_use_logfile],
    [static int xtrace_use_per_thread_logfile] and the string in
    [static char xtrace_logfile_base[PATH_MAX]]. *)
Record settings := {
  xtrace_kprintf : bool;
  xtrace_use_logfile : bool;
  xtrace_use_per_thread_logfile : bool;
  xtrace_logfile_base : string
}.

(** The string [strlcpy(dst, src, size)] leaves in [dst]. *)
Definition strlcpy (src : string) (size : nat) : string :=
  String.substring 0 (size - 1) src.

(** The string [strlcat(dst, src, size)] leaves in [dst], for a [dst]
    shorter than [size]. *)
Definition strlcat (dst src : string) (size : nat) : string :=
  (dst ++ String.substring 0 (size - 1 - String.length dst) src)%string.

Section Sinks.

(** The arguments of a format, and [__simple_vsnprintf] with a buffer that
    is large enough. *)
Variable Args : Type.
Variable render : string -> Args -> string.

(** From [<limits.h>]. *)
Variable PATH_MAX : nat.

(** What the sinks were asked to do: [_open_for_xtrace(filename,
    O_WRONLY | O_APPEND | O_CLOEXEC | O_CREAT, 0644)] with its result,
    [_close_for_xtrace], [__write_for_xtrace], [__simple_vkprintf],
    [__simple_vprintf]. *)
Inductive io :=
| Open (filename : string) (fd : Z)
| Close (fd : Z)
| Write (fd : Z) (text : string)
| Kprintf (format : string) (args : Args)
| Printf (format : string) (args : Args).

(** The descriptor the kernel answers to an [open], negative for a failure;
    it may depend on everything that happened before. *)
Variable open_answer : list io -> string -> Z.

Variable cfg : settings.

(** [xtrace_common_logfile_once], [xtrace_common_logfile], the thread-local
    [xtrace_per_thread_logfile] of every thread that has set it (its
    initial value is -1), and what the sinks were asked so far. *)
Record state := {
  xtrace_common_logfile_once : bool;
  xtrace_common_logfile : Z;
  xtrace_per_thread_logfile : gmap Z Z;
  ios : list io
}.

Definition initial_state : state :=
  {| xtrace_common_logfile_once := false; xtrace_common_logfile := -1;
     xtrace_per_thread_logfile := ∅; ios := [] |}.

(** A call returns, or ends the process in [xtrace_abort]. *)
Inductive outcome (A : Type) : Type :=
| Returned (a : A) (s : state)
| Aborted (message : string) (s : state).
Arguments Returned {A} a s.
Arguments Aborted {A} message s.

Definition M (A : Type) : Type := state -> outcome A.

#[global] Instance M_ret : MRet M := fun A a s => Returned a s.
#[global] Instance M_bind : MBind M := fun A B f m s =>
  match m s with
  | Returned a s' => f a s'
  | Aborted message s' => Aborted message s'
  end.

Definition xtrace_abort {A} (message : string) : M A :=
  fun s => Aborted message s.

Definition emit (e : io) : M unit := fun s =>
  Returned tt
    {| xtrace_common_logfile_once := xtrace_common_logfile_once s;
       xtrace_common_logfile := xtrace_common_logfile s;
       xtrace_per_thread_logfile := xtrace_per_thread_logfile s;
       ios := ios s ++ [e] |}.

Definition _open_for_xtrace (filename : string) : M Z := fun s =>
  let fd := open_answer (ios s) filename in
  Returned fd
    {| xtrace_common_logfile_once := xtrace_common_logfile_once s;
       xtrace_common_logfile := xtrace_common_logfile s;
       xtrace_per_thread_logfile := xtrace_per_thread_logfile s;
       ios := ios s ++ [Open filename fd] |}.

Definition _close_for_xtrace (fd : Z) : M unit := emit (Close fd).

(** The accessors [DEFINE_XTRACE_TLS_VAR] declares, for the thread [tid]. *)
Definition get_xtrace_per_thread_logfile (tid : Z) : M Z := fun s =>
  Returned (default (-1) (xtrace_per_thread_logfile s !! tid)) s.

Definition set_xtrace_per_thread_logfile (tid fd : Z) : M unit := fun s =>
  Returned tt
    {| xtrace_common_logfile_once := xtrace_common_logfile_once s;
       xtrace_common_logfile := xtrace_common_logfile s;
       xtrace_per_thread_logfile := <[tid := fd]> (xtrace_per_thread_logfile s);
       ios := ios s |}.

(** Reading and writing [xtrace_common_logfile]. *)
Definition get_xtrace_common_logfile : M Z := fun s =>
  Returned (xtrace_common_logfile s) s.

Definition set_xtrace_common_logfile (fd : Z) : M unit := fun s =>
  Returned tt
    {| xtrace_common_logfile_once := xtrace_common_logfile_once s;
       xtrace_common_logfile := fd;
       xtrace_per_thread_logfile := xtrace_per_thread_logfile s;
       ios := ios s |}.

(** [static void xtrace_common_logfile_init(void)] *)
Definition xtrace_common_logfile_init : M unit :=
  fd ← _open_for_xtrace (xtrace_logfile_base cfg);
  set_xtrace_common_logfile fd.

(** [xtrace_once(&xtrace_common_logfile_once, init)]: [init] runs at the
    first call only. *)
Definition xtrace_once (init : M unit) : M unit := fun s =>
  if xtrace_common_logfile_once s then Returned tt s
  else
    init {| xtrace_common_logfile_once := true;
            xtrace_common_logfile := xtrace_common_logfile s;
            xtrace_per_thread_logfile := xtrace_per_thread_logfile s;
            ios := ios s |}.

(** The name of the log file of the thread [tid]: [strlcpy] of the base
    name, [__simple_snprintf(append, 32, ".%d", tid)], [strlcat]. *)
Definition per_thread_filename (tid : Z) : string :=
  let filename := strlcpy (xtrace_logfile_base cfg) PATH_MAX in
  let append := strlcpy ("." ++ Tracker.fmt_d tid) 32 in
  strlcat filename append PATH_MAX.

(** [static void ensure_logfile(void)] on the thread [tid], which is also
    what [sys_thread_selfid()] returns. *)
Definition ensure_logfile (tid : Z) : M unit :=
  (if negb (xtrace_use_logfile cfg)
   then xtrace_abort "xtrace: tried to use logfile when not enabled"
   else mret tt);;
  cached ← get_xtrace_per_thread_logfile tid;
  if negb (cached =? -1) then mret tt
  else
    fd ← (if xtrace_use_per_thread_logfile cfg then
            _open_for_xtrace (per_thread_filename tid)
          else
            xtrace_once xtrace_common_logfile_init;;
            get_xtrace_common_logfile);
    (if fd <? 0 then xtrace_abort "xtrace: failed to open logfile"
     else mret tt);;
    set_xtrace_per_thread_logfile tid fd.

(** [void xtrace_log_v(const char* format, va_list args)] on the thread
    [tid] *)
Definition xtrace_log_v (tid : Z) (format : string) (args : Args) : M unit :=
  if xtrace_kprintf cfg then
    emit (Kprintf ("xtrace: " ++ strlcpy format (512 - 8)) args)
  else if xtrace_use_logfile cfg then
    ensure_logfile tid;;
    let output := strlcpy (render format args) 512 in
    fd ← get_xtrace_per_thread_logfile tid;
    emit (Write fd output)
  else
    emit (Printf format args).

(** [static void xtrace_postfork_child_hook(void)] on the thread [tid] *)
Definition xtrace_postfork_child_hook (tid : Z) : M unit :=
  if xtrace_use_per_thread_logfile cfg then
    fd ← get_xtrace_per_thread_logfile tid;
    (if 0 <=? fd then _close_for_xtrace fd else mret tt);;
    set_xtrace_per_thread_logfile tid (-1)
  else mret tt.

(** A message: the thread that logs it, the format and its arguments. *)
Definition message : Type := Z * string * Args.

(** The calls of [xtrace_log_v] for the messages [ms], in order. *)
Fixpoint log_all (ms : list message) : M unit :=
  match ms with
  | [] => mret tt
  | (tid, format, args) :: ms' => xtrace_log_v tid format args;; log_all ms'
  end.

(** What a message looks like in a log file. *)
Definition written (m : message) : string :=
  strlcpy (render m.1.2 m.2) 512.

(** The files opened, with the descriptors returned, and the writes. *)
Definition opens (tr : list io) : list (string * Z) :=
  omap (fun e => match e with Open f fd => Some (f, fd) | _ => None end) tr.
Definition writes (tr : list io) : list (Z * string) :=
  omap (fun e => match e with Write fd t => Some (fd, t) | _ => None end) tr.

(** The descriptor the thread [tid] logs to. *)
Definition fd_of (s : state) (tid : Z) : Z :=
  default (-1) (xtrace_per_thread_logfile s !! tid).

(** The threads of [tids] in the order of their first appearance, without
    those in [seen]. *)
Fixpoint first_uses (seen : gset Z) (tids : list Z) : list Z :=
  match tids with
  | [] => []
  | t :: ts =>
      if bool_decide (t ∈ seen) then first_uses seen ts
      else t :: first_uses ({[t]} ∪ seen) ts
  end.

(** What the sinks are asked, with one log file per thread and every
    [open] granted, for the messages [ms] of threads of which those in
    [seen] have their file already, when [fd] gives the descriptor of each
    thread: the first message of a thread opens the file of the thread,
    which returns the descriptor of the thread, and is written to it; every
    later message is written to it and nothing else. No descriptor is
    closed. *)
Fixpoint per_thread_trace (fd : Z -> Z) (seen : gset Z) (ms : list message)
  : list io :=
  match ms with
  | [] => []
  | m :: ms' =>
      if bool_decide (m.1.1 ∈ seen) then
        Write (fd m.1.1) (written m) :: per_thread_trace fd seen ms'
      else
        Open (per_thread_filename m.1.1) (fd m.1.1)
        :: Write (fd m.1.1) (written m)
        :: per_thread_trace fd ({[m.1.1]} ∪ seen) ms'
  end.

(** The descriptors in use are valid: those of the threads, and the common
    one once it was opened. *)
Definition valid (s : state) : Prop :=
  (forall tid fd, xtrace_per_thread_logfile s !! tid = Some fd -> 0 <= fd)
  /\ (xtrace_common_logfile_once s = true -> 0 <= xtrace_common_logfile s).

(** How logging the messages [ms] from the state [s] ended: every message
    was written, in order, to the descriptor of its thread; or the process
    was aborted behind an [open] that failed, after the first [k] messages
    were written in this way. *)
Definition logged (s : state) (ms : list message) (out : outcome unit)
  : Prop :=
  match out with
  | Returned _ s' =>
      xtrace_per_thread_logfile s ⊆ xtrace_per_thread_logfile s'
      /\ exists ev,
           ios s' = ios s ++ ev
           /\ writes ev = map (fun m => (fd_of s' m.1.1, written m)) ms
           /\ Forall (fun w => 0 <= w.1) (writes ev)
  | Aborted message s' =>
      message = "xtrace: failed to open logfile"%string
      /\ xtrace_per_thread_logfile s ⊆ xtrace_per_thread_logfile s'
      /\ exists k ev name fd,
           (k < length ms)%nat
           /\ ios s' = ios s ++ ev ++ [Open name fd]
           /\ fd < 0
           /\ writes ev
              = map (fun m => (fd_of s' m.1.1, written m)) (take k ms)
           /\ Forall (fun w => 0 <= w.1) (writes ev)
  end.

End Sinks.

Arguments Open {Args} filename fd.
Arguments Close {Args} fd.
Arguments Write {Args} fd text.
Arguments Kprintf {Args} format args.
Arguments Printf {Args} format args.
Arguments Returned {Args A} a s.
Arguments Aborted {Args A} message s.

(** A configuration with a log file, and a kernel that hands out
    descriptors from 3 on. *)
Definition sample_settings (per_thread : bool) : settings :=
  {| xtrace_kprintf := false; xtrace_use_logfile := true;
     xtrace_use_per_thread_logfile := per_thread;
     xtrace_logfile_base := "/tmp/x" |}.

Definition sample_open (tr : list (io unit)) (name : string) : Z :=
  3 + Z.of_nat (length tr).

End Logfile.


(* ===================================================================== *)
(** ** xtrace: the environment strings in one address space *)
(* ===================================================================== *)

Module EnvpFlat.

Import Envp.
Local Open Scope nat_scope.

(** A cell of a [const char**] array; a pointer is an address. *)
Inductive slot :=
| Null
| Ptr (a : nat)
| Wild.

(** The strings as they lie in memory: the byte at every address that is
    part of a string or of an allocation of bytes; the arrays of pointers,
    which stay objects of their own here; and the addresses [xtrace_malloc]
    hands out for the coming allocations of bytes. A store goes to its
    address, whatever lies there. *)
Record state := {
  bytes : gmap nat cell;
  arrays : gmap nat (list slot);
  answers : list nat
}.

(** The bytes from [a] on, to the first address that holds none. *)
Fixpoint read_from (m : gmap nat cell) (a fuel : nat) : list cell :=
  match fuel with
  | O => []
  | S fuel' =>
      match m !! a with
      | Some c => c :: read_from m (S a) fuel'
      | None => []
      end
  end.

(** What a [const char*] with the value [a] points to. *)
Definition string_at (s : state) (a : nat) : list cell :=
  read_from (bytes s) a (size (bytes s)).

(** [*(char* )a = x] *)
Definition store (a : nat) (x : cell) (s : state) : state :=
  {| bytes := <[a := x]> (bytes s); arrays := arrays s;
     answers := answers s |}.

(** [n] indeterminate bytes from [a] on. *)
Fixpoint indeterminate (a n : nat) (m : gmap nat cell) : gmap nat cell :=
  match n with
  | O => m
  | S n' => indeterminate (S a) n' (<[a := Undef]> m)
  end.

(** [xtrace_malloc(n)] for bytes: the allocator's next answer. *)
Definition xtrace_malloc (n : nat) (s : state) : option (nat * state) :=
  match answers s with
  | a :: rest =>
      Some (a, {| bytes := indeterminate a n (bytes s); arrays := arrays s;
                  answers := rest |})
  | [] => None
  end.

(** [memcpy(dst, src, n)] *)
Fixpoint memcpy (dst : nat) (src : list cell) (n : nat) (s : state)
    {struct n} : option state :=
  match n with
  | O => Some s
  | S n' =>
      match src with
      | [] => None
      | x :: src' => memcpy (S dst) src' n' (store dst x s)
      end
  end.

(** [static const char* envp_make_entry(const char* key, const char* value)] *)
Definition envp_make_entry (key value : list cell) (s : state)
  : option (nat * state) :=
  key_length ← strlen key;
  value_length ← strlen value;
  '(entry, s) ← xtrace_malloc (key_length + value_length + 2) s;
  s ← memcpy entry key key_length s;
  let s := store (entry + key_length) (Init "="%char) s in
  s ← memcpy (entry + key_length + 1) value value_length s;
  let s := store (entry + key_length + value_length + 2) (Init NUL) s in
  Some (entry, s).

(** [xtrace_malloc] for an array of [n] pointers, all indeterminate. *)
Definition xtrace_malloc_ptrs (n : nat) (s : state) : nat * state :=
  let a := fresh (dom (arrays s)) in
  (a, {| bytes := bytes s; arrays := <[a := replicate n Wild]> (arrays s);
         answers := answers s |}).

(** [xtrace_free(envp)] *)
Definition xtrace_free (a : nat) (s : state) : state :=
  {| bytes := bytes s; arrays := delete a (arrays s);
     answers := answers s |}.

(** [envp[i] = p] *)
Definition slot_store (a i : nat) (p : slot) (s : state) : option state :=
  arr ← arrays s !! a;
  if i <? length arr then
    Some {| bytes := bytes s; arrays := <[a := <[i := p]> arr]> (arrays s);
            answers := answers s |}
  else None.

(** [memcpy] of the first [n] pointers of [src] to [dst]. *)
Definition memcpy_ptrs (dst src n : nat) (s : state) : option state :=
  d ← arrays s !! dst;
  r ← arrays s !! src;
  if (n <=? length d) && (n <=? length r) then
    Some {| bytes := bytes s;
            arrays := <[dst := take n r ++ drop n d]> (arrays s);
            answers := answers s |}
  else None.

(** [static size_t envp_count(const char** envp)], from [ptr]. *)
Fixpoint envp_count_from (ptr : list slot) : option nat :=
  match ptr with
  | Null :: _ => Some 0
  | Ptr _ :: ptr' => S <$> envp_count_from ptr'
  | _ => None
  end.

Definition envp_count (s : state) (envp : nat) : option nat :=
  arr ← arrays s !! envp; envp_count_from arr.

(** The loop of [envp_find] from [ptr], which is slot [i] of the array. *)
Fixpoint envp_find_from (s : state) (ptr : list slot) (i : nat)
    (key : list cell) (key_length : nat) : option (option nat) :=
  match ptr with
  | Null :: _ => Some None
  | Ptr entry_key :: ptr' =>
      entry_key_end ← strchr (string_at s entry_key) "="%char;
      match entry_key_end with
      | None => envp_find_from s ptr' (S i) key key_length
      | Some entry_key_length =>
          if negb (entry_key_length =? key_length) then
            envp_find_from s ptr' (S i) key key_length
          else
            c ← strncmp key (string_at s entry_key) key_length;
            if negb (c =? 0)%Z then
              envp_find_from s ptr' (S i) key key_length
            else Some (Some i)
      end
  | _ => None
  end.

(** [static const char** envp_find(const char** envp, const char* key)] *)
Definition envp_find (s : state) (envp : nat) (key : list cell)
  : option (option nat) :=
  key_length ← strlen key;
  arr ← arrays s !! envp;
  envp_find_from s arr 0 key key_length.

(** [static void envp_set(const char*** envp_ptr, key, value, bool*
    allocated)] *)
Definition envp_set (envp : option nat) (key value : list cell)
    (allocated : bool) (s : state) : option (option nat * bool * state) :=
  match envp with
  | None =>
      let '(envp, s) := xtrace_malloc_ptrs 2 s in
      '(e, s) ← envp_make_entry key value s;
      s ← slot_store envp 0 (Ptr e) s;
      s ← slot_store envp 1 Null s;
      Some (Some envp, true, s)
  | Some envp =>
      entry_ptr ← envp_find s envp key;
      match entry_ptr with
      | Some i =>
          '(e, s) ← envp_make_entry key value s;
          s ← slot_store envp i (Ptr e) s;
          Some (Some envp, allocated, s)
      | None =>
          count ← envp_count s envp;
          let '(new_envp, s) := xtrace_malloc_ptrs (count + 2) s in
          s ← memcpy_ptrs new_envp envp count s;
          let s := if allocated then xtrace_free envp s else s in
          '(e, s) ← envp_make_entry key value s;
          s ← slot_store new_envp count (Ptr e) s;
          s ← slot_store new_envp (count + 1) Null s;
          Some (Some new_envp, true, s)
      end
  end.

(** [static const char* envp_get(const char** envp, const char* key)]: the
    address returned, or [Some None] for [NULL]. *)
Definition envp_get (s : state) (envp : nat) (key : list cell)
  : option (option nat) :=
  entry ← envp_find s envp key;
  match entry with
  | None => Some None
  | Some i =>
      arr ← arrays s !! envp;
      p ← arr !! i;
      match p with
      | Ptr e =>
          eq ← strchr (string_at s e) "="%char;
          match eq with
          | Some j => Some (Some (e + j + 1))
          | None => None
          end
      | _ => None
      end
  end.



End EnvpFlat.

(* ===================================================================== *)
(** * Properties of the errno translation *)
(* ===================================================================== *)

Section ErrnoProperties.

Import Errno.

Variable size_t_bits : Z.
Hypothesis size_t_wide : 32 <= size_t_bits.

Lemma size_t_range : 2 ^ 32 <= 2 ^ size_t_bits.
Proof using size_t_wide. apply Z.pow_le_mono_r; lia. Qed.

(** The conversion leaves a non-negative [int] alone and sends a negative
    one above every [int]. *)
Lemma to_size_t_nonneg (err : Z) :
  0 <= err <= INT_MAX -> to_size_t size_t_bits err = err.
Proof using size_t_wide.
  unfold to_size_t, INT_MAX. intros H. pose proof size_t_range.
  apply Z.mod_small. lia.
Qed.

Lemma to_size_t_neg (err : Z) :
  INT_MIN <= err < 0 ->
  to_size_t size_t_bits err = err + 2 ^ size_t_bits.
Proof using size_t_wide.
  unfold to_size_t, INT_MIN. intros H. pose proof size_t_range.
  symmetry. apply Z.mod_unique with (q := -1); lia.
Qed.

Lemma guard_spec (err : Z) :
  INT_MIN <= err <= INT_MAX ->
  guard size_t_bits err = true <-> 0 <= err < 139.
Proof using size_t_wide.
  intros H. unfold guard, table_len. rewrite Z.ltb_lt.
  destruct (Z_lt_le_dec err 0) as [Hneg|Hpos].
  - rewrite to_size_t_neg by lia. pose proof size_t_range.
    unfold INT_MIN in H. lia.
  - rewrite to_size_t_nonneg by lia. lia.
Qed.

Lemma array_get_in_range (a : list Z) (i : Z) :
  0 <= i < Z.of_nat (length a) -> is_Some (array_get a i).
Proof.
  intros H. unfold array_get.
  destruct (Z.leb_spec 0 i); [|lia].
  apply lookup_lt_is_Some. lia.
Qed.

(** The sibling branch: a code inside the table that has no mapping keeps
    its value, as the comment in [errnoDoMap] says. *)
Lemma errnoDoMap_unmapped (err : Z) (map : list Z) :
  INT_MIN <= err <= INT_MAX ->
  0 <= err < 139 ->
  array_get map err = Some 0 ->
  errnoDoMap size_t_bits err map = Some err.
Proof using size_t_wide.
  intros Hint Hr Hget. unfold errnoDoMap.
  destruct (guard_spec err Hint) as [_ Hg]. rewrite (Hg Hr).
  rewrite Hget. reflexivity.
Qed.

Variables darwin_to_linux linux_to_darwin : list Z.

(** C1, on the code: an error code that the guard of [errnoDoMap] rejects
    (139 and above) is not passed through; both translations return 0 for
    it, whatever the tables hold. *)
Theorem errno_out_of_range_zeroed (err : Z) :
  139 <= err <= INT_MAX ->
  errnoDarwinToLinux size_t_bits darwin_to_linux err = Some 0
  /\ errnoLinuxToDarwin size_t_bits linux_to_darwin err = Some 0.
Proof using size_t_wide.
  intros H.
  assert (Hg : guard size_t_bits err = false).
  { destruct (guard size_t_bits err) eqn:E; [|reflexivity].
    apply guard_spec in E; unfold INT_MIN; lia. }
  unfold errnoDarwinToLinux, errnoLinuxToDarwin, errnoDoMap.
  rewrite Hg. split; reflexivity.
Qed.

(** C10, as the code has it: the guard compares [err] converted to the
    unsigned [size_t], so it bounds [err] on both sides. The mapping branch
    is taken exactly when [0 <= err < 139]; the access [map[err]] is then
    inside a 140-entry table with no further precondition, so the call
    always returns; and a negative [err] does not take the mapping
    branch. *)
Theorem errno_guard_two_sided (err : Z) (map : list Z) :
  INT_MIN <= err <= INT_MAX ->
  length map = 140%nat ->
  (guard size_t_bits err = true <-> 0 <= err < 139)
  /\ (guard size_t_bits err = true -> is_Some (array_get map err))
  /\ is_Some (errnoDoMap size_t_bits err map)
  /\ (err < 0 -> guard size_t_bits err = false).
Proof using size_t_wide.
  intros Hint Hlen. pose proof (guard_spec err Hint) as Hg.
  split; [exact Hg|].
  assert (Hget : guard size_t_bits err = true -> is_Some (array_get map err)).
  { intros E. apply array_get_in_range. rewrite Hlen. apply Hg in E. lia. }
  split; [exact Hget|]. unfold errnoDoMap.
  destruct (guard size_t_bits err) eqn:E.
  - destruct (Hget eq_refl) as [e He]. rewrite He.
    split; [eexists; reflexivity|]. intros Hneg.
    assert (0 <= err < 139) by (apply Hg; reflexivity). lia.
  - split; [eexists; reflexivity | reflexivity].
Qed.

End ErrnoProperties.

Lemma errno_out_of_range_zeroed_witness :
  139 <= 200 <= Errno.INT_MAX
  /\ Errno.errnoDarwinToLinux 64 (replicate 140%nat 0) 200 = Some 0
  /\ Errno.errnoLinuxToDarwin 64 (replicate 140%nat 0) 200 = Some 0.
Proof.
  split; [unfold Errno.INT_MAX; lia|].
  apply (errno_out_of_range_zeroed 64); [lia | unfold Errno.INT_MAX; lia].
Defined.

(** The claim C10 at [err = -1]: the guard is false there, the mapping
    branch is not taken. *)
Lemma errno_guard_rejects_negative :
  Errno.guard 64 (-1) = false
  /\ ~ (forall err, Errno.INT_MIN <= err < 0 -> Errno.guard 64 err = true).
Proof.
  split; [reflexivity|].
  intros H. specialize (H (-1)).
  assert (Hr : Errno.INT_MIN <= -1 < 0) by (unfold Errno.INT_MIN; lia).
  apply H in Hr. discriminate Hr.
Qed.

Lemma errno_guard_two_sided_witness :
  (Errno.guard 64 (-5) = true <-> 0 <= -5 < 139)
  /\ (Errno.guard 64 (-5) = true ->
      is_Some (Errno.array_get (replicate 140%nat 0) (-5)))
  /\ is_Some (Errno.errnoDoMap 64 (-5) (replicate 140%nat 0))
  /\ (-5 < 0 -> Errno.guard 64 (-5) = false).
Proof.
  apply (errno_guard_two_sided 64);
    [lia | unfold Errno.INT_MIN, Errno.INT_MAX; lia | reflexivity].
Defined.

(* ===================================================================== *)
(** * Properties of the hook installer *)
(* ===================================================================== *)

Section HookProperties.

Import Hook.

Lemma page_mask_eq : page_mask = 2 ^ 64 - 4096.
Proof. reflexivity. Qed.

(** [a & ~(4096-1)] is [a] rounded down to a page boundary. *)
Lemma page_floor_spec (a : Z) :
  0 <= a < 2 ^ 64 -> page_floor a = 4096 * (a / 4096).
Proof.
  intros Ha. unfold page_floor, page_mask, wrap.
  rewrite <- (Z.land_ones (Z.lnot (4096 - 1)) 64) by lia.
  rewrite (Z.land_comm (Z.lnot _)), Z.land_assoc.
  rewrite (Z.land_ones a 64) by lia.
  rewrite (Z.mod_small a) by lia.
  rewrite <- Z.ldiff_land.
  change (4096 - 1) with (Z.ones 12).
  rewrite Z.ldiff_ones_r by lia.
  rewrite Z.shiftl_mul_pow2, Z.shiftr_div_pow2 by lia.
  change (2 ^ 12) with 4096. lia.
Qed.

Lemma page_floor_bounds (a : Z) :
  0 <= a < 2 ^ 64 ->
  page_floor a <= a < page_floor a + 4096 /\ page_floor a mod 4096 = 0.
Proof.
  intros Ha. rewrite page_floor_spec by exact Ha.
  pose proof (Z.mod_pos_bound a 4096 ltac:(lia)).
  pose proof (Z.div_mod a 4096 ltac:(lia)).
  split; [lia|].
  rewrite Z.mul_comm. apply Z.mod_mul. lia.
Qed.

(** Rounding up agrees with rounding down plus a page, except on a page
    boundary, where rounding up changes nothing. *)
Lemma page_ceil_spec (a : Z) :
  page_ceil a =
  if a mod 4096 =? 0 then 4096 * (a / 4096) else 4096 * (a / 4096) + 4096.
Proof.
  unfold page_ceil.
  pose proof (Z.div_mod a 4096 ltac:(lia)) as Hdm.
  pose proof (Z.mod_pos_bound a 4096 ltac:(lia)) as Hr.
  destruct (Z.eqb_spec (a mod 4096) 0) as [E|E].
  - f_equal. symmetry. apply Z.div_unique with (r := 4095); lia.
  - replace (4096 * (a / 4096) + 4096) with (4096 * (a / 4096 + 1)) by lia.
    f_equal. symmetry.
    apply Z.div_unique with (r := a mod 4096 - 1); lia.
Qed.

(** [hook_area] without wrap-around: for hooks in order, away from the top
    of the address space, neither the end of the last hook nor the byte count
    overflows. *)
Lemma hook_area_eq (first last : Z) :
  0 <= first ->
  first <= last ->
  last + hook_size + 4096 < 2 ^ 64 ->
  hook_area first last
  = (page_floor first,
     4096 + (page_floor (last + hook_size) - page_floor first)).
Proof.
  intros H0 Hle Htop. unfold hook_area, hook_size in *.
  assert (Hw : wrap (last + 13) = last + 13)
    by (unfold wrap; apply Z.mod_small; lia).
  rewrite Hw. f_equal.
  pose proof (page_floor_bounds first ltac:(lia)) as [Hf _].
  pose proof (page_floor_bounds (last + 13) ltac:(lia)) as [Hl _].
  assert (0 <= page_floor first <= page_floor (last + 13)).
  { rewrite !page_floor_spec by lia.
    pose proof (Z.div_pos first 4096 ltac:(lia) ltac:(lia)).
    pose proof (Z.div_le_mono first (last + 13) 4096 ltac:(lia) ltac:(lia)).
    lia. }
  unfold wrap. apply Z.mod_small. lia.
Qed.

Lemma hook_area_contains (first last a : Z) :
  0 <= first ->
  first <= last ->
  last + hook_size + 4096 < 2 ^ 64 ->
  first <= a < first + hook_size \/ last <= a < last + hook_size ->
  fst (hook_area first last) <= a
  < fst (hook_area first last) + snd (hook_area first last).
Proof.
  intros H0 Hle Htop Ha. rewrite hook_area_eq by assumption.
  cbn [fst snd]. unfold hook_size in *.
  pose proof (page_floor_bounds first ltac:(lia)) as [Hf _].
  pose proof (page_floor_bounds (last + 13) ltac:(lia)) as [Hl _].
  lia.
Qed.

(** C8, as the code has it: when the first hook does not lie above the last
    one and the last hook ends a page short of the top of the address space,
    the range [area, area + bytes) given to [mprotect] starts at the first
    hook's address rounded down to a page boundary, ends at the page boundary
    one page above the rounded-down end of the last hook (the end rounded up,
    and one page more when the last hook ends exactly on a page boundary),
    and contains every byte of both hook regions. *)
Theorem hook_area_covers (first last : Z) :
  0 <= first ->
  first <= last ->
  last + hook_size + 4096 < 2 ^ 64 ->
  let '(area, bytes) := hook_area first last in
  area = 4096 * (first / 4096)
  /\ area + bytes = 4096 * ((last + hook_size) / 4096) + 4096
  /\ area + bytes =
     (if (last + hook_size) mod 4096 =? 0
      then page_ceil (last + hook_size) + 4096
      else page_ceil (last + hook_size))
  /\ last + hook_size < area + bytes
  /\ (forall a,
        first <= a < first + hook_size \/ last <= a < last + hook_size ->
        area <= a < area + bytes).
Proof.
  intros H0 Hle Htop. rewrite hook_area_eq by assumption.
  unfold hook_size in *.
  pose proof (page_floor_bounds first ltac:(lia)) as [Hf _].
  pose proof (page_floor_bounds (last + 13) ltac:(lia)) as [Hl _].
  split; [apply page_floor_spec; lia|].
  split; [rewrite <- page_floor_spec by lia; lia|].
  split; [|split; [lia | intros a Ha; lia]].
  rewrite page_ceil_spec, <- page_floor_spec by lia.
  destruct (_ =? 0); lia.
Qed.

End HookProperties.

Lemma hook_area_covers_witness :
  let '(area, bytes) := Hook.hook_area 0x1ffa 0x2ffe in
  area = 4096 * (0x1ffa / 4096)
  /\ area + bytes = 4096 * ((0x2ffe + Hook.hook_size) / 4096) + 4096
  /\ area + bytes =
     (if (0x2ffe + Hook.hook_size) mod 4096 =? 0
      then Hook.page_ceil (0x2ffe + Hook.hook_size) + 4096
      else Hook.page_ceil (0x2ffe + Hook.hook_size))
  /\ 0x2ffe + Hook.hook_size < area + bytes
  /\ (forall a,
        0x1ffa <= a < 0x1ffa + Hook.hook_size
        \/ 0x2ffe <= a < 0x2ffe + Hook.hook_size ->
        area <= a < area + bytes).
Proof.
  apply (hook_area_covers 0x1ffa 0x2ffe); unfold Hook.hook_size; lia.
Defined.

(** The claim C8 at two inputs. With the exit hook one page below the entry
    hook the range is empty and misses the entry region; with the last hook
    ending exactly on a page boundary the range ends one page beyond the
    rounded-up end. *)
Lemma hook_area_not_always_union :
  (Hook.hook_area 0x2000 0x1000 = (0x2000, 0)
   /\ ~ (let '(area, bytes) := Hook.hook_area 0x2000 0x1000 in
         area <= 0x2000 < area + bytes))
  /\ (let '(area, bytes) := Hook.hook_area 0x1000 0x1ff3 in
      Hook.page_ceil (0x1ff3 + Hook.hook_size) = 0x2000
      /\ area + bytes = 0x3000).
Proof.
  split; [split; [reflexivity|]|].
  - vm_compute. intros [_ H]. discriminate H.
  - vm_compute. split; reflexivity.
Qed.

Section HookEffects.

Import Hook.

Lemma no_abort_ret {A} (a : A) : no_abort (mret a).
Proof. intros w msg. discriminate. Qed.

Lemma no_abort_bind {A B} (m : M A) (f : A -> M B) :
  no_abort m -> (forall a, no_abort (f a)) -> no_abort (m ≫= f).
Proof.
  intros Hm Hf w msg. unfold mbind, M_bind.
  destruct (m w) as [a w'| msg' |addr] eqn:E.
  - apply Hf.
  - exfalso. exact (Hm w msg' E).
  - discriminate.
Qed.

Lemma no_abort_mprotect (addr len : Z) (p : prot) :
  no_abort (mprotect addr len p).
Proof.
  intros w msg. unfold mprotect.
  destruct (mprotect_fails w) as [|[] ?]; discriminate.
Qed.

Lemma no_abort_store8 (addr b : Z) : no_abort (store8 addr b).
Proof.
  intros w msg. unfold store8.
  destruct (prot_write _); discriminate.
Qed.

Lemma no_abort_store64 (addr v : Z) : no_abort (store64 addr v).
Proof.
  unfold store64.
  repeat (apply no_abort_bind; [apply no_abort_store8 | intros _]).
  apply no_abort_store8.
Qed.

Lemma no_abort_setup_hook (hook fnptr : Z) (jump : bool) :
  no_abort (setup_hook hook fnptr jump).
Proof.
  unfold setup_hook.
  do 5 (apply no_abort_bind; [apply no_abort_store8 | intros _]).
  apply no_abort_store64.
Qed.

Ltac no_abort_chain :=
  repeat first
    [ apply no_abort_ret
    | apply no_abort_mprotect
    | apply no_abort_setup_hook
    | apply no_abort_bind; [|intros ?] ].

Lemma no_abort_setup_mach (entry exit entry_trampoline exit_trampoline : Z) :
  no_abort (xtrace_setup_mach entry exit entry_trampoline exit_trampoline).
Proof.
  unfold xtrace_setup_mach.
  destruct (hook_area entry exit) as [area bytes]. no_abort_chain.
Qed.

Lemma no_abort_setup_bsd (entry exit entry_trampoline exit_trampoline : Z) :
  no_abort (xtrace_setup_bsd entry exit entry_trampoline exit_trampoline).
Proof.
  unfold xtrace_setup_bsd.
  destruct (hook_area entry exit) as [area bytes]. no_abort_chain.
Qed.

Lemma no_abort_setup_hook_with_perms (hook fnptr : Z) (jump : bool) :
  no_abort (setup_hook_with_perms hook fnptr jump).
Proof.
  unfold setup_hook_with_perms.
  destruct (hook_area hook hook) as [area bytes]. no_abort_chain.
Qed.

Lemma hook_bind_eq {A B} (m : M A) (f : A -> M B) (w : world) :
  (m ≫= f) w =
  match m w with
  | Done a w' => f a w'
  | Abort msg => Abort msg
  | Segv addr => Segv addr
  end.
Proof. reflexivity. Qed.

Lemma store8_ok (w : world) (addr b : Z) :
  prot_write (perms w (addr / 4096)) = true ->
  store8 addr b w = Done tt (with_byte w addr b).
Proof. intros H. unfold store8. now rewrite H. Qed.

(** On writable pages the patcher runs to its end and touches neither the
    protections nor the kernel's answers. *)
Lemma setup_hook_ok (hook fnptr : Z) (jump : bool) (w : world) :
  writable_on w hook (hook + hook_size) ->
  exists w',
    setup_hook hook fnptr jump w = Done tt w'
    /\ perms w' = perms w
    /\ mprotect_fails w' = mprotect_fails w
    /\ mem w' hook = 0x49.
Proof.
  intros Hw. unfold setup_hook, store64, hook_size in *.
  repeat (rewrite hook_bind_eq;
          rewrite store8_ok
            by (cbn [perms with_byte]; apply Hw; lia)).
  rewrite store8_ok by (cbn [perms with_byte]; apply Hw; lia).
  eexists. split; [reflexivity|]. split; [reflexivity|].
  split; [reflexivity|].
  cbn [mem with_byte].
  repeat match goal with
         | |- context [?a =? ?b] =>
             destruct (Z.eqb_spec a b);
               [try (exfalso; lia) | try (exfalso; lia)]
         end.
  reflexivity.
Qed.

Lemma mprotect_granted (addr len : Z) (p : prot) (w : world)
    (rest : list bool) :
  mprotect_fails w = [] \/ mprotect_fails w = false :: rest ->
  exists w',
    mprotect addr len p w = Done 0 w'
    /\ mprotect_fails w' = tail (mprotect_fails w)
    /\ (forall a, addr <= a < addr + len -> perms w' (a / 4096) = p).
Proof.
  intros Hf. exists (answered w true addr len p). split.
  { unfold mprotect. destruct Hf as [-> | ->]; reflexivity. }
  split; [reflexivity|].
  intros a Ha. cbn [perms answered andb].
  pose proof (Z.div_le_mono addr a 4096 ltac:(lia) ltac:(lia)).
  pose proof (Z.mul_div_le a 4096 ltac:(lia)).
  destruct (Z.leb_spec (addr / 4096) (a / 4096)); [|lia].
  destruct (Z.ltb_spec (a / 4096 * 4096) (addr + len)); [reflexivity | lia].
Qed.

Lemma mprotect_refused (addr len : Z) (p : prot) (w : world)
    (rest : list bool) :
  mprotect_fails w = true :: rest ->
  exists w',
    mprotect addr len p w = Done (-1) w'
    /\ mprotect_fails w' = rest
    /\ perms w' = perms w.
Proof.
  intros Hf. exists (answered w false addr len p). split.
  { unfold mprotect. rewrite Hf. reflexivity. }
  split; [cbn [mprotect_fails answered]; now rewrite Hf | reflexivity].
Qed.

(** With the hooks in order and the kernel granting the first protection
    change, [xtrace_setup_mach] patches both hooks without a fault, however
    the pages were protected before. Every byte of the two hook regions ends
    on a read+execute page when the second change is granted too, and on a
    page that is still writable when it is refused. *)
Lemma xtrace_setup_mach_ok
    (entry exit entry_trampoline exit_trampoline : Z) (w : world)
    (refused : bool) :
  0 <= entry -> entry <= exit -> exit + hook_size + 4096 < 2 ^ 64 ->
  mprotect_fails w = [false; refused] ->
  exists w',
    xtrace_setup_mach entry exit entry_trampoline exit_trampoline w
      = Done tt w'
    /\ (forall a,
          entry <= a < entry + hook_size \/ exit <= a < exit + hook_size ->
          perms w' (a / 4096) = if refused then PROT_RWX else PROT_RX).
Proof.
  intros H0 Hle Htop Hf.
  assert (Hcov : forall a,
            entry <= a < entry + hook_size \/ exit <= a < exit + hook_size ->
            fst (hook_area entry exit) <= a
            < fst (hook_area entry exit) + snd (hook_area entry exit))
    by (intros a Ha; now apply hook_area_contains).
  unfold xtrace_setup_mach.
  destruct (hook_area entry exit) as [area bytes]. cbn [fst snd] in Hcov.
  destruct (mprotect_granted area bytes PROT_RWX w [refused])
    as (w1 & Hm1 & Hf1 & Hp1); [now right|].
  rewrite Hf in Hf1. cbn [tail] in Hf1.
  rewrite hook_bind_eq, Hm1.
  destruct (setup_hook_ok entry entry_trampoline false w1)
    as (w2 & Hs2 & Hp2 & Hf2 & _).
  { intros a Ha. rewrite Hp1; [reflexivity | apply Hcov; lia]. }
  rewrite hook_bind_eq, Hs2.
  destruct (setup_hook_ok exit exit_trampoline false w2)
    as (w3 & Hs3 & Hp3 & Hf3 & _).
  { intros a Ha. rewrite Hp2, Hp1; [reflexivity | apply Hcov; lia]. }
  rewrite hook_bind_eq, Hs3.
  assert (Hf3' : mprotect_fails w3 = [refused]) by congruence.
  destruct refused.
  - destruct (mprotect_refused area bytes PROT_RX w3 [] Hf3')
      as (w4 & Hm4 & _ & Hp4).
    rewrite hook_bind_eq, Hm4. exists w4. split; [reflexivity|].
    intros a Ha. rewrite Hp4, Hp3, Hp2. apply Hp1, Hcov, Ha.
  - destruct (mprotect_granted area bytes PROT_RX w3 [])
      as (w4 & Hm4 & _ & Hp4); [now right|].
    rewrite hook_bind_eq, Hm4. exists w4. split; [reflexivity|].
    intros a Ha. apply Hp4, Hcov, Ha.
Qed.

End HookEffects.

(** When the kernel refuses the memory for the signal stack, start-up does
    end in [xtrace_abort]. *)
Lemma xtrace_setup_aborts_without_stack :
  Hook.xtrace_setup 0x1000 0x1100 0x3000 0x3100 0x7000 0x7100 0x7200 0x7300
    0x5000 0x5100 0x5200 0x7400 0x7500 0x7600
    (Hook.text_world [] Hook.MAP_FAILED 0)
  = Hook.Abort "xtrace: failed to allocate larger sigstack for main thread".
Proof. vm_compute. reflexivity. Qed.

(** The claim C2 on a read+execute text segment with the Mach hooks at
    [0x1000] and [0x1100]. When the [mprotect] that should restore their
    page fails, [xtrace_setup_mach] returns with both hooks patched and the
    page still writable, and the whole of [xtrace_setup] runs to its end and
    enables tracing with that page writable. When the first [mprotect] fails,
    [xtrace_setup_mach] runs into its first patching store. Neither run calls
    [xtrace_abort]. *)
Lemma failed_mprotect_not_fatal :
  match Hook.xtrace_setup_mach 0x1000 0x1100 0x7000 0x7100
          (Hook.text_world [false; true] 0x100000 0) with
  | Hook.Done _ w' =>
      Hook.prot_write (Hook.perms w' 1) = true
      /\ Hook.mem w' 0x1000 = 0x49 /\ Hook.mem w' 0x1100 = 0x49
  | _ => False
  end
  /\ match Hook.xtrace_setup 0x1000 0x1100 0x3000 0x3100
             0x7000 0x7100 0x7200 0x7300
             0x5000 0x5100 0x5200 0x7400 0x7500 0x7600
             (Hook.text_world [false; true] 0x100000 0) with
     | Hook.Done _ w' =>
         Hook.xtrace_ignore w' = false
         /\ Hook.prot_write (Hook.perms w' 1) = true
     | _ => False
     end
  /\ Hook.xtrace_setup_mach 0x1000 0x1100 0x7000 0x7100
       (Hook.text_world [true] 0x100000 0) = Hook.Segv 0x1000.
Proof.
  vm_compute. repeat split.
Qed.

(* ===================================================================== *)
(** * Properties of the nested-call tracker *)
(* ===================================================================== *)

Section TrackerProperties.

Import Tracker.

Lemma string_app_assoc (a b c : string) :
  ((a ++ b) ++ c = a ++ (b ++ c))%string.
Proof.
  induction a as [|x a IH]; [reflexivity|].
  change (String x ((a ++ b) ++ c) = String x (a ++ (b ++ c)))%string.
  f_equal; exact IH.
Qed.

Lemma string_app_nil_r (a : string) : (a ++ "" = a)%string.
Proof.
  induction a as [|x a IH]; [reflexivity|].
  change (String x (a ++ "") = String x a)%string.
  f_equal; exact IH.
Qed.

Lemma log_app_app (t : thread) (a b : string) :
  log_app (log_app t a) b = log_app t (a ++ b)%string.
Proof.
  unfold log_app; cbn [current_level previous_level nrs log emitted].
  f_equal. apply string_app_assoc.
Qed.

Lemma log_app_nil (t : thread) : log_app t "" = t.
Proof.
  destruct t. unfold log_app; cbn [current_level previous_level nrs log emitted].
  f_equal. apply string_app_nil_r.
Qed.

Lemma bind_eq {A B} (m : M A) (f : A -> M B) (t : thread) :
  (m ≫= f) t =
  match m t with Ok a t' => f a t' | OutOfBounds t' => OutOfBounds t' end.
Proof. reflexivity. Qed.

Lemma appends_ret : appends (mret tt) "".
Proof. intros t. now rewrite log_app_nil. Qed.

Lemma appends_append (s : string) : appends (append s) s.
Proof. intros t. reflexivity. Qed.

Lemma appends_bind (m k : M unit) (a b : string) :
  appends m a -> appends k b -> appends (m;; k) (a ++ b)%string.
Proof.
  intros Hm Hk t. rewrite bind_eq, Hm, Hk. now rewrite log_app_app.
Qed.

Variable g : globals.
Variable sys_thread_selfid : Z.
Variable defs : Z -> calldef.
Variable type : string.

Lemma appends_gray : appends (xtrace_set_gray_color g) (gray_text g).
Proof.
  unfold xtrace_set_gray_color, gray_text.
  destruct (xtrace_no_color g); [apply appends_ret | apply appends_append].
Qed.

Lemma appends_reset : appends (xtrace_reset_color g) (reset_text g).
Proof.
  unfold xtrace_reset_color, reset_text.
  destruct (xtrace_no_color g); [apply appends_ret | apply appends_append].
Qed.

Lemma appends_start_line (indent : Z) :
  appends (xtrace_start_line g sys_thread_selfid indent)
          (start_line_text g sys_thread_selfid indent).
Proof.
  unfold xtrace_start_line, start_line_text.
  apply appends_bind; [apply appends_gray|].
  apply appends_bind; [apply appends_append|].
  apply appends_bind; [apply appends_append | apply appends_reset].
Qed.

Lemma appends_print_call (nr indent : Z) (gray_name : bool) :
  appends (print_call g sys_thread_selfid defs type nr indent gray_name)
          (start_line_text g sys_thread_selfid indent
           ++ (if gray_name then gray_text g else "")
           ++ call_name_text defs type nr)%string.
Proof.
  unfold print_call, call_name_text.
  apply appends_bind; [apply appends_start_line|].
  apply appends_bind.
  - destruct gray_name; [apply appends_gray | apply appends_ret].
  - destruct (name (defs nr)); apply appends_append.
Qed.

Lemma appends_args (nr : Z) (args : list Z) :
  appends (match name (defs nr), print_args (defs nr) with
           | Some _, Some pa => append "(";; append (pa nr args);; append ")"
           | _, _ => append "(...)"
           end)
          (args_text defs nr args).
Proof.
  unfold args_text.
  destruct (name (defs nr)), (print_args (defs nr));
    try apply appends_append.
  apply appends_bind; [apply appends_append|].
  apply appends_bind; apply appends_append.
Qed.

Lemma appends_retval (nr retval : Z) :
  appends (match name (defs nr), print_retval (defs nr) with
           | Some _, Some pr => append (pr nr retval)
           | _, _ => append ("0x" ++ fmt_lx retval)%string
           end)
          (retval_text defs nr retval).
Proof.
  unfold retval_text.
  destruct (name (defs nr)), (print_retval (defs nr)); apply appends_append.
Qed.

Hypothesis tracing : xtrace_ignore g = false.

Lemma flush_line_eq (t : thread) : flush_line t = Ok tt (flushed t).
Proof. reflexivity. Qed.

Lemma cond_flush_eq (c : bool) (t : thread) :
  (if c then flush_line else mret tt) t = Ok tt (if c then flushed t else t).
Proof. destruct c; reflexivity. Qed.

(** [handle_generic_entry] in closed form. *)
Lemma handle_generic_entry_eq (nr : Z) (args : list Z) (t : thread) :
  handle_generic_entry g sys_thread_selfid defs type nr args t =
  let t0 :=
    if (previous_level t <? current_level t)
       && negb (xtrace_split_entry_and_exit g)
    then flushed t else t in
  if (0 <=? current_level t) && (current_level t <? 64) then
    let t1 :=
      log_app (with_slot t0 (Z.to_nat (current_level t)) nr)
        (header_text g sys_thread_selfid defs type (current_level t) nr args) in
    let t2 := if xtrace_split_entry_and_exit g then flushed t1 else t1 in
    Ok tt (with_levels t2 (current_level t + 1) (current_level t))
  else OutOfBounds t0.
Proof using tracing.
  unfold handle_generic_entry. rewrite tracing.
  rewrite bind_eq. cbn [get_ptr_nested_call].
  rewrite bind_eq, cond_flush_eq. cbv zeta.
  rewrite bind_eq. unfold nrs_store at 1.
  destruct ((0 <=? current_level t) && (current_level t <? 64)); [|reflexivity].
  rewrite bind_eq, appends_print_call.
  rewrite bind_eq, appends_args, log_app_app.
  rewrite bind_eq, cond_flush_eq.
  unfold header_text.
  change ("" ++ call_name_text defs type nr)%string
    with (call_name_text defs type nr).
  rewrite !string_app_assoc. reflexivity.
Qed.

(** [handle_generic_exit] in closed form. *)
Lemma handle_generic_exit_eq (retval : Z) (force_split : bool) (t : thread) :
  handle_generic_exit g sys_thread_selfid defs type retval force_split t =
  let force_split :=
    if previous_level t >? current_level t then true else force_split in
  let t1 := with_levels t (current_level t - 1) (current_level t) in
  if (0 <=? current_level t - 1) && (current_level t - 1 <? 64) then
    match nrs t !! Z.to_nat (current_level t - 1) with
    | Some nr =>
        let t2 :=
          if xtrace_split_entry_and_exit g || force_split then
            log_app t1
              (start_line_text g sys_thread_selfid (4 * (current_level t - 1))
               ++ gray_text g ++ call_name_text defs type nr ++ "()")%string
          else t1 in
        Ok tt (flushed (log_app t2 (result_text g defs nr retval)))
    | None => OutOfBounds t1
    end
  else OutOfBounds t1.
Proof using tracing.
  unfold handle_generic_exit. rewrite tracing.
  rewrite bind_eq. cbn [get_ptr_nested_call]. cbv zeta.
  set (fs := if previous_level t >? current_level t then true else force_split).
  rewrite bind_eq. cbn [set_levels].
  rewrite bind_eq. unfold nrs_load at 1. cbn [with_levels nrs].
  destruct ((0 <=? current_level t - 1) && (current_level t - 1 <? 64));
    [|reflexivity].
  destruct (nrs t !! Z.to_nat (current_level t - 1)) as [nr|]; [|reflexivity].
  set (t1 := with_levels t (current_level t - 1) (current_level t)).
  rewrite bind_eq.
  assert (E : (if xtrace_split_entry_and_exit g || fs
               then print_call g sys_thread_selfid defs type nr
                      (4 * (current_level t - 1)) true;; append "()"
               else mret tt) t1
              = Ok tt (if xtrace_split_entry_and_exit g || fs then
                         log_app t1
                           (start_line_text g sys_thread_selfid
                              (4 * (current_level t - 1))
                            ++ gray_text g ++ call_name_text defs type nr
                            ++ "()")%string
                       else t1)).
  { destruct (xtrace_split_entry_and_exit g || fs); [|reflexivity].
    rewrite bind_eq, appends_print_call, appends_append.
    rewrite log_app_app, !string_app_assoc. reflexivity. }
  rewrite E. clear E.
  rewrite bind_eq, appends_gray.
  rewrite bind_eq, appends_append.
  rewrite bind_eq, appends_reset.
  rewrite bind_eq, appends_retval.
  rewrite flush_line_eq, !log_app_app.
  unfold result_text. reflexivity.
Qed.

(** C4: after every [Entry] transition [previous_level] is the old
    [current_level] and lies strictly below the new one; after every [Exit]
    transition it is the old [current_level] and lies strictly above the new
    one. An [Entry] returns whenever the old level indexes [nrs], an [Exit]
    whenever the level below it does. *)
Theorem levels_after_transition
    (t : thread) (nr : Z) (args : list Z) (retval : Z) (force_split : bool) :
  (forall t',
     handle_generic_entry g sys_thread_selfid defs type nr args t = Ok tt t' ->
     previous_level t' = current_level t
     /\ previous_level t' < current_level t')
  /\ (forall t',
        handle_generic_exit g sys_thread_selfid defs type retval force_split t
          = Ok tt t' ->
        previous_level t' = current_level t
        /\ previous_level t' > current_level t')
  /\ (0 <= current_level t < 64 ->
      exists t',
        handle_generic_entry g sys_thread_selfid defs type nr args t
          = Ok tt t')
  /\ (0 < current_level t <= 64 -> length (nrs t) = 64%nat ->
      exists t',
        handle_generic_exit g sys_thread_selfid defs type retval force_split t
          = Ok tt t').
Proof using tracing.
  rewrite handle_generic_entry_eq, handle_generic_exit_eq. cbv zeta.
  split; [|split; [|split]].
  - intros t'.
    destruct ((0 <=? current_level t) && (current_level t <? 64));
      [|discriminate].
    intros [= <-]. cbn [with_levels previous_level current_level]. lia.
  - intros t'.
    destruct ((0 <=? current_level t - 1) && (current_level t - 1 <? 64)).
    + destruct (nrs t !! Z.to_nat (current_level t - 1)); [|discriminate].
      intros [= <-].
      cbn [flushed log_app previous_level current_level].
      destruct (xtrace_split_entry_and_exit g || _);
        cbn [with_levels log_app previous_level current_level]; lia.
    + discriminate.
  - intros Hr.
    replace ((0 <=? current_level t) && (current_level t <? 64)) with true
      by (symmetry; apply andb_true_intro; split;
          [apply Z.leb_le | apply Z.ltb_lt]; lia).
    eexists; reflexivity.
  - intros Hr Hlen.
    replace ((0 <=? current_level t - 1) && (current_level t - 1 <? 64))
      with true
      by (symmetry; apply andb_true_intro; split;
          [apply Z.leb_le | apply Z.ltb_lt]; lia).
    destruct (lookup_lt_is_Some_2 (nrs t) (Z.to_nat (current_level t - 1)))
      as [nr' ->]; [lia|].
    eexists; reflexivity.
Qed.

Lemma range_test (x lo hi : Z) :
  lo <= x < hi -> (lo <=? x) && (x <? hi) = true.
Proof.
  intros H. apply andb_true_intro.
  split; [apply Z.leb_le | apply Z.ltb_lt]; lia.
Qed.

Lemma entry_step (nr : Z) (args : list Z) (t : thread) :
  0 <= current_level t < 64 ->
  exists t',
    handle_generic_entry g sys_thread_selfid defs type nr args t = Ok tt t'
    /\ current_level t' = current_level t + 1
    /\ length (nrs t') = length (nrs t).
Proof using tracing.
  intros Hr. rewrite handle_generic_entry_eq. cbv zeta.
  rewrite range_test by exact Hr.
  eexists. split; [reflexivity|]. split; [reflexivity|].
  destruct (xtrace_split_entry_and_exit g);
    destruct ((previous_level t <? current_level t) && _);
    cbn [with_levels flushed log_app with_slot nrs];
    apply length_insert.
Qed.

Lemma exit_step (retval : Z) (force_split : bool) (t : thread) :
  0 < current_level t <= 64 ->
  length (nrs t) = 64%nat ->
  exists t',
    handle_generic_exit g sys_thread_selfid defs type retval force_split t
      = Ok tt t'
    /\ current_level t' = current_level t - 1
    /\ nrs t' = nrs t.
Proof using tracing.
  intros Hr Hlen. rewrite handle_generic_exit_eq. cbv zeta.
  rewrite range_test by lia.
  destruct (lookup_lt_is_Some_2 (nrs t) (Z.to_nat (current_level t - 1)))
    as [nr' ->]; [lia|].
  eexists. split; [reflexivity|].
  destruct (xtrace_split_entry_and_exit g || _); split; reflexivity.
Qed.

Lemma entries_cons (e : event) (es : list event) :
  entries (e :: es) = (if is_entry e then 1 else 0) + entries es.
Proof.
  unfold entries. rewrite filter_cons.
  destruct e; cbn [is_entry]; case_decide; try congruence;
    cbn [length]; lia.
Qed.

Lemma exits_cons (e : event) (es : list event) :
  exits (e :: es) = (if is_entry e then 0 else 1) + exits es.
Proof.
  unfold exits. rewrite filter_cons.
  destruct e; cbn [is_entry]; case_decide; try congruence;
    cbn [length]; lia.
Qed.

Lemma run_nested (es : list event) :
  forall t,
    0 <= current_level t <= 64 ->
    length (nrs t) = 64%nat ->
    nested (current_level t) es = true ->
    exists t',
      run g sys_thread_selfid defs type es t = Ok tt t'
      /\ current_level t' = current_level t + entries es - exits es
      /\ Forall (fun s => 0 <= current_level s <= 64)
           (states g sys_thread_selfid defs type es t)
      /\ length (states g sys_thread_selfid defs type es t) = length es.
Proof using tracing.
  induction es as [|e es IH]; intros t Hr Hlen Hn.
  - exists t. split; [reflexivity|].
    split; [change (entries []) with 0; change (exits []) with 0; lia|].
    split; [constructor | reflexivity].
  - rewrite entries_cons, exits_cons.
    cbn [run states step]. rewrite bind_eq.
    destruct e as [nr args|retval force_split]; cbn [nested is_entry step] in *;
      apply andb_prop in Hn as [Hd Hn].
    + apply Z.ltb_lt in Hd.
      destruct (entry_step nr args t) as (t1 & -> & Hc & Hl); [lia|].
      destruct (IH t1) as (t' & Hrun & Hfin & Hall & Hcnt);
        [lia | congruence | now rewrite Hc |].
      exists t'. rewrite Hrun. cbn [length].
      repeat split; [lia | | congruence].
      constructor; [lia | exact Hall].
    + apply Z.ltb_lt in Hd.
      destruct (exit_step retval force_split t) as (t1 & -> & Hc & Hl);
        [lia | exact Hlen |].
      destruct (IH t1) as (t' & Hrun & Hfin & Hall & Hcnt);
        [lia | congruence | now rewrite Hc |].
      exists t'. rewrite Hrun. cbn [length].
      repeat split; [lia | | congruence].
      constructor; [lia | exact Hall].
Qed.

(** C3, as the code has it: for a sequence of Entry and Exit transitions of
    one thread, started in the initial state with the suppression flag
    cleared, in which every Exit closes an Entry that is still open and at
    most 64 calls are open at a time, every transition returns,
    [current_level] ends at the number of Entries minus the number of Exits,
    and it is never negative (nor above 64) after any transition. *)
Theorem nested_sequence_levels (es : list event) :
  nested 0 es = true ->
  exists t',
    run g sys_thread_selfid defs type es initial_thread = Ok tt t'
    /\ current_level t' = entries es - exits es
    /\ Forall (fun s => 0 <= current_level s <= 64)
         (states g sys_thread_selfid defs type es initial_thread)
    /\ length (states g sys_thread_selfid defs type es initial_thread)
       = length es.
Proof using tracing.
  intros Hn.
  destruct (run_nested es initial_thread) as (t' & Hrun & Hfin & Hall & Hcnt);
    [cbn; lia | reflexivity | exact Hn |].
  exists t'. repeat split; assumption.
Qed.

(** C7: from the initial state, with split mode off, an Entry followed at
    once by its Exit with no forced split hands exactly one line to
    [xtrace_log]; nothing is emitted at the Entry, and the line is the call
    header formatted at the Entry followed by the [" -> value"] suffix and
    the newline. *)
Theorem single_call_one_line (nr : Z) (args : list Z) (retval : Z) :
  xtrace_split_entry_and_exit g = false ->
  exists t1 t2,
    handle_generic_entry g sys_thread_selfid defs type nr args initial_thread
      = Ok tt t1
    /\ emitted t1 = []
    /\ log t1 = header_text g sys_thread_selfid defs type 0 nr args
    /\ handle_generic_exit g sys_thread_selfid defs type retval false t1
       = Ok tt t2
    /\ emitted t2 =
       [(header_text g sys_thread_selfid defs type 0 nr args
         ++ result_text g defs nr retval ++ String "010"%char "")%string]
    /\ log t2 = "".
Proof using tracing.
  intros Hsplit.
  eexists. eexists.
  split.
  { rewrite handle_generic_entry_eq, Hsplit. cbn. reflexivity. }
  split; [reflexivity|].
  split; [reflexivity|].
  split.
  { rewrite handle_generic_exit_eq, Hsplit. cbn. reflexivity. }
  split; [|reflexivity].
  cbn. rewrite string_app_assoc. reflexivity.
Qed.

End TrackerProperties.

Lemma levels_after_transition_witness :
  (forall t',
     Tracker.handle_generic_entry Tracker.plain_globals 7 Tracker.no_defs
       "bsd" 3 [] Tracker.initial_thread = Tracker.Ok tt t' ->
     Tracker.previous_level t' = 0
     /\ Tracker.previous_level t' < Tracker.current_level t')
  /\ (exists t',
        Tracker.handle_generic_entry Tracker.plain_globals 7 Tracker.no_defs
          "bsd" 3 [] Tracker.initial_thread = Tracker.Ok tt t').
Proof.
  pose proof (levels_after_transition Tracker.plain_globals 7 Tracker.no_defs
                "bsd" eq_refl Tracker.initial_thread 3 [] 0 false)
    as (Hentry & _ & Hreturns & _).
  split; [exact Hentry|].
  apply Hreturns. cbn. lia.
Defined.

(** The claim C3 at the one-event sequence [Exit]: the handler decrements
    [current_level] from 0 to -1 and then reads [nrs[-1]]. *)
Lemma exit_without_entry_negative :
  Tracker.handle_generic_exit Tracker.plain_globals 7 Tracker.no_defs "bsd"
    0 false Tracker.initial_thread
  = Tracker.OutOfBounds (Tracker.with_levels Tracker.initial_thread (-1) 0)
  /\ ~ Forall (fun s => 0 <= Tracker.current_level s)
        (Tracker.states Tracker.plain_globals 7 Tracker.no_defs "bsd"
           [Tracker.Exit 0 false] Tracker.initial_thread).
Proof.
  split; [reflexivity|].
  intros H. apply Forall_inv in H. cbn in H. lia.
Qed.

Lemma nested_sequence_levels_witness :
  Tracker.nested 0 [Tracker.Entry 3 []; Tracker.Entry 4 [];
                    Tracker.Exit 0 false; Tracker.Exit 0 false] = true
  /\ exists t',
       Tracker.run Tracker.plain_globals 7 Tracker.no_defs "bsd"
         [Tracker.Entry 3 []; Tracker.Entry 4 [];
          Tracker.Exit 0 false; Tracker.Exit 0 false] Tracker.initial_thread
       = Tracker.Ok tt t'
       /\ Tracker.current_level t' = 0.
Proof.
  split; [reflexivity|].
  destruct (nested_sequence_levels Tracker.plain_globals 7 Tracker.no_defs
              "bsd" eq_refl
              [Tracker.Entry 3 []; Tracker.Entry 4 [];
               Tracker.Exit 0 false; Tracker.Exit 0 false] eq_refl)
    as (t' & Hrun & Hfin & _).
  exists t'. split; [exact Hrun | exact Hfin].
Defined.

Lemma single_call_one_line_witness :
  exists t1 t2,
    Tracker.handle_generic_entry Tracker.plain_globals 7 Tracker.no_defs
      "bsd" 3 [] Tracker.initial_thread = Tracker.Ok tt t1
    /\ Tracker.handle_generic_exit Tracker.plain_globals 7 Tracker.no_defs
         "bsd" 10 false t1 = Tracker.Ok tt t2
    /\ length (Tracker.emitted t2) = 1%nat.
Proof.
  destruct (single_call_one_line Tracker.plain_globals 7 Tracker.no_defs
              "bsd" eq_refl 3 [] 10 eq_refl)
    as (t1 & t2 & Hentry & _ & _ & Hexit & Hline & _).
  exists t1, t2. split; [exact Hentry|]. split; [exact Hexit|].
  rewrite Hline. reflexivity.
Defined.

(* ===================================================================== *)
(** * Properties of the environment rewriting *)
(* ===================================================================== *)

Section EnvpProperties.

Import Envp.
Local Open Scope nat_scope.

Lemma eqb_NUL_false (c : ascii) : c <> NUL -> Ascii.eqb c NUL = false.
Proof. intros H. now apply Ascii.eqb_neq. Qed.

(** [strlen] of a C string is the number of bytes before its terminator. *)
Lemma strlen_cbytes (l : list ascii) (rest : list cell) :
  NUL ∉ l -> strlen (map Init l ++ Init NUL :: rest) = Some (length l).
Proof.
  induction l as [|c l IH]; intros Hl; [reflexivity|].
  apply not_elem_of_cons in Hl as [Hc Hl].
  cbn [map app strlen]. rewrite eqb_NUL_false by congruence.
  rewrite IH by exact Hl. reflexivity.
Qed.

Lemma poke_inside (pre post : list cell) (old x : cell) (sp : list (nat * cell)) :
  poke (length pre) x {| cells := pre ++ old :: post; past_end := sp |}
  = {| cells := pre ++ x :: post; past_end := sp |}.
Proof.
  unfold poke. cbn [cells past_end].
  destruct (Nat.ltb_spec (length pre) (length (pre ++ old :: post))) as [_|H].
  - f_equal. rewrite insert_app_r_alt by lia.
    now rewrite Nat.sub_diag.
  - rewrite length_app in H. cbn in H. lia.
Qed.

Lemma poke_outside (b : chars) (i : nat) (x : cell) :
  length (cells b) <= i ->
  poke i x b = {| cells := cells b; past_end := past_end b ++ [(i, x)] |}.
Proof.
  intros H. unfold poke.
  destruct (Nat.ltb_spec i (length (cells b))); [lia | reflexivity].
Qed.

(** [memcpy] into the middle of an allocation. *)
Lemma memcpy_inside (src : list cell) :
  forall (pre old post rest : list cell) (sp : list (nat * cell)),
    length old = length src ->
    memcpy {| cells := pre ++ old ++ post; past_end := sp |} (length pre)
           (src ++ rest) (length src)
    = Some {| cells := pre ++ src ++ post; past_end := sp |}.
Proof.
  induction src as [|x src IH]; intros pre old post rest sp Hlen.
  - destruct old; [reflexivity | discriminate].
  - destruct old as [|o old]; [discriminate|].
    cbn [length app memcpy]. rewrite poke_inside.
    replace (S (length pre)) with (length (pre ++ [x]))
      by (rewrite length_app; cbn; lia).
    replace (pre ++ x :: old ++ post) with ((pre ++ [x]) ++ old ++ post)
      by (now rewrite <- app_assoc).
    rewrite IH by (cbn in Hlen; lia).
    now rewrite <- app_assoc.
Qed.

(** What [envp_make_entry] leaves behind for a key of [k] bytes and a value
    of [v] bytes. *)
Lemma envp_make_entry_eq (key value : list ascii) (kr vr : list cell) :
  NUL ∉ key -> NUL ∉ value ->
  envp_make_entry (map Init key ++ Init NUL :: kr)
                  (map Init value ++ Init NUL :: vr)
  = Some {| cells := map Init key ++ Init "="%char :: map Init value ++ [Undef];
            past_end := [(length key + length value + 2, Init NUL)] |}.
Proof.
  intros Hk Hv. unfold envp_make_entry.
  rewrite !strlen_cbytes by assumption. cbn [mbind option_bind].
  unfold xtrace_malloc.
  replace (length key + length value + 2)
    with (length key + (1 + (length value + 1))) at 1 by lia.
  rewrite !replicate_add.
  pose proof (memcpy_inside (map Init key) [] (replicate (length key) Undef)
                (replicate 1 Undef ++ replicate (length value) Undef
                 ++ replicate 1 Undef)
                (Init NUL :: kr) []) as Hm1.
  rewrite length_replicate, length_map in Hm1.
  cbn [app length] in Hm1. rewrite Hm1 by reflexivity. clear Hm1.
  cbn [mbind option_bind replicate app].
  replace (length key) with (length (map Init key)) at 1
    by apply length_map.
  rewrite poke_inside.
  pose proof (memcpy_inside (map Init value) (map Init key ++ [Init "="%char])
                (replicate (length value) Undef) [Undef]
                (Init NUL :: vr) []) as Hm2.
  rewrite length_replicate, length_app, !length_map in Hm2.
  cbn [length] in Hm2. rewrite <- !app_assoc in Hm2. cbn [app] in Hm2.
  rewrite Hm2 by reflexivity. clear Hm2.
  cbn [mbind option_bind].
  rewrite poke_outside.
  - reflexivity.
  - cbn [cells]. rewrite length_app, length_map. cbn [length].
    rewrite length_app, length_map. cbn [length]. lia.
Qed.

Lemma strlen_unterminated (l : list ascii) :
  NUL ∉ l -> strlen (map Init l ++ [Undef]) = None.
Proof.
  induction l as [|c l IH]; intros Hl; [reflexivity|].
  apply not_elem_of_cons in Hl as [Hc Hl].
  cbn [map app strlen]. rewrite eqb_NUL_false by congruence.
  rewrite IH by exact Hl. reflexivity.
Qed.

Lemma eq_is_not_NUL : "="%char <> NUL.
Proof. discriminate. Qed.

(** C9, on the code: for a key of [k] bytes and a value of [v] bytes
    [envp_make_entry] allocates [k + v + 2] bytes, fills the first
    [k + v + 1] with [KEY=VALUE], never writes byte [k + v + 1], and stores
    the terminating NUL at offset [k + v + 2], one byte past the end of the
    allocation; inside the allocation the string has no terminator. *)
Theorem envp_make_entry_overruns (key value : list ascii) :
  NUL ∉ key -> NUL ∉ value ->
  exists e,
    envp_make_entry (cbytes key) (cbytes value) = Some e
    /\ length (cells e) = length key + length value + 2
    /\ cells e =
       map Init key ++ Init "="%char :: map Init value ++ [Undef]
    /\ past_end e = [(length key + length value + 2, Init NUL)]
    /\ strlen (cells e) = None.
Proof.
  intros Hk Hv. eexists. split.
  { unfold cbytes. apply envp_make_entry_eq; assumption. }
  cbn [cells past_end]. split; [|split; [reflexivity|split; [reflexivity|]]].
  - rewrite length_app, length_map. cbn [length].
    rewrite length_app, length_map. cbn [length]. lia.
  - replace (map Init key ++ Init "="%char :: map Init value ++ [Undef])
      with (map Init (key ++ "="%char :: value) ++ [Undef])
      by (rewrite map_app, <- app_assoc; reflexivity).
    apply strlen_unterminated.
    rewrite elem_of_app, elem_of_cons.
    intros [H|[H|H]]; [tauto | now apply eq_is_not_NUL | tauto].
Qed.

Lemma strchr_found (pre : list ascii) (c : ascii) (rest : list cell) :
  c ∉ pre -> NUL ∉ pre ->
  strchr (map Init pre ++ Init c :: rest) c = Some (Some (length pre)).
Proof.
  induction pre as [|d pre IH]; intros Hc Hn.
  - cbn [map app strchr]. now rewrite Ascii.eqb_refl.
  - apply not_elem_of_cons in Hc as [Hc1 Hc]. apply not_elem_of_cons in Hn as [Hn1 Hn].
    cbn [map app strchr].
    replace (Ascii.eqb d c) with false
      by (symmetry; apply Ascii.eqb_neq; congruence).
    rewrite eqb_NUL_false by congruence.
    rewrite IH by assumption. reflexivity.
Qed.

Lemma strchr_inv (s : list cell) (c : ascii) :
  forall j,
    strchr s c = Some (Some j) ->
    exists pre rest,
      s = map Init pre ++ Init c :: rest
      /\ length pre = j /\ (c ∉ pre) /\ (NUL ∉ pre).
Proof.
  induction s as [|x s IH]; intros j H; [discriminate|].
  destruct x as [d|]; [|discriminate]. cbn [strchr] in H.
  destruct (Ascii.eqb_spec d c) as [->|Hdc].
  - injection H as <-. exists [], s. repeat split; apply not_elem_of_nil.
  - destruct (Ascii.eqb_spec d NUL) as [->|Hd0]; [discriminate|].
    destruct (strchr s c) as [[i|]|] eqn:E; try discriminate.
    injection H as <-.
    destruct (IH i eq_refl) as (pre & rest & -> & <- & Hc & Hn).
    exists (d :: pre), rest.
    repeat split; apply not_elem_of_cons; split; congruence.
Qed.

Lemma nat_of_ascii_inj (x y : ascii) :
  nat_of_ascii x = nat_of_ascii y -> x = y.
Proof.
  intros H. rewrite <- (ascii_nat_embedding x), <- (ascii_nat_embedding y).
  now rewrite H.
Qed.

(** [strncmp] over two equally long runs of written bytes, the first
    without NUL: it always returns, and returns 0 exactly when the runs are
    equal. *)
Lemma strncmp_runs (k : list ascii) :
  forall (p : list ascii) (r1 r2 : list cell),
    length k = length p -> NUL ∉ k ->
    exists c,
      strncmp (map Init k ++ r1) (map Init p ++ r2) (length k) = Some c
      /\ (c = 0%Z <-> k = p).
Proof.
  induction k as [|x k IH]; intros p r1 r2 Hlen Hn.
  - destruct p; [|discriminate]. exists 0%Z. split; [reflexivity | tauto].
  - destruct p as [|y p]; [discriminate|].
    apply not_elem_of_cons in Hn as [Hx Hn].
    cbn [map app length strncmp].
    destruct (Ascii.eqb_spec x y) as [->|Hxy].
    + rewrite eqb_NUL_false by congruence.
      destruct (IH p r1 r2) as (c & -> & Hc); [cbn in Hlen; lia | exact Hn |].
      exists c. split; [reflexivity|].
      rewrite Hc. split; [now intros -> | now intros [= ->]].
    + eexists. split; [reflexivity|]. split.
      * intros H. exfalso. apply Hxy, nat_of_ascii_inj. lia.
      * intros [= ? _]. contradiction.
Qed.

Section Find.

Variable key : list ascii.
Hypothesis key_is_ok : key_ok key.

Lemma find_step_match (e : chars) (ptr : list slot) (i : nat) :
  has_key key e ->
  envp_find_from (Ptr e :: ptr) i (cbytes key) (length key) = Some (Some i).
Proof using key_is_ok.
  intros [rest He]. destruct key_is_ok as [Hn Heq].
  cbn [envp_find_from]. rewrite He, strchr_found by assumption.
  cbn [mbind option_bind]. rewrite Nat.eqb_refl. cbn [negb].
  destruct (strncmp_runs key key [Init NUL] (Init "="%char :: rest) eq_refl Hn)
    as (c & Hc & Hz).
  unfold cbytes. rewrite Hc. cbn [mbind option_bind].
  replace c with 0%Z by (symmetry; now apply Hz). reflexivity.
Qed.

Lemma find_step_skip (e : chars) (ptr : list slot) (i : nat) :
  scannable e -> ~ has_key key e ->
  envp_find_from (Ptr e :: ptr) i (cbytes key) (length key)
  = envp_find_from ptr (S i) (cbytes key) (length key).
Proof using key_is_ok.
  intros [r Hr] Hno. destruct key_is_ok as [Hn Heq].
  cbn [envp_find_from]. rewrite Hr. cbn [mbind option_bind].
  destruct r as [j|]; [|reflexivity].
  destruct (Nat.eqb_spec j (length key)) as [->|Hj]; [|reflexivity].
  cbn [negb].
  destruct (strchr_inv _ _ _ Hr) as (pre & rest & He & Hlen & _ & _).
  destruct (strncmp_runs key pre [Init NUL] (Init "="%char :: rest)
              (eq_sym Hlen) Hn) as (c & Hc & Hz).
  unfold cbytes. rewrite He, Hc. cbn [mbind option_bind].
  destruct (Z.eqb_spec c 0) as [->|_]; [|reflexivity].
  exfalso. apply Hno. exists rest. rewrite He.
  now rewrite (proj1 Hz eq_refl).
Qed.

(** [envp_find] returns the first entry that reads [key=...]. *)
Lemma envp_find_from_first (pre : list chars) :
  forall (e : chars) (post : list chars) (behind : list slot) (i : nat),
    Forall scannable pre ->
    Forall (fun o => ~ has_key key o) pre ->
    has_key key e ->
    envp_find_from (block (pre ++ e :: post) behind) i (cbytes key)
                   (length key)
    = Some (Some (i + length pre)).
Proof using key_is_ok.
  induction pre as [|o pre IH]; intros e post behind i Hs Hno He.
  - unfold block. cbn [app map length].
    rewrite find_step_match by exact He. f_equal. f_equal. lia.
  - apply Forall_cons in Hs as [Hs1 Hs]. apply Forall_cons in Hno as [Hno1 Hno].
    unfold block. cbn [app map length].
    rewrite find_step_skip by assumption.
    unfold block in IH. rewrite IH by assumption.
    f_equal. f_equal. lia.
Qed.

Lemma envp_find_from_none (es : list chars) :
  forall (behind : list slot) (i : nat),
    Forall scannable es ->
    Forall (fun o => ~ has_key key o) es ->
    envp_find_from (block es behind) i (cbytes key) (length key) = Some None.
Proof using key_is_ok.
  induction es as [|o es IH]; intros behind i Hs Hno; [reflexivity|].
  apply Forall_cons in Hs as [Hs1 Hs]. apply Forall_cons in Hno as [Hno1 Hno].
  unfold block. cbn [app map]. rewrite find_step_skip by assumption.
  now apply IH.
Qed.

End Find.

Lemma envp_count_from_block (es : list chars) (behind : list slot) :
  envp_count_from (block es behind) = Some (length es).
Proof.
  induction es as [|e es IH]; [reflexivity|].
  unfold block in *. cbn [map app envp_count_from length].
  now rewrite IH.
Qed.

Lemma slot_store_eq (h : heap) (a i : nat) (s : slot) (arr : list slot) :
  h !! a = Some arr -> i < length arr ->
  slot_store a i s h = Some (<[a := <[i := s]> arr]> h).
Proof.
  intros Ha Hi. unfold slot_store. rewrite Ha. cbn [mbind option_bind].
  destruct (Nat.ltb_spec i (length arr)); [reflexivity | lia].
Qed.

Lemma block_insert (pre post : list chars) (old e : chars)
    (behind : list slot) :
  <[length pre := Ptr e]> (block (pre ++ old :: post) behind)
  = block (pre ++ e :: post) behind.
Proof.
  unfold block. rewrite !map_app, <- !app_assoc. cbn [map app].
  replace (length pre) with (length (map Ptr pre) + 0)
    by (rewrite length_map; lia).
  now rewrite insert_app_r.
Qed.

Lemma block_length (es : list chars) (behind : list slot) :
  length (block es behind) = length es + S (length behind).
Proof. unfold block. rewrite length_app, length_map. reflexivity. Qed.

Lemma fresh_ne (h : heap) (a : nat) (arr : list slot) :
  h !! a = Some arr -> fresh (dom h) <> a.
Proof.
  intros Ha E. apply (is_fresh (dom h)). rewrite E.
  apply elem_of_dom. eauto.
Qed.

(** The value the hook builds is right and terminated inside its own
    allocation: the library path alone, or the old list, a colon and the
    library path. *)
Lemma new_insert_libraries_absent :
  new_insert_libraries None = Some (literal LIBRARY_PATH).
Proof. vm_compute. reflexivity. Qed.

Lemma LIBRARY_PATH_LENGTH_eq :
  LIBRARY_PATH_LENGTH = length (String.list_ascii_of_string LIBRARY_PATH).
Proof. vm_compute. reflexivity. Qed.

Lemma new_insert_libraries_present (x : list ascii) (rest : list cell) :
  x <> [] -> NUL ∉ x ->
  new_insert_libraries (Some (map Init x ++ Init NUL :: rest))
  = Some {| cells :=
              cbytes (x ++ ":"%char :: String.list_ascii_of_string LIBRARY_PATH);
            past_end := [] |}.
Proof.
  intros Hx Hn. unfold new_insert_libraries, cstr.
  rewrite LIBRARY_PATH_LENGTH_eq.
  generalize (String.list_ascii_of_string LIBRARY_PATH). intros p.
  rewrite strlen_cbytes by exact Hn. cbn [mbind option_bind].
  assert (Hpos : 0 < length x) by (destruct x; [congruence | cbn; lia]).
  destruct (Nat.eqb_spec (length x) 0) as [E|_]; [lia|].
  destruct (Nat.ltb_spec 0 (length x)) as [_|E]; [|lia].
  unfold xtrace_malloc, cbytes.
  replace (length x + 1 + length p + 1)
    with (length x + (1 + (length p + 1))) by lia.
  rewrite !replicate_add.
  pose proof (memcpy_inside (map Init x) [] (replicate (length x) Undef)
                (replicate 1 Undef ++ replicate (length p) Undef
                 ++ replicate 1 Undef)
                (Init NUL :: rest) []) as Hm1.
  rewrite length_replicate, length_map in Hm1.
  cbn [app length] in Hm1. cbn [plus]. rewrite Hm1 by reflexivity. clear Hm1.
  cbn [mbind option_bind replicate app].
  replace (length x) with (length (map Init x)) at 1 by apply length_map.
  rewrite poke_inside.
  pose proof (memcpy_inside (map Init p) (map Init x ++ [Init ":"%char])
                (replicate (length p) Undef) [Undef]
                [Init NUL] []) as Hm2.
  rewrite length_replicate, length_app, !length_map in Hm2.
  cbn [length] in Hm2. rewrite <- !app_assoc in Hm2. cbn [app] in Hm2.
  rewrite Hm2 by reflexivity. clear Hm2. cbn [mbind option_bind].
  replace (length x + 1 + length p)
    with (length (map Init x ++ Init ":"%char :: map Init p))
    by (rewrite length_app, length_map; cbn [length];
        rewrite length_map; lia).
  replace (map Init x ++ Init ":"%char :: map Init p ++ [Undef])
    with ((map Init x ++ Init ":"%char :: map Init p) ++ [Undef])
    by (rewrite <- app_assoc; reflexivity).
  rewrite poke_inside. f_equal. f_equal.
  rewrite map_app. cbn [map]. rewrite <- app_assoc. reflexivity.
Qed.

End EnvpProperties.

Lemma envp_make_entry_overruns_witness :
  exists e,
    Envp.envp_make_entry (Envp.cstr "A") (Envp.cstr "B") = Some e
    /\ length (Envp.cells e) = 4%nat
    /\ Envp.cells e !! 3%nat = Some Envp.Undef
    /\ Envp.past_end e = [(4%nat, Envp.Init Envp.NUL)].
Proof.
  destruct (envp_make_entry_overruns ["A"%char] ["B"%char])
    as (e & Hmk & Hlen & Hcells & Hpast & _).
  - intros H. apply list_elem_of_singleton in H. discriminate H.
  - intros H. apply list_elem_of_singleton in H. discriminate H.
  - exists e. split; [exact Hmk|]. split; [exact Hlen|].
    split; [rewrite Hcells; reflexivity | exact Hpast].
Defined.

(** C5, on the code, at two blocks: one without [DYLD_INSERT_LIBRARIES] and
    one that has it with the value [/opt/a.dylib]. In both the hook returns,
    and the value [envp_get] finds in the resulting block is the expected
    text (the library path, or the old value, a colon and the library path)
    followed by a byte that was never written: through [envp_make_entry] the
    value has lost its terminator and is not exactly that text. *)
Lemma inject_hook_value_unterminated :
  match Envp.xtrace_execve_inject_hook Envp.default_config (Some 0%nat)
          {[ 0%nat := Envp.block [Envp.literal "PATH=/bin"] [] ]} with
  | Some (Some a, h') =>
      Envp.envp_get h' a (Envp.cstr "DYLD_INSERT_LIBRARIES")
      = Some (Some (map Envp.Init
                      (String.list_ascii_of_string Envp.LIBRARY_PATH)
                    ++ [Envp.Undef]))
  | _ => False
  end
  /\ match Envp.xtrace_execve_inject_hook Envp.default_config (Some 0%nat)
            {[ 0%nat :=
                 Envp.block
                   [Envp.literal "DYLD_INSERT_LIBRARIES=/opt/a.dylib"] [] ]}
     with
     | Some (Some a, h') =>
         Envp.envp_get h' a (Envp.cstr "DYLD_INSERT_LIBRARIES")
         = Some (Some (map Envp.Init
                         (String.list_ascii_of_string
                            ("/opt/a.dylib:" +:+ Envp.LIBRARY_PATH))
                       ++ [Envp.Undef]))
     | _ => False
     end
  /\ Envp.strlen (map Envp.Init
                    (String.list_ascii_of_string Envp.LIBRARY_PATH)
                  ++ [Envp.Undef]) = None.
Proof.
  vm_compute. repeat split.
Qed.

(* ===================================================================== *)
(** * Further properties: errno translation *)
(* ===================================================================== *)

Section ErrnoMore.

Import Errno ErrnoInit.

Variable size_t_bits : Z.
Hypothesis size_t_wide : 32 <= size_t_bits.

(** X1: an error code inside the table, other than 0, never translates to 0:
    [errnoDoMap] reads the table's entry for the code and returns that entry
    when it is not 0 and the code itself when it is 0, so a real error is
    never turned into "no error". *)
Theorem errnoDoMap_keeps_errors (err : Z) (map : list Z) :
  length map = 140%nat ->
  0 < err < 139 ->
  exists e,
    array_get map err = Some e
    /\ (e <> 0 -> errnoDoMap size_t_bits err map = Some e)
    /\ (e = 0 -> errnoDoMap size_t_bits err map = Some err)
    /\ errnoDoMap size_t_bits err map <> Some 0.
Proof using size_t_wide.
  intros Hlen Hr. unfold errnoDoMap.
  assert (Hint : INT_MIN <= err <= INT_MAX)
    by (unfold INT_MIN, INT_MAX; lia).
  destruct (guard_spec size_t_bits size_t_wide err Hint) as [_ Hg].
  rewrite Hg by lia.
  destruct (array_get_in_range map err) as [e He]; [rewrite Hlen; lia|].
  exists e. split; [exact He|]. rewrite He. cbn [mbind option_bind].
  destruct (Z.eqb_spec e 0) as [->|Hne].
  - split; [intros H; contradiction|]. split; [reflexivity|].
    intros [= H]. lia.
  - split; [reflexivity|]. split; [intros H; contradiction|].
    intros [= H]. contradiction.
Qed.

Lemma array_set_get (a a' : list Z) (i v : Z) :
  array_set a i v = Some a' ->
  length a' = length a
  /\ array_get a' i = Some v
  /\ (forall j, j <> i -> 0 <= j -> array_get a' j = array_get a j).
Proof.
  unfold array_set, array_get. intros H.
  destruct (Z.leb_spec 0 i); [|discriminate].
  destruct (Z.ltb_spec i (Z.of_nat (length a))); [|discriminate].
  injection H as <-. split; [apply length_insert|]. split.
  - destruct (Z.leb_spec 0 i); [|lia].
    apply list_lookup_insert_eq. lia.
  - intros j Hj Hj0. destruct (Z.leb_spec 0 j); [|lia].
    apply list_lookup_insert_ne. lia.
Qed.

Variables _DARWIN_EBADEXEC _DARWIN_EBADARCH _DARWIN_EBADMACHO ENOEXEC : Z.
Variables darwin_to_linux_map linux_to_darwin_map :
  list Z * list Z -> option (list Z * list Z).

(** X2: whatever the two [.map] files assign (as long as their stores stay
    inside the tables), [initErrnoMappingTable] returns, and afterwards the
    three Mach-O loader errors [EBADEXEC], [EBADARCH] and [EBADMACHO] all
    translate to [ENOEXEC]; both tables still have 140 entries. *)
Theorem bad_executable_is_ENOEXEC (t1 t2 : list Z * list Z) :
  keeps_sizes darwin_to_linux_map ->
  keeps_sizes linux_to_darwin_map ->
  darwin_to_linux_map (replicate 140%nat 0, replicate 140%nat 0) = Some t1 ->
  linux_to_darwin_map t1 = Some t2 ->
  0 <= _DARWIN_EBADEXEC < 139 ->
  0 <= _DARWIN_EBADARCH < 139 ->
  0 <= _DARWIN_EBADMACHO < 139 ->
  ENOEXEC <> 0 ->
  exists d,
    initErrnoMappingTable _DARWIN_EBADEXEC _DARWIN_EBADARCH _DARWIN_EBADMACHO
      ENOEXEC darwin_to_linux_map linux_to_darwin_map = Some (d, t2.2)
    /\ length d = 140%nat /\ length t2.2 = 140%nat
    /\ errnoDarwinToLinux size_t_bits d _DARWIN_EBADEXEC = Some ENOEXEC
    /\ errnoDarwinToLinux size_t_bits d _DARWIN_EBADARCH = Some ENOEXEC
    /\ errnoDarwinToLinux size_t_bits d _DARWIN_EBADMACHO = Some ENOEXEC.
Proof using size_t_wide.
  intros Hk1 Hk2 E1 E2 H1 H2 H3 Hne. unfold initErrnoMappingTable.
  rewrite E1. destruct t1 as [d1 l1]. cbn [mbind option_bind].
  rewrite E2. destruct t2 as [d2 l2]. cbn [mbind option_bind snd].
  destruct (Hk1 _ _ _ _ (length_replicate _ _) (length_replicate _ _) E1)
    as [Hd1 Hl1].
  destruct (Hk2 _ _ _ _ Hd1 Hl1 E2) as [Hd2 Hl2].
  destruct (array_set d2 _DARWIN_EBADEXEC ENOEXEC) as [d3|] eqn:E3;
    [|unfold array_set in E3; rewrite Hd2, range_test in E3 by lia;
      discriminate].
  destruct (array_set_get _ _ _ _ E3) as (L3 & G3 & F3).
  cbn [mbind option_bind].
  destruct (array_set d3 _DARWIN_EBADARCH ENOEXEC) as [d4|] eqn:E4;
    [|unfold array_set in E4; rewrite L3, Hd2, range_test in E4 by lia;
      discriminate].
  destruct (array_set_get _ _ _ _ E4) as (L4 & G4 & F4).
  cbn [mbind option_bind].
  destruct (array_set d4 _DARWIN_EBADMACHO ENOEXEC) as [d5|] eqn:E5;
    [|unfold array_set in E5; rewrite L4, L3, Hd2, range_test in E5 by lia;
      discriminate].
  destruct (array_set_get _ _ _ _ E5) as (L5 & G5 & F5).
  cbn [mbind option_bind].
  assert (Hget : forall c, 0 <= c < 139 -> array_get d5 c = Some ENOEXEC ->
                 errnoDarwinToLinux size_t_bits d5 c = Some ENOEXEC).
  { intros c Hc Hgc. unfold errnoDarwinToLinux, errnoDoMap.
    assert (Hint : INT_MIN <= c <= INT_MAX)
      by (unfold INT_MIN, INT_MAX; lia).
    destruct (guard_spec size_t_bits size_t_wide c Hint) as [_ Hg].
    rewrite Hg by lia. rewrite Hgc. cbn [mbind option_bind].
    destruct (Z.eqb_spec ENOEXEC 0); [contradiction | reflexivity]. }
  exists d5. split; [reflexivity|].
  split; [congruence|]. split; [exact Hl2|].
  assert (G4' : array_get d5 _DARWIN_EBADARCH = Some ENOEXEC).
  { destruct (Z.eq_dec _DARWIN_EBADARCH _DARWIN_EBADMACHO) as [->|Hd];
      [exact G5 | rewrite F5 by lia; exact G4]. }
  assert (G3' : array_get d5 _DARWIN_EBADEXEC = Some ENOEXEC).
  { destruct (Z.eq_dec _DARWIN_EBADEXEC _DARWIN_EBADMACHO) as [->|Hd];
      [exact G5|]. rewrite F5 by lia.
    destruct (Z.eq_dec _DARWIN_EBADEXEC _DARWIN_EBADARCH) as [->|Hd'];
      [exact G4 | rewrite F4 by lia; exact G3]. }
  split; [now apply Hget|]. split; now apply Hget.
Qed.

End ErrnoMore.

Lemma errnoDoMap_keeps_errors_witness :
  Errno.errnoDoMap 64 13 (<[13%nat := 22]> (replicate 140%nat 0)) = Some 22
  /\ Errno.errnoDoMap 64 14 (<[13%nat := 22]> (replicate 140%nat 0))
     = Some 14.
Proof.
  assert (Hlen : length (<[13%nat := 22]> (replicate 140%nat 0)) = 140%nat)
    by (rewrite length_insert; reflexivity).
  split.
  - destruct (errnoDoMap_keeps_errors 64 ltac:(lia) 13 _ Hlen ltac:(lia))
      as (e & He & Hmapped & _).
    injection He as <-. apply Hmapped. discriminate.
  - destruct (errnoDoMap_keeps_errors 64 ltac:(lia) 14 _ Hlen ltac:(lia))
      as (e & He & _ & Hkept & _).
    injection He as <-. now apply Hkept.
Defined.

Lemma bad_executable_is_ENOEXEC_witness :
  exists d,
    ErrnoInit.initErrnoMappingTable 85 86 88 8 Some Some
      = Some (d, replicate 140%nat 0)
    /\ Errno.errnoDarwinToLinux 64 d 88 = Some 8.
Proof.
  assert (Hk : ErrnoInit.keeps_sizes Some).
  { intros d l d' l' Hd Hl [= <- <-]. split; assumption. }
  destruct (bad_executable_is_ENOEXEC 64 ltac:(lia) 85 86 88 8 Some Some
              (replicate 140%nat 0, replicate 140%nat 0)
              (replicate 140%nat 0, replicate 140%nat 0)
              Hk Hk eq_refl eq_refl ltac:(lia) ltac:(lia) ltac:(lia)
              ltac:(lia))
    as (d & Hinit & _ & _ & _ & _ & Hm).
  exists d. split; [exact Hinit | exact Hm].
Defined.


(* ===================================================================== *)
(** * Further properties: the instruction patcher and the installers *)
(* ===================================================================== *)

Section HookMore.

Import Hook HookCode.

Lemma byte_of_mod (v i : Z) :
  0 <= i -> byte_of v i = (v / 2 ^ (8 * i)) mod 256.
Proof.
  intros Hi. unfold byte_of.
  rewrite Z.shiftr_div_pow2 by lia.
  change 255 with (Z.ones 8). rewrite Z.land_ones by lia. reflexivity.
Qed.

(** Eight little-endian bytes give back a 64-bit value. *)
Lemma le_decode (v : Z) :
  0 <= v < 2 ^ 64 ->
  foldr (fun b acc => b + 256 * acc) 0
    (map (byte_of v) [0; 1; 2; 3; 4; 5; 6; 7]) = v.
Proof.
  intros Hv. cbn [map foldr].
  rewrite !byte_of_mod by lia.
  assert (Hstep : forall i, 0 <= i ->
            v / 2 ^ (8 * i)
            = 256 * (v / 2 ^ (8 * (i + 1))) + (v / 2 ^ (8 * i)) mod 256).
  { intros i Hi.
    replace (2 ^ (8 * (i + 1))) with (2 ^ (8 * i) * 256)
      by (replace (8 * (i + 1)) with (8 * i + 8) by lia;
          rewrite Z.pow_add_r by lia; reflexivity).
    rewrite <- Z.div_div by lia.
    apply Z.div_mod. lia. }
  pose proof (Hstep 0 ltac:(lia)) as H0.
  pose proof (Hstep 1 ltac:(lia)) as H1.
  pose proof (Hstep 2 ltac:(lia)) as H2.
  pose proof (Hstep 3 ltac:(lia)) as H3.
  pose proof (Hstep 4 ltac:(lia)) as H4.
  pose proof (Hstep 5 ltac:(lia)) as H5.
  pose proof (Hstep 6 ltac:(lia)) as H6.
  pose proof (Hstep 7 ltac:(lia)) as H7.
  assert (H8 : v / 2 ^ (8 * (7 + 1)) = 0) by (apply Z.div_small; exact Hv).
  change (8 * (0 + 1)) with (8 * 1) in *.
  change (8 * (1 + 1)) with (8 * 2) in *.
  change (8 * (2 + 1)) with (8 * 3) in *.
  change (8 * (3 + 1)) with (8 * 4) in *.
  change (8 * (4 + 1)) with (8 * 5) in *.
  change (8 * (5 + 1)) with (8 * 6) in *.
  change (8 * (6 + 1)) with (8 * 7) in *.
  change (2 ^ (8 * 0)) with 1 in *. rewrite Z.div_1_r in *.
  lia.
Qed.

Lemma range_test' (x lo y hi : Z) :
  lo <= x /\ y < hi -> (lo <=? x) && (y <? hi) = true.
Proof.
  intros H. apply andb_true_intro.
  split; [apply Z.leb_le | apply Z.ltb_lt]; lia.
Qed.

Lemma in_range_false' (x lo y hi : Z) :
  x < lo \/ hi <= y -> (lo <=? x) && (y <? hi) = false.
Proof.
  intros H. destruct (Z.leb_spec lo x), (Z.ltb_spec y hi);
    try reflexivity; lia.
Qed.

Lemma setup_hook_eq (hook fnptr : Z) (jump : bool) (w : world) :
  writable_on w hook (hook + hook_size) ->
  setup_hook hook fnptr jump w = Done tt (patched w hook fnptr jump).
Proof.
  intros Hw. unfold setup_hook, store64, hook_size in *.
  repeat (rewrite hook_bind_eq;
          rewrite store8_ok
            by (cbn [perms with_byte]; apply Hw; lia)).
  rewrite store8_ok by (cbn [perms with_byte]; apply Hw; lia).
  reflexivity.
Qed.

Lemma patched_mem (w : world) (hook fnptr : Z) (jump : bool) (a : Z) :
  mem (patched w hook fnptr jump) a =
  if (hook <=? a) && (a <? hook + 13)
  then nth (Z.to_nat (a - hook)) (hook_code fnptr jump) 0
  else mem w a.
Proof.
  unfold patched. cbn [mem with_byte].
  repeat match goal with
         | |- context [if a =? ?b then _ else _] =>
             destruct (Z.eqb_spec a b) as [->|?];
               [rewrite range_test by lia;
                match goal with
                | |- context [Z.to_nat ?e] => ring_simplify e
                end; reflexivity|]
         end.
  destruct ((hook <=? a) && (a <? hook + 13)) eqn:E; [|reflexivity].
  apply andb_prop in E as [E1 E2].
  apply Z.leb_le in E1. apply Z.ltb_lt in E2. lia.
Qed.

Lemma patched_same_kernel (w : world) (hook fnptr : Z) (jump : bool) :
  perms (patched w hook fnptr jump) = perms w
  /\ same_kernel w (patched w hook fnptr jump).
Proof. repeat split. Qed.

Lemma read_patched (w : world) (hook fnptr : Z) (jump : bool) :
  read_bytes (patched w hook fnptr jump) hook 13 = hook_code fnptr jump.
Proof.
  unfold read_bytes. cbn [seq map].
  rewrite !patched_mem.
  repeat (rewrite range_test by lia).
  repeat match goal with
         | |- context [Z.to_nat ?e] => progress ring_simplify e
         end.
  reflexivity.
Qed.

(** X3: on writable pages [setup_hook] returns, the 13 bytes of the hook
    region then read [49 ba], the eight bytes of the function pointer least
    significant first, and [41 ff d2] (call) or [41 ff e2] (jump); no byte
    outside the region and no page protection changes. *)
Theorem setup_hook_writes_region
    (hook fnptr : Z) (jump : bool) (w : world) :
  writable_on w hook (hook + hook_size) ->
  exists w',
    setup_hook hook fnptr jump w = Done tt w'
    /\ read_bytes w' hook 13 = hook_code fnptr jump
    /\ (forall a, a < hook \/ hook + hook_size <= a -> mem w' a = mem w a)
    /\ perms w' = perms w.
Proof.
  intros Hw. exists (patched w hook fnptr jump).
  split; [now apply setup_hook_eq|].
  split; [apply read_patched|].
  split; [|reflexivity].
  intros a Ha. rewrite patched_mem. unfold hook_size in Ha.
  destruct ((hook <=? a) && (a <? hook + 13)) eqn:E; [|reflexivity].
  apply andb_prop in E as [E1 E2].
  apply Z.leb_le in E1. apply Z.ltb_lt in E2. lia.
Qed.

(** X4: the address a patched hook transfers control to is the function
    pointer it was given: for a 64-bit [fnptr], the little-endian quadword at
    offset 2 of the patched region is [fnptr]. *)
Theorem setup_hook_target
    (hook fnptr : Z) (jump : bool) (w : world) :
  writable_on w hook (hook + hook_size) ->
  0 <= fnptr < 2 ^ 64 ->
  exists w',
    setup_hook hook fnptr jump w = Done tt w'
    /\ load64 w' (hook + 2) = fnptr.
Proof.
  intros Hw Hf. exists (patched w hook fnptr jump).
  split; [now apply setup_hook_eq|].
  unfold load64, read_bytes. cbn [seq map].
  rewrite !patched_mem.
  repeat (rewrite range_test by lia).
  repeat match goal with
         | |- context [Z.to_nat ?e] => progress ring_simplify e
         end.
  exact (le_decode fnptr Hf).
Qed.

Ltac store_or_fault w :=
  rewrite ?hook_bind_eq;
  match goal with
  | |- context [store8 ?addr ?b _] =>
      unfold store8 at 1; cbn [perms with_byte];
      destruct (prot_write (perms w (addr / 4096))) eqn:?;
        [| exists addr; split; [lia | split; [assumption | reflexivity]]]
  end.

(** X5: [setup_hook] never skips a byte: when some byte of the hook region
    lies on a page that is not writable, the patcher ends in a fault on a
    store into the region, at an address whose page is not writable. *)
Theorem setup_hook_faults (hook fnptr : Z) (jump : bool) (w : world) :
  (exists a,
     hook <= a < hook + hook_size
     /\ prot_write (perms w (a / 4096)) = false) ->
  exists a,
    hook <= a < hook + hook_size
    /\ prot_write (perms w (a / 4096)) = false
    /\ setup_hook hook fnptr jump w = Segv a.
Proof.
  intros (a & Ha & Hno). unfold setup_hook, store64, hook_size in *.
  do 13 store_or_fault w.
  exfalso.
  assert (Hcases : a = hook + 0 \/ a = hook + 1 \/ a = hook + 2
                   \/ a = hook + 2 + 1 \/ a = hook + 2 + 2
                   \/ a = hook + 2 + 3 \/ a = hook + 2 + 4
                   \/ a = hook + 2 + 5 \/ a = hook + 2 + 6
                   \/ a = hook + 2 + 7 \/ a = hook + 10
                   \/ a = hook + 11 \/ a = hook + 12) by lia.
  assert (Hw : prot_write (perms w (a / 4096)) = true)
    by (repeat (destruct Hcases as [->|Hcases]; [assumption|]);
        subst a; assumption).
  rewrite Hno in Hw. discriminate Hw.
Qed.

Lemma read_bytes_answered (w : world) (c : bool) (addr len : Z) (p : prot)
    (x : Z) (n : nat) :
  read_bytes (answered w c addr len p) x n = read_bytes w x n.
Proof. reflexivity. Qed.

Lemma mem_answered (w : world) (c : bool) (addr len : Z) (p : prot) (a : Z) :
  mem (answered w c addr len p) a = mem w a.
Proof. reflexivity. Qed.

Lemma perms_answered (w : world) (c : bool) (addr len : Z) (p : prot)
    (pg : Z) :
  perms (answered w c addr len p) pg =
  if c && (addr / 4096 <=? pg) && (pg * 4096 <? addr + len)
  then p else perms w pg.
Proof. reflexivity. Qed.

Lemma perms_patched (w : world) (hook fnptr : Z) (jump : bool) :
  perms (patched w hook fnptr jump) = perms w.
Proof. reflexivity. Qed.

Ltac store_or_fault_here w :=
  rewrite ?hook_bind_eq;
  match goal with
  | |- context [store8 ?addr ?b _] =>
      unfold store8 at 1; cbn [perms with_byte];
      destruct (prot_write (perms w (addr / 4096))) eqn:?;
        [| split; [lia | assumption]]
  end.

Lemma setup_hook_outcome (hook fnptr : Z) (jump : bool) (w : world) :
  match setup_hook hook fnptr jump w with
  | Done _ w' => w' = patched w hook fnptr jump
  | Abort _ => False
  | Segv a =>
      hook <= a < hook + hook_size
      /\ prot_write (perms w (a / 4096)) = false
  end.
Proof.
  unfold setup_hook, store64, hook_size.
  do 13 store_or_fault_here w.
  reflexivity.
Qed.

(** The patcher stores all 13 bytes, or faults on one of them. *)
Lemma setup_hook_cases (hook fnptr : Z) (jump : bool) (w : world) :
  setup_hook hook fnptr jump w = Done tt (patched w hook fnptr jump)
  \/ exists a,
       hook <= a < hook + hook_size
       /\ prot_write (perms w (a / 4096)) = false
       /\ setup_hook hook fnptr jump w = Segv a.
Proof.
  pose proof (setup_hook_outcome hook fnptr jump w) as H.
  destruct (setup_hook hook fnptr jump w) as [[] w'|msg|a].
  - left. now rewrite H.
  - contradiction.
  - right. exists a. destruct H as [Ha Hno].
    split; [exact Ha | split; [exact Hno | reflexivity]].
Qed.

Lemma mprotect_returns (addr len : Z) (p : prot) (w : world) :
  exists r w', mprotect addr len p w = Done r w'.
Proof.
  unfold mprotect. destruct (mprotect_fails w) as [|[] rest]; eauto.
Qed.

Lemma installer_two_hooks (area bytes entry exit entry_trampoline
    exit_trampoline : Z) (w : world) :
  patches_or_faults area bytes
    [(entry, entry_trampoline, false); (exit, exit_trampoline, false)] w
    ((_ ← mprotect area bytes PROT_RWX;
      setup_hook entry entry_trampoline false;;
      setup_hook exit exit_trampoline false;;
      _ ← mprotect area bytes PROT_RX;
      mret tt) w).
Proof.
  destruct (mprotect_returns area bytes PROT_RWX w) as (r1 & w1 & E1).
  exists r1, w1. split; [exact E1|].
  rewrite hook_bind_eq, E1, hook_bind_eq.
  destruct (setup_hook_cases entry entry_trampoline false w1)
    as [E2 | (a & Ha & Hno & E2)]; rewrite E2.
  - rewrite hook_bind_eq.
    destruct (setup_hook_cases exit exit_trampoline false
                (patched w1 entry entry_trampoline false))
      as [E3 | (a & Ha & Hno & E3)]; rewrite E3.
    + left. cbn [patched_all].
      destruct (mprotect_returns area bytes PROT_RX
                  (patched (patched w1 entry entry_trampoline false)
                     exit exit_trampoline false)) as (r2 & w' & E4).
      exists r2, w'. split; [exact E4|]. rewrite hook_bind_eq, E4.
      reflexivity.
    + right. exists a. split; [reflexivity|]. split.
      * apply Exists_cons_tl, Exists_cons_hd. exact Ha.
      * rewrite perms_patched in Hno. exact Hno.
  - right. exists a. split; [reflexivity|]. split.
    + apply Exists_cons_hd. exact Ha.
    + exact Hno.
Qed.

(** C2, as the code has it: the value [mprotect] returns is discarded, so no
    failure of the protection change makes an installer call
    [xtrace_abort]. Whatever the kernel answers, [xtrace_setup_mach],
    [xtrace_setup_bsd] and [setup_hook_with_perms] call the first
    [mprotect], go on to the patching stores, and end either by returning,
    with every hook patched and the second [mprotect] called, or by a fault
    on one of those stores, at a byte of a hook region whose page is not
    writable. *)
Theorem installers_never_abort
    (entry exit entry_trampoline exit_trampoline : Z) (jump : bool)
    (w : world) :
  patches_or_faults (hook_area entry exit).1 (hook_area entry exit).2
    [(entry, entry_trampoline, false); (exit, exit_trampoline, false)] w
    (xtrace_setup_mach entry exit entry_trampoline exit_trampoline w)
  /\ patches_or_faults (hook_area entry exit).1 (hook_area entry exit).2
       [(entry, entry_trampoline, false); (exit, exit_trampoline, false)] w
       (xtrace_setup_bsd entry exit entry_trampoline exit_trampoline w)
  /\ patches_or_faults (hook_area entry entry).1 (hook_area entry entry).2
       [(entry, entry_trampoline, jump)] w
       (setup_hook_with_perms entry entry_trampoline jump w)
  /\ (forall msg,
        xtrace_setup_mach entry exit entry_trampoline exit_trampoline w
          <> Abort msg
        /\ xtrace_setup_bsd entry exit entry_trampoline exit_trampoline w
           <> Abort msg
        /\ setup_hook_with_perms entry entry_trampoline jump w
           <> Abort msg).
Proof.
  split; [|split; [|split]].
  - unfold xtrace_setup_mach.
    destruct (hook_area entry exit) as [area bytes]. cbn [fst snd].
    apply installer_two_hooks.
  - unfold xtrace_setup_bsd.
    destruct (hook_area entry exit) as [area bytes]. cbn [fst snd].
    apply installer_two_hooks.
  - unfold setup_hook_with_perms.
    destruct (hook_area entry entry) as [area bytes]. cbn [fst snd].
    destruct (mprotect_returns area bytes PROT_RWX w) as (r1 & w1 & E1).
    exists r1, w1. split; [exact E1|].
    rewrite hook_bind_eq, E1, hook_bind_eq.
    destruct (setup_hook_cases entry entry_trampoline jump w1)
      as [E2 | (a & Ha & Hno & E2)]; rewrite E2.
    + left. cbn [patched_all].
      destruct (mprotect_returns area bytes PROT_RX
                  (patched w1 entry entry_trampoline jump))
        as (r2 & w' & E4).
      exists r2, w'. split; [exact E4|]. rewrite hook_bind_eq, E4.
      reflexivity.
    + right. exists a. split; [reflexivity|]. split.
      * apply Exists_cons_hd. exact Ha.
      * exact Hno.
  - intros msg. split; [|split].
    + apply no_abort_setup_mach.
    + apply no_abort_setup_bsd.
    + apply no_abort_setup_hook_with_perms.
Qed.

Lemma same_kernel_trans (w1 w2 w3 : world) :
  same_kernel w1 w2 -> same_kernel w2 w3 -> same_kernel w1 w3.
Proof.
  unfold same_kernel. intros (A1 & A2 & A3 & A4 & A5 & A6)
    (B1 & B2 & B3 & B4 & B5 & B6).
  repeat split; congruence.
Qed.

Lemma same_kernel_answered (w : world) (c : bool) (addr len : Z) (p : prot) :
  mprotect_fails w = [] -> same_kernel w (answered w c addr len p).
Proof.
  intros Hf. unfold same_kernel. cbn [mprotect_fails answered].
  rewrite Hf. repeat split.
Qed.

Lemma mprotect_all_granted (addr len : Z) (p : prot) (w : world) :
  mprotect_fails w = [] ->
  mprotect addr len p w = Done 0 (answered w true addr len p)
  /\ mprotect_fails (answered w true addr len p) = [].
Proof.
  intros Hf. unfold mprotect. rewrite Hf. split; [reflexivity|].
  cbn [mprotect_fails answered]. now rewrite Hf.
Qed.

Lemma answered_covers (w : world) (addr len a : Z) (p : prot) :
  addr <= a < addr + len ->
  perms (answered w true addr len p) (a / 4096) = p.
Proof.
  intros Ha. cbn [perms answered andb].
  pose proof (Z.div_le_mono addr a 4096 ltac:(lia) ltac:(lia)).
  pose proof (Z.mul_div_le a 4096 ltac:(lia)).
  rewrite range_test'; [reflexivity|]. lia.
Qed.

Lemma read_patched_other (w : world) (hook fnptr : Z) (jump : bool)
    (other : Z) :
  other + 13 <= hook \/ hook + 13 <= other ->
  read_bytes (patched w hook fnptr jump) other 13 = read_bytes w other 13.
Proof.
  intros Hd. unfold read_bytes. apply map_ext_in. intros i Hi.
  apply in_seq in Hi. rewrite patched_mem.
  destruct ((hook <=? other + Z.of_nat i) && (other + Z.of_nat i <? hook + 13))
    eqn:E; [|reflexivity].
  apply andb_prop in E as [E1 E2].
  apply Z.leb_le in E1. apply Z.ltb_lt in E2. lia.
Qed.

(** The three installers in closed form, when the kernel grants every
    protection change. *)
Lemma setup_hook_with_perms_eq (hook fnptr : Z) (jump : bool) (w : world) :
  valid_hook hook ->
  mprotect_fails w = [] ->
  setup_hook_with_perms hook fnptr jump w =
  Done tt
    (answered
       (patched (answered w true (fst (hook_area hook hook))
                   (snd (hook_area hook hook)) PROT_RWX)
          hook fnptr jump)
       true (fst (hook_area hook hook)) (snd (hook_area hook hook)) PROT_RX).
Proof.
  intros [H0 Htop] Hf. unfold setup_hook_with_perms.
  assert (Hcov : forall a, hook <= a < hook + hook_size ->
            fst (hook_area hook hook) <= a
            < fst (hook_area hook hook) + snd (hook_area hook hook))
    by (intros a Ha; apply hook_area_contains; lia).
  destruct (hook_area hook hook) as [area bytes]. cbn [fst snd] in *.
  destruct (mprotect_all_granted area bytes PROT_RWX w Hf) as [Hm1 Hf1].
  rewrite hook_bind_eq, Hm1. cbv iota beta.
  rewrite hook_bind_eq, setup_hook_eq.
  - cbv iota beta.
    destruct (mprotect_all_granted area bytes PROT_RX
                (patched (answered w true area bytes PROT_RWX) hook fnptr jump)
                Hf1) as [Hm _].
    rewrite hook_bind_eq, Hm. reflexivity.
  - intros a Ha. rewrite answered_covers by (apply Hcov; exact Ha).
    reflexivity.
Qed.

Lemma xtrace_setup_mach_eq
    (entry exit entry_trampoline exit_trampoline : Z) (w : world) :
  valid_hook entry -> valid_hook exit -> entry <= exit ->
  mprotect_fails w = [] ->
  xtrace_setup_mach entry exit entry_trampoline exit_trampoline w =
  Done tt
    (answered
       (patched
          (patched (answered w true (fst (hook_area entry exit))
                      (snd (hook_area entry exit)) PROT_RWX)
             entry entry_trampoline false)
          exit exit_trampoline false)
       true (fst (hook_area entry exit)) (snd (hook_area entry exit))
       PROT_RX).
Proof.
  intros [H0 _] [_ Htop] Hle Hf. unfold xtrace_setup_mach.
  assert (Hcov : forall a,
            entry <= a < entry + hook_size \/ exit <= a < exit + hook_size ->
            fst (hook_area entry exit) <= a
            < fst (hook_area entry exit) + snd (hook_area entry exit))
    by (intros a Ha; now apply hook_area_contains).
  destruct (hook_area entry exit) as [area bytes]. cbn [fst snd] in *.
  destruct (mprotect_all_granted area bytes PROT_RWX w Hf) as [Hm1 Hf1].
  rewrite hook_bind_eq, Hm1. cbv iota beta.
  rewrite hook_bind_eq, setup_hook_eq.
  - cbv iota beta. rewrite hook_bind_eq, setup_hook_eq.
    + cbv iota beta.
      destruct (mprotect_all_granted area bytes PROT_RX
                  (patched
                     (patched (answered w true area bytes PROT_RWX)
                        entry entry_trampoline false)
                     exit exit_trampoline false) Hf1) as [Hm _].
      rewrite hook_bind_eq, Hm. reflexivity.
    + intros a Ha. cbn [perms patched with_byte].
      change (perms (answered w true area bytes PROT_RWX) (a / 4096))
        with (perms (answered w true area bytes PROT_RWX) (a / 4096)).
      rewrite answered_covers by (apply Hcov; now right). reflexivity.
  - intros a Ha.
    rewrite answered_covers by (apply Hcov; now left). reflexivity.
Qed.

Lemma in_range_false (x lo hi : Z) :
  x < lo \/ hi <= x -> (lo <=? x) && (x <? hi) = false.
Proof.
  intros H. destruct (Z.leb_spec lo x), (Z.ltb_spec x hi);
    try reflexivity; lia.
Qed.

(** X6: with the entry hook before the exit hook and every protection
    change granted, [xtrace_setup_mach] (and [xtrace_setup_bsd], which is the
    same code on the BSD hooks) returns; the two regions then hold calls to
    the two trampolines, every byte of them lies on a read+execute page, and
    nothing else changed: no byte outside the two regions, no page outside
    the range given to [mprotect], none of the kernel state. *)
Theorem syscall_hooks_installed
    (entry exit entry_trampoline exit_trampoline : Z) (w : world) :
  valid_hook entry -> valid_hook exit ->
  entry + hook_size <= exit ->
  mprotect_fails w = [] ->
  exists w',
    xtrace_setup_mach entry exit entry_trampoline exit_trampoline w
      = Done tt w'
    /\ xtrace_setup_bsd entry exit entry_trampoline exit_trampoline w
       = Done tt w'
    /\ read_bytes w' entry 13 = hook_code entry_trampoline false
    /\ read_bytes w' exit 13 = hook_code exit_trampoline false
    /\ (forall a,
          entry <= a < entry + hook_size \/ exit <= a < exit + hook_size ->
          perms w' (a / 4096) = PROT_RX)
    /\ (forall a,
          ~ (entry <= a < entry + hook_size) ->
          ~ (exit <= a < exit + hook_size) ->
          mem w' a = mem w a)
    /\ (forall pg,
          (pg + 1) * 4096 <= fst (hook_area entry exit)
          \/ fst (hook_area entry exit) + snd (hook_area entry exit)
             <= pg * 4096 ->
          perms w' pg = perms w pg)
    /\ same_kernel w w'.
Proof.
  intros Hve Hvx Hord Hf.
  eexists. split; [apply xtrace_setup_mach_eq; try assumption;
                   unfold hook_size in *; lia|].
  split; [apply xtrace_setup_mach_eq; try assumption;
          unfold hook_size in *; lia|].
  unfold valid_hook, hook_size in *.
  assert (Hcov : forall a,
            entry <= a < entry + 13 \/ exit <= a < exit + 13 ->
            fst (hook_area entry exit) <= a
            < fst (hook_area entry exit) + snd (hook_area entry exit)).
  { intros a Ha. apply hook_area_contains; unfold hook_size; lia. }
  set (area := fst (hook_area entry exit)) in *.
  set (bytes := snd (hook_area entry exit)) in *.
  split; [|split; [|split; [|split; [|split]]]].
  - rewrite read_bytes_answered, read_patched_other by lia.
    apply read_patched.
  - rewrite read_bytes_answered. apply read_patched.
  - intros a Ha. apply answered_covers, Hcov, Ha.
  - intros a Hne Hnx. rewrite mem_answered, !patched_mem.
    rewrite !in_range_false by lia. apply mem_answered.
  - intros pg Hpg. rewrite perms_answered, !perms_patched, perms_answered.
    cbn [andb].
    assert (area mod 4096 = 0 /\ 0 <= area) as [Hal Ha0].
    { subst area.
      rewrite hook_area_eq by (unfold hook_size; lia). cbn [fst].
      destruct (page_floor_bounds entry ltac:(lia)) as [Hb Hm].
      split; [exact Hm|]. rewrite page_floor_spec by lia.
      pose proof (Z.div_pos entry 4096 ltac:(lia) ltac:(lia)). lia. }
    pose proof (Z.div_mod area 4096 ltac:(lia)) as Hdm.
    rewrite in_range_false'; [reflexivity|].
    destruct Hpg as [Hpg|Hpg]; [left | right; exact Hpg]. lia.
  - apply same_kernel_trans with
      (patched (patched (answered w true area bytes PROT_RWX)
                  entry entry_trampoline false) exit exit_trampoline false).
    + apply same_kernel_trans with (answered w true area bytes PROT_RWX);
        [now apply same_kernel_answered|].
      eapply same_kernel_trans; apply patched_same_kernel.
    + apply same_kernel_answered.
      cbn [mprotect_fails answered patched with_byte].
      now rewrite Hf.
Qed.

Lemma setup_hook_with_perms_ok (hook fnptr : Z) (jump : bool) (w : world) :
  valid_hook hook ->
  mprotect_fails w = [] ->
  exists w',
    setup_hook_with_perms hook fnptr jump w = Done tt w'
    /\ same_kernel w w'
    /\ read_bytes w' hook 13 = hook_code fnptr jump
    /\ (forall other,
          other + 13 <= hook \/ hook + 13 <= other ->
          read_bytes w' other 13 = read_bytes w other 13).
Proof.
  intros Hv Hf. eexists.
  split; [now apply setup_hook_with_perms_eq|].
  set (area := fst (hook_area hook hook)).
  set (bytes := snd (hook_area hook hook)).
  split; [|split].
  - apply same_kernel_trans with
      (patched (answered w true area bytes PROT_RWX) hook fnptr jump).
    + apply same_kernel_trans with (answered w true area bytes PROT_RWX);
        [now apply same_kernel_answered | apply patched_same_kernel].
    + apply same_kernel_answered.
      cbn [mprotect_fails answered patched with_byte]. now rewrite Hf.
  - rewrite read_bytes_answered. apply read_patched.
  - intros other Hd.
    rewrite read_bytes_answered, read_patched_other by exact Hd.
    apply read_bytes_answered.
Qed.

Lemma xtrace_setup_mach_kernel
    (entry exit entry_trampoline exit_trampoline : Z) (w : world) :
  valid_hook entry -> valid_hook exit -> entry <= exit ->
  mprotect_fails w = [] ->
  exists w',
    xtrace_setup_mach entry exit entry_trampoline exit_trampoline w
      = Done tt w'
    /\ same_kernel w w'.
Proof.
  intros Hve Hvx Hle Hf. eexists.
  split; [now apply xtrace_setup_mach_eq|].
  set (area := fst (hook_area entry exit)).
  set (bytes := snd (hook_area entry exit)).
  apply same_kernel_trans with
    (patched (patched (answered w true area bytes PROT_RWX)
                entry entry_trampoline false) exit exit_trampoline false).
  - apply same_kernel_trans with (answered w true area bytes PROT_RWX);
      [now apply same_kernel_answered|].
    eapply same_kernel_trans; apply patched_same_kernel.
  - apply same_kernel_answered.
    cbn [mprotect_fails answered patched with_byte]. now rewrite Hf.
Qed.

Section Setup.

Variables thread_exit execve_inject postfork_child : Z.
Variables thread_exit_hook execve_inject_hook postfork_child_hook : Z.

(** X7: with every protection change granted, [xtrace_setup_misc_hooks]
    turns the three auxiliary slots into jumps (not calls) to the thread-exit,
    execve-injection and post-fork hooks, provided the slots do not
    overlap. *)
Theorem misc_hooks_are_jumps (w : world) :
  valid_hook thread_exit -> valid_hook execve_inject ->
  valid_hook postfork_child ->
  thread_exit + 13 <= execve_inject \/ execve_inject + 13 <= thread_exit ->
  thread_exit + 13 <= postfork_child \/ postfork_child + 13 <= thread_exit ->
  execve_inject + 13 <= postfork_child
  \/ postfork_child + 13 <= execve_inject ->
  mprotect_fails w = [] ->
  exists w',
    xtrace_setup_misc_hooks thread_exit execve_inject postfork_child
      thread_exit_hook execve_inject_hook postfork_child_hook w = Done tt w'
    /\ read_bytes w' thread_exit 13 = hook_code thread_exit_hook true
    /\ read_bytes w' execve_inject 13 = hook_code execve_inject_hook true
    /\ read_bytes w' postfork_child 13 = hook_code postfork_child_hook true
    /\ same_kernel w w'.
Proof.
  intros H1 H2 H3 D12 D13 D23 Hf. unfold xtrace_setup_misc_hooks.
  destruct (setup_hook_with_perms_ok thread_exit thread_exit_hook true w H1 Hf)
    as (w1 & E1 & K1 & R1 & O1).
  rewrite hook_bind_eq, E1.
  assert (Hf1 : mprotect_fails w1 = []) by (destruct K1; congruence).
  destruct (setup_hook_with_perms_ok execve_inject execve_inject_hook true
              w1 H2 Hf1) as (w2 & E2 & K2 & R2 & O2).
  rewrite hook_bind_eq, E2.
  assert (Hf2 : mprotect_fails w2 = []) by (destruct K2; congruence).
  destruct (setup_hook_with_perms_ok postfork_child postfork_child_hook true
              w2 H3 Hf2) as (w3 & E3 & K3 & R3 & O3).
  exists w3. split; [exact E3|].
  split; [rewrite O3, O2 by lia; exact R1|].
  split; [rewrite O3 by lia; exact R2|].
  split; [exact R3|].
  eapply same_kernel_trans; [exact K1|].
  eapply same_kernel_trans; [exact K2 | exact K3].
Qed.

Variables mach_entry mach_exit bsd_entry bsd_exit : Z.
Variables mach_entry_trampoline mach_exit_trampoline
          bsd_entry_trampoline bsd_exit_trampoline : Z.

Hypothesis mach_hooks :
  valid_hook mach_entry /\ valid_hook mach_exit /\ mach_entry <= mach_exit.
Hypothesis bsd_hooks :
  valid_hook bsd_entry /\ valid_hook bsd_exit /\ bsd_entry <= bsd_exit.
Hypothesis misc_hooks :
  valid_hook thread_exit /\ valid_hook execve_inject
  /\ valid_hook postfork_child.

(** The installation part of [xtrace_setup] returns and leaves the kernel
    state alone when every protection change is granted. *)
Lemma all_hooks_installed (w : world) :
  mprotect_fails w = [] ->
  exists w',
    (xtrace_setup_mach mach_entry mach_exit mach_entry_trampoline
       mach_exit_trampoline;;
     xtrace_setup_bsd bsd_entry bsd_exit bsd_entry_trampoline
       bsd_exit_trampoline;;
     xtrace_setup_misc_hooks thread_exit execve_inject postfork_child
       thread_exit_hook execve_inject_hook postfork_child_hook) w
    = Done tt w'
    /\ same_kernel w w'.
Proof using mach_hooks bsd_hooks misc_hooks.
  intros Hf.
  destruct mach_hooks as (M1 & M2 & M3), bsd_hooks as (B1 & B2 & B3),
    misc_hooks as (X1 & X2 & X3).
  destruct (xtrace_setup_mach_kernel mach_entry mach_exit
              mach_entry_trampoline mach_exit_trampoline w M1 M2 M3 Hf)
    as (w1 & E1 & K1).
  rewrite hook_bind_eq, E1.
  assert (Hf1 : mprotect_fails w1 = []) by (destruct K1; congruence).
  destruct (xtrace_setup_mach_kernel bsd_entry bsd_exit
              bsd_entry_trampoline bsd_exit_trampoline w1 B1 B2 B3 Hf1)
    as (w2 & E2 & K2).
  rewrite hook_bind_eq.
  change (xtrace_setup_bsd bsd_entry bsd_exit bsd_entry_trampoline
            bsd_exit_trampoline w1)
    with (xtrace_setup_mach bsd_entry bsd_exit bsd_entry_trampoline
            bsd_exit_trampoline w1).
  rewrite E2.
  assert (Hf2 : mprotect_fails w2 = []) by (destruct K2; congruence).
  unfold xtrace_setup_misc_hooks.
  destruct (setup_hook_with_perms_ok thread_exit thread_exit_hook true
              w2 X1 Hf2) as (w3 & E3 & K3 & _).
  rewrite hook_bind_eq, E3.
  assert (Hf3 : mprotect_fails w3 = []) by (destruct K3; congruence).
  destruct (setup_hook_with_perms_ok execve_inject execve_inject_hook true
              w3 X2 Hf3) as (w4 & E4 & K4 & _).
  rewrite hook_bind_eq, E4.
  assert (Hf4 : mprotect_fails w4 = []) by (destruct K4; congruence).
  destruct (setup_hook_with_perms_ok postfork_child postfork_child_hook true
              w4 X3 Hf4) as (w5 & E5 & K5 & _).
  exists w5. split; [exact E5|].
  apply same_kernel_trans with w1; [exact K1|].
  apply same_kernel_trans with w2; [exact K2|].
  apply same_kernel_trans with w3; [exact K3|].
  apply same_kernel_trans with w4; [exact K4 | exact K5].
Qed.

(** [xtrace_setup] is the installation of the hooks followed by the set-up
    of the signal stack. *)
Lemma xtrace_setup_split (w : world) :
  xtrace_setup mach_entry mach_exit bsd_entry bsd_exit
    mach_entry_trampoline mach_exit_trampoline
    bsd_entry_trampoline bsd_exit_trampoline
    thread_exit execve_inject postfork_child
    thread_exit_hook execve_inject_hook postfork_child_hook w
  = ((xtrace_setup_mach mach_entry mach_exit mach_entry_trampoline
        mach_exit_trampoline;;
      xtrace_setup_bsd bsd_entry bsd_exit bsd_entry_trampoline
        bsd_exit_trampoline;;
      xtrace_setup_misc_hooks thread_exit execve_inject postfork_child
        thread_exit_hook execve_inject_hook postfork_child_hook);;
     setup_altstack) w.
Proof.
  unfold xtrace_setup, setup_altstack.
  rewrite !hook_bind_eq.
  destruct (xtrace_setup_mach _ _ _ _ w) as [[] w1| |]; [|reflexivity..].
  cbv beta iota. rewrite !hook_bind_eq.
  destruct (xtrace_setup_bsd _ _ _ _ w1) as [[] w2| |]; [|reflexivity..].
  cbv beta iota. rewrite !hook_bind_eq.
  destruct (xtrace_setup_misc_hooks _ _ _ _ _ _ w2) as [[] w3| |];
    reflexivity.
Qed.

Lemma answered_below (w : world) (addr len a : Z) (p : prot) :
  addr mod 4096 = 0 -> 0 <= addr -> addr + len <= a -> len = 4096 ->
  perms (answered w true addr len p) (a / 4096) = perms w (a / 4096).
Proof.
  intros Hal H0 Ha ->. rewrite perms_answered. cbn [andb].
  pose proof (Z.div_mod addr 4096 ltac:(lia)).
  pose proof (Z.div_le_mono (addr + 4096) a 4096 ltac:(lia) Ha) as Hd.
  replace (addr + 4096) with (addr + 1 * 4096) in Hd by lia.
  rewrite Z.div_add in Hd by lia.
  rewrite in_range_false'; [reflexivity|]. right. lia.
Qed.

(** [setup_altstack] in its three outcomes. *)
Lemma setup_altstack_cases (w : world) :
  mprotect_fails w = [] ->
  let sp := mmap_answer w in
  (sp = MAP_FAILED ->
   setup_altstack w =
   Abort "xtrace: failed to allocate larger sigstack for main thread")
  /\ (sp <> MAP_FAILED -> sigaltstack_answer w < 0 ->
      setup_altstack w = Abort "failed to override sigaltstack")
  /\ (sp <> MAP_FAILED -> 0 <= sigaltstack_answer w ->
      0 <= sp -> sp mod 4096 = 0 ->
      exists w',
        setup_altstack w = Done tt w'
        /\ xtrace_ignore w' = false
        /\ altstack w' = Some (sp + 4096, 16384)
        /\ altstack_default_size w' = 16384
        /\ perms w' (sp / 4096) = PROT_NONE
        /\ (forall a, sp + 4096 <= a < sp + 4096 + 16384 ->
            perms w' (a / 4096) = PROT_RW)
        /\ mem w' = mem w).
Proof.
  intros Hf sp. unfold setup_altstack.
  rewrite hook_bind_eq. unfold mmap. cbv zeta. fold sp.
  destruct (Z.eqb_spec sp MAP_FAILED) as [E|E].
  { split; [|split]; try (intros; contradiction).
    intros _. cbv beta iota. rewrite hook_bind_eq.
    destruct (Z.eqb_spec sp MAP_FAILED); [reflexivity | contradiction]. }
  cbv beta iota. rewrite hook_bind_eq.
  destruct (Z.eqb_spec sp MAP_FAILED) as [|_]; [contradiction|].
  cbn [mret M_ret]. cbv beta iota.
  rewrite hook_bind_eq. unfold mprotect. cbn [mprotect_fails].
  rewrite Hf. cbv beta iota.
  rewrite hook_bind_eq. unfold _sigaltstack_for_xtrace.
  cbn [sigaltstack_answer answered]. cbv zeta.
  split; [intros; contradiction|].
  destruct (Z.ltb_spec (sigaltstack_answer w) 0) as [Hneg|Hpos].
  { split; [|intros; lia]. intros _ _. cbv beta iota.
    rewrite hook_bind_eq.
    destruct (Z.ltb_spec (sigaltstack_answer w) 0); [reflexivity | lia]. }
  split; [intros; lia|]. intros _ _ H0 Hal. cbv beta iota.
  rewrite hook_bind_eq.
  destruct (Z.ltb_spec (sigaltstack_answer w) 0) as [|_]; [lia|].
  cbn [mret M_ret]. cbv beta iota. rewrite hook_bind_eq.
  eexists. split; [reflexivity|].
  split; [reflexivity|]. split; [reflexivity|]. split; [reflexivity|].
  cbn [perms mem set_xtrace_ignore _sigaltstack_set_default_size_for_xtrace
       answered andb].
  subst sp. set (sp := mmap_answer w) in *. clearbody sp.
  pose proof (Z.div_mod sp 4096 ltac:(lia)).
  split; [|split; [|reflexivity]].
  - rewrite range_test'; [reflexivity|]. lia.
  - intros a Ha.
    pose proof (Z.div_le_mono (sp + 4096) a 4096 ltac:(lia) ltac:(lia))
      as Hd.
    replace (sp + 4096) with (sp + 1 * 4096) in Hd by lia.
    rewrite Z.div_add in Hd by lia.
    pose proof (Z.mul_div_le a 4096 ltac:(lia)).
    rewrite in_range_false' by (right; lia).
    rewrite range_test'; [reflexivity|]. lia.
Qed.

(** X8: when the hooks are in place and the kernel grants every request,
    [xtrace_setup] returns with tracing enabled ([xtrace_ignore] cleared), a
    16 KiB alternate signal stack installed one page above the start of the
    new mapping, that first page made inaccessible as a guard, every page of
    the stack read+write, and 16 KiB recorded as the stack size of future
    threads. *)
Theorem xtrace_setup_succeeds (w : world) :
  mprotect_fails w = [] ->
  mmap_answer w <> MAP_FAILED ->
  0 <= mmap_answer w -> mmap_answer w mod 4096 = 0 ->
  0 <= sigaltstack_answer w ->
  exists w',
    xtrace_setup mach_entry mach_exit bsd_entry bsd_exit
      mach_entry_trampoline mach_exit_trampoline
      bsd_entry_trampoline bsd_exit_trampoline
      thread_exit execve_inject postfork_child
      thread_exit_hook execve_inject_hook postfork_child_hook w = Done tt w'
    /\ xtrace_ignore w' = false
    /\ altstack w' = Some (mmap_answer w + 4096, 16384)
    /\ altstack_default_size w' = 16384
    /\ perms w' (mmap_answer w / 4096) = PROT_NONE
    /\ (forall a,
          mmap_answer w + 4096 <= a < mmap_answer w + 4096 + 16384 ->
          perms w' (a / 4096) = PROT_RW).
Proof using mach_hooks bsd_hooks misc_hooks.
  intros Hf Hne H0 Hal Hsig.
  destruct (all_hooks_installed w Hf) as (w5 & E5 & K5).
  destruct K5 as (K1 & K2 & K3 & _).
  rewrite xtrace_setup_split, hook_bind_eq, E5.
  destruct (setup_altstack_cases w5) as (_ & _ & Hok); [congruence|].
  rewrite K2, K3 in Hok.
  destruct (Hok Hne Hsig H0 Hal) as (w' & E & P1 & P2 & P3 & P4 & P5 & _).
  exists w'. repeat split; assumption.
Qed.

(** X9: with the hooks in place, [xtrace_setup] calls [xtrace_abort] when
    the mapping for the signal stack fails, and when the mapping succeeds
    but installing the stack fails; in neither case does it return, so
    tracing is never enabled without the enlarged stack. *)
Theorem xtrace_setup_aborts (w : world) :
  mprotect_fails w = [] ->
  (mmap_answer w = MAP_FAILED ->
   xtrace_setup mach_entry mach_exit bsd_entry bsd_exit
     mach_entry_trampoline mach_exit_trampoline
     bsd_entry_trampoline bsd_exit_trampoline
     thread_exit execve_inject postfork_child
     thread_exit_hook execve_inject_hook postfork_child_hook w
   = Abort "xtrace: failed to allocate larger sigstack for main thread")
  /\ (mmap_answer w <> MAP_FAILED -> sigaltstack_answer w < 0 ->
      xtrace_setup mach_entry mach_exit bsd_entry bsd_exit
        mach_entry_trampoline mach_exit_trampoline
        bsd_entry_trampoline bsd_exit_trampoline
        thread_exit execve_inject postfork_child
        thread_exit_hook execve_inject_hook postfork_child_hook w
      = Abort "failed to override sigaltstack").
Proof using mach_hooks bsd_hooks misc_hooks.
  intros Hf.
  destruct (all_hooks_installed w Hf) as (w5 & E5 & K5).
  destruct K5 as (K1 & K2 & K3 & _).
  rewrite xtrace_setup_split, hook_bind_eq, E5.
  destruct (setup_altstack_cases w5) as (Hmap & Hsig & _); [congruence|].
  rewrite K2 in Hmap, Hsig. rewrite K3 in Hsig.
  split; assumption.
Qed.

End Setup.

End HookMore.

Lemma setup_hook_writes_region_witness :
  exists w',
    Hook.setup_hook 0x2000 0x7000 true
      (Hook.answered (Hook.text_world [] 0x100000 0) true 0x2000 4096
         Hook.PROT_RWX) = Hook.Done tt w'
    /\ HookCode.read_bytes w' 0x2000 13 = HookCode.hook_code 0x7000 true.
Proof.
  destruct (setup_hook_writes_region 0x2000 0x7000 true
              (Hook.answered (Hook.text_world [] 0x100000 0) true 0x2000 4096
                 Hook.PROT_RWX))
    as (w' & E & R & _).
  - intros a Ha. unfold Hook.hook_size in Ha.
    rewrite answered_covers by lia. reflexivity.
  - exists w'. split; [exact E | exact R].
Defined.

Lemma setup_hook_target_witness :
  exists w',
    Hook.setup_hook 0x2000 0x7fff12345678 false
      (Hook.answered (Hook.text_world [] 0x100000 0) true 0x2000 4096
         Hook.PROT_RWX) = Hook.Done tt w'
    /\ HookCode.load64 w' (0x2000 + 2) = 0x7fff12345678.
Proof.
  apply (setup_hook_target 0x2000 0x7fff12345678 false).
  - intros a Ha. unfold Hook.hook_size in Ha.
    rewrite answered_covers by lia. reflexivity.
  - lia.
Defined.

Lemma setup_hook_faults_witness :
  exists a,
    0x2000 <= a < 0x2000 + Hook.hook_size
    /\ Hook.setup_hook 0x2000 0x7000 true (Hook.text_world [] 0x100000 0)
       = Hook.Segv a.
Proof.
  destruct (setup_hook_faults 0x2000 0x7000 true
              (Hook.text_world [] 0x100000 0))
    as (a & Ha & _ & E).
  - exists 0x2000. split; [unfold Hook.hook_size; lia | reflexivity].
  - exists a. split; [exact Ha | exact E].
Defined.

Lemma valid_hook_example (hook : Z) :
  0 <= hook < 2 ^ 32 -> HookCode.valid_hook hook.
Proof. unfold HookCode.valid_hook, Hook.hook_size. lia. Qed.

Lemma syscall_hooks_installed_witness :
  exists w',
    Hook.xtrace_setup_mach 0x1ffa 0x2ffe 0x7000 0x7100
      (Hook.text_world [] 0x100000 0) = Hook.Done tt w'
    /\ HookCode.read_bytes w' 0x1ffa 13 = HookCode.hook_code 0x7000 false
    /\ HookCode.read_bytes w' 0x2ffe 13 = HookCode.hook_code 0x7100 false.
Proof.
  destruct (syscall_hooks_installed 0x1ffa 0x2ffe 0x7000 0x7100
              (Hook.text_world [] 0x100000 0))
    as (w' & E & _ & R1 & R2 & _).
  - apply valid_hook_example; lia.
  - apply valid_hook_example; lia.
  - unfold Hook.hook_size; lia.
  - reflexivity.
  - exists w'. split; [exact E|]. split; [exact R1 | exact R2].
Defined.

Lemma misc_hooks_are_jumps_witness :
  exists w',
    Hook.xtrace_setup_misc_hooks 0x5000 0x5100 0x5200 0x7400 0x7500 0x7600
      (Hook.text_world [] 0x100000 0) = Hook.Done tt w'
    /\ HookCode.read_bytes w' 0x5100 13 = HookCode.hook_code 0x7500 true.
Proof.
  destruct (misc_hooks_are_jumps 0x5000 0x5100 0x5200 0x7400 0x7500 0x7600
              (Hook.text_world [] 0x100000 0))
    as (w' & E & _ & R & _).
  - apply valid_hook_example; lia.
  - apply valid_hook_example; lia.
  - apply valid_hook_example; lia.
  - lia.
  - lia.
  - lia.
  - reflexivity.
  - exists w'. split; [exact E | exact R].
Defined.

Lemma xtrace_setup_succeeds_witness :
  exists w',
    Hook.xtrace_setup 0x1000 0x1100 0x3000 0x3100 0x7000 0x7100 0x7200 0x7300
      0x5000 0x5100 0x5200 0x7400 0x7500 0x7600
      (Hook.text_world [] 0x100000 0) = Hook.Done tt w'
    /\ Hook.xtrace_ignore w' = false
    /\ Hook.altstack w' = Some (0x101000, 16384).
Proof.
  destruct (xtrace_setup_succeeds 0x5000 0x5100 0x5200 0x7400 0x7500 0x7600
              0x1000 0x1100 0x3000 0x3100 0x7000 0x7100 0x7200 0x7300)
    with (w := Hook.text_world [] 0x100000 0)
    as (w' & E & I & A & _).
  - repeat split; try (apply valid_hook_example); lia.
  - repeat split; try (apply valid_hook_example); lia.
  - repeat split; apply valid_hook_example; lia.
  - reflexivity.
  - discriminate.
  - cbn; lia.
  - reflexivity.
  - cbn; lia.
  - exists w'. split; [exact E|]. split; [exact I | exact A].
Defined.

Lemma xtrace_setup_aborts_witness :
  Hook.xtrace_setup 0x1000 0x1100 0x3000 0x3100 0x7000 0x7100 0x7200 0x7300
    0x5000 0x5100 0x5200 0x7400 0x7500 0x7600
    (Hook.text_world [] 0x100000 (-1))
  = Hook.Abort "failed to override sigaltstack".
Proof.
  destruct (xtrace_setup_aborts 0x5000 0x5100 0x5200 0x7400 0x7500 0x7600
              0x1000 0x1100 0x3000 0x3100 0x7000 0x7100 0x7200 0x7300)
    with (w := Hook.text_world [] 0x100000 (-1)) as (_ & Hsig).
  - repeat split; try (apply valid_hook_example); lia.
  - repeat split; try (apply valid_hook_example); lia.
  - repeat split; apply valid_hook_example; lia.
  - reflexivity.
  - apply Hsig; [discriminate | cbn; lia].
Defined.


(* ===================================================================== *)
(** * Further properties: the nested-call tracker *)
(* ===================================================================== *)

Section TrackerMore.

Import Tracker TrackerSpec.

Variable g : globals.
Variable sys_thread_selfid : Z.
Variable defs : Z -> calldef.
Variable type : string.
Hypothesis tracing : xtrace_ignore g = false.

(** What an [Entry] does to a thread whose level indexes [nrs]. *)
Lemma entry_facts (nr : Z) (args : list Z) (t : thread) :
  0 <= current_level t < 64 ->
  let pre :=
    (previous_level t <? current_level t)
    && negb (xtrace_split_entry_and_exit g) in
  let line :=
    ((if pre then "" else log t)
     ++ header_text g sys_thread_selfid defs type (current_level t) nr args)
    %string in
  exists t',
    handle_generic_entry g sys_thread_selfid defs type nr args t = Ok tt t'
    /\ current_level t' = current_level t + 1
    /\ previous_level t' = current_level t
    /\ nrs t' = <[Z.to_nat (current_level t) := nr]> (nrs t)
    /\ log t' = (if xtrace_split_entry_and_exit g then "" else line)
    /\ emitted t' =
       emitted t
       ++ (if pre then [(log t ++ newline)%string] else [])
       ++ (if xtrace_split_entry_and_exit g
           then [(line ++ newline)%string] else []).
Proof using tracing.
  intros Hr pre line.
  rewrite (handle_generic_entry_eq g sys_thread_selfid defs type tracing).
  cbv zeta. rewrite range_test by exact Hr. fold pre.
  eexists. split; [reflexivity|].
  subst line. destruct pre, (xtrace_split_entry_and_exit g);
    cbn [with_levels flushed log_app with_slot current_level previous_level
         nrs log emitted];
    rewrite ?app_nil_r, <- ?app_assoc; repeat split.
Qed.

(** What an [Exit] does to a thread with an open call. *)
Lemma exit_facts (retval : Z) (force_split : bool) (t : thread) (nr : Z) :
  0 < current_level t <= 64 ->
  nrs t !! Z.to_nat (current_level t - 1) = Some nr ->
  let split :=
    xtrace_split_entry_and_exit g
    || (if previous_level t >? current_level t then true else force_split) in
  exists t',
    handle_generic_exit g sys_thread_selfid defs type retval force_split t
      = Ok tt t'
    /\ current_level t' = current_level t - 1
    /\ previous_level t' = current_level t
    /\ nrs t' = nrs t
    /\ log t' = ""
    /\ emitted t' =
       emitted t
       ++ [(log t
            ++ (if split
                then dimmed_header g sys_thread_selfid defs type
                       (current_level t - 1) nr
                else "")
            ++ result_text g defs nr retval ++ newline)%string].
Proof using tracing.
  intros Hr Hnr split.
  rewrite (handle_generic_exit_eq g sys_thread_selfid defs type tracing).
  cbv zeta. rewrite range_test by lia. rewrite Hnr. fold split.
  eexists. split; [reflexivity|].
  unfold dimmed_header, newline. destruct split;
    cbn [with_levels flushed log_app current_level previous_level nrs log
         emitted];
    rewrite ?string_app_assoc; repeat split.
Qed.

Lemma nrs_lookup (t : thread) (i : Z) :
  length (nrs t) = 64%nat -> 0 <= i < 64 ->
  exists nr, nrs t !! Z.to_nat i = Some nr.
Proof.
  intros Hlen Hi. apply lookup_lt_is_Some_2. lia.
Qed.

Lemma run_ok_nested (es : list event) :
  forall t t',
    run g sys_thread_selfid defs type es t = Ok tt t' ->
    nested (current_level t) es = true.
Proof using tracing.
  induction es as [|e es IH]; intros t t' H; [reflexivity|].
  cbn [run] in H. rewrite bind_eq in H.
  destruct e as [nr args|retval force_split]; cbn [step nested] in *.
  - rewrite (handle_generic_entry_eq g _ defs type tracing) in H.
    cbv zeta in H.
    destruct ((0 <=? current_level t) && (current_level t <? 64)) eqn:E;
      [|discriminate H].
    apply andb_prop in E as [_ E]. rewrite E. cbn [andb].
    apply IH in H. exact H.
  - rewrite (handle_generic_exit_eq g _ defs type tracing) in H.
    cbv zeta in H.
    destruct ((0 <=? current_level t - 1) && (current_level t - 1 <? 64))
      eqn:E; [|discriminate H].
    destruct (nrs t !! Z.to_nat (current_level t - 1)); [|discriminate H].
    apply andb_prop in E as [E _]. apply Z.leb_le in E.
    replace (0 <? current_level t) with true
      by (symmetry; apply Z.ltb_lt; lia).
    cbn [andb]. apply IH in H.
    destruct (xtrace_split_entry_and_exit g || _) in H; exact H.
Qed.

(** X10: a sequence of events is handled to its end, without an access
    outside the 64 slots of [nrs], exactly when every [Exit] closes an open
    [Entry] and no more than 64 calls are ever open. *)
Theorem run_returns_iff_nested (es : list event) :
  (exists t',
     run g sys_thread_selfid defs type es initial_thread = Ok tt t')
  <-> nested 0 es = true.
Proof using tracing.
  split.
  - intros [t' H]. exact (run_ok_nested es initial_thread t' H).
  - intros Hn.
    destruct (run_nested g sys_thread_selfid defs type tracing es
                initial_thread) as (t' & Hrun & _);
      [cbn; lia | reflexivity | exact Hn |].
    exists t'. exact Hrun.
Qed.

Lemma run_lines (es : list event) :
  xtrace_split_entry_and_exit g = false ->
  forall t,
    0 <= current_level t <= 64 ->
    length (nrs t) = 64%nat ->
    nested (current_level t) es = true ->
    exists t',
      run g sys_thread_selfid defs type es t = Ok tt t'
      /\ length (emitted t')
         = (length (emitted t)
            + lines (previous_level t <? current_level t)%Z es)%nat.
Proof using tracing.
  intros Hsplit.
  induction es as [|e es IH]; intros t Hr Hlen Hn.
  - exists t. split; [reflexivity | cbn [lines]; lia].
  - cbn [run]. rewrite bind_eq.
    destruct e as [nr args|retval force_split]; cbn [nested step lines] in *;
      apply andb_prop in Hn as [Hd Hn]; apply Z.ltb_lt in Hd.
    + destruct (entry_facts nr args t ltac:(lia))
        as (t1 & -> & Hc & Hp & Hnrs & _ & Hem).
      rewrite Hsplit in Hem. cbn [negb] in Hem.
      rewrite andb_true_r, app_nil_r in Hem.
      destruct (IH t1) as (t' & Hrun & Hcount);
        [lia | rewrite Hnrs, length_insert; exact Hlen
         | rewrite Hc; exact Hn |].
      exists t'. split; [exact Hrun|]. rewrite Hcount, Hem, length_app.
      replace (previous_level t1 <? current_level t1) with true
        by (symmetry; apply Z.ltb_lt; lia).
      destruct (previous_level t <? current_level t); cbn [length]; lia.
    + destruct (nrs_lookup t (current_level t - 1) Hlen ltac:(lia))
        as [nr Hnr].
      destruct (exit_facts retval force_split t nr ltac:(lia) Hnr)
        as (t1 & -> & Hc & Hp & Hnrs & _ & Hem).
      destruct (IH t1) as (t' & Hrun & Hcount);
        [lia | congruence | replace (current_level t1) with
                              (current_level t - 1) by lia; exact Hn |].
      exists t'. split; [exact Hrun|]. rewrite Hcount, Hem, length_app.
      replace (previous_level t1 <? current_level t1) with false
        by (symmetry; apply Z.ltb_ge; lia).
      cbn [length]. lia.
Qed.

(** X11: with split mode off, a well-nested sequence of events produces one
    line per [Exit] and one more line for every [Entry] that directly
    follows an [Entry] (the pending line of the call it interrupts), and
    nothing else. *)
Theorem merged_mode_line_count (es : list event) :
  xtrace_split_entry_and_exit g = false ->
  nested 0 es = true ->
  exists t',
    run g sys_thread_selfid defs type es initial_thread = Ok tt t'
    /\ length (emitted t') = lines false es.
Proof using tracing.
  intros Hsplit Hn.
  destruct (run_lines es Hsplit initial_thread) as (t' & Hrun & Hcount);
    [cbn; lia | reflexivity | exact Hn |].
  exists t'. split; [exact Hrun | exact Hcount].
Qed.

Lemma run_split (es : list event) :
  xtrace_split_entry_and_exit g = true ->
  forall t,
    0 <= current_level t <= 64 ->
    length (nrs t) = 64%nat ->
    nested (current_level t) es = true ->
    exists t',
      run g sys_thread_selfid defs type es t = Ok tt t'
      /\ length (emitted t') = (length (emitted t) + length es)%nat
      /\ Forall (fun s => log s = "")
           (states g sys_thread_selfid defs type es t).
Proof using tracing.
  intros Hsplit.
  induction es as [|e es IH]; intros t Hr Hlen Hn.
  - exists t. split; [reflexivity|]. split; [cbn [length]; lia | constructor].
  - cbn [run states]. rewrite bind_eq.
    destruct e as [nr args|retval force_split]; cbn [nested step] in *;
      apply andb_prop in Hn as [Hd Hn]; apply Z.ltb_lt in Hd.
    + destruct (entry_facts nr args t ltac:(lia))
        as (t1 & -> & Hc & Hp & Hnrs & Hlog & Hem).
      rewrite Hsplit in Hem, Hlog. cbn [negb] in Hem.
      rewrite andb_false_r in Hem. cbn [app] in Hem.
      destruct (IH t1) as (t' & Hrun & Hcount & Hall);
        [lia | rewrite Hnrs, length_insert; exact Hlen
         | rewrite Hc; exact Hn |].
      exists t'. split; [exact Hrun|].
      split; [rewrite Hcount, Hem, length_app; cbn [length]; lia|].
      constructor; assumption.
    + destruct (nrs_lookup t (current_level t - 1) Hlen ltac:(lia))
        as [nr Hnr].
      destruct (exit_facts retval force_split t nr ltac:(lia) Hnr)
        as (t1 & -> & Hc & Hp & Hnrs & Hlog & Hem).
      destruct (IH t1) as (t' & Hrun & Hcount & Hall);
        [lia | congruence | replace (current_level t1) with
                              (current_level t - 1) by lia; exact Hn |].
      exists t'. split; [exact Hrun|].
      split; [rewrite Hcount, Hem, length_app; cbn [length]; lia|].
      constructor; assumption.
Qed.

(** X12: with split mode on, every [Entry] and every [Exit] of a well-nested
    sequence emits its own line at once: the number of lines is the number
    of events, and the log buffer is empty after each event. *)
Theorem split_mode_line_per_event (es : list event) :
  xtrace_split_entry_and_exit g = true ->
  nested 0 es = true ->
  exists t',
    run g sys_thread_selfid defs type es initial_thread = Ok tt t'
    /\ length (emitted t') = length es
    /\ Forall (fun s => log s = "")
         (states g sys_thread_selfid defs type es initial_thread).
Proof using tracing.
  intros Hsplit Hn.
  destruct (run_split es Hsplit initial_thread) as (t' & Hrun & Hc & Hall);
    [cbn; lia | reflexivity | exact Hn |].
  exists t'. split; [exact Hrun|]. split; [exact Hc | exact Hall].
Qed.

Lemma run_stack (es : list event) :
  forall t,
    0 <= current_level t <= 64 ->
    length (nrs t) = 64%nat ->
    nested (current_level t) es = true ->
    exists t',
      run g sys_thread_selfid defs type es t = Ok tt t'
      /\ 0 <= current_level t' <= 64
      /\ length (nrs t') = 64%nat
      /\ take (Z.to_nat (current_level t')) (nrs t')
         = open_calls (take (Z.to_nat (current_level t)) (nrs t)) es.
Proof using tracing.
  induction es as [|e es IH]; intros t Hr Hlen Hn.
  - exists t. repeat split; (lia || assumption).
  - cbn [run]. rewrite bind_eq.
    destruct e as [nr args|retval force_split];
      cbn [nested step open_calls] in *;
      apply andb_prop in Hn as [Hd Hn]; apply Z.ltb_lt in Hd.
    + destruct (entry_facts nr args t ltac:(lia))
        as (t1 & -> & Hc & Hp & Hnrs & _ & _).
      destruct (IH t1) as (t' & Hrun & Hr' & Hlen' & Hst);
        [lia | rewrite Hnrs, length_insert; exact Hlen
         | rewrite Hc; exact Hn |].
      exists t'. repeat split; try (lia || assumption).
      rewrite Hst, Hc, Hnrs. f_equal.
      replace (Z.to_nat (current_level t + 1))
        with (S (Z.to_nat (current_level t))) by lia.
      rewrite (take_S_r _ _ nr)
        by (apply list_lookup_insert_eq; lia).
      rewrite take_insert_ge by lia. reflexivity.
    + destruct (nrs_lookup t (current_level t - 1) Hlen ltac:(lia))
        as [nr Hnr].
      destruct (exit_facts retval force_split t nr ltac:(lia) Hnr)
        as (t1 & -> & Hc & Hp & Hnrs & _ & _).
      destruct (IH t1) as (t' & Hrun & Hr' & Hlen' & Hst);
        [lia | congruence | replace (current_level t1) with
                              (current_level t - 1) by lia; exact Hn |].
      exists t'. repeat split; try (lia || assumption).
      rewrite Hst, Hc, Hnrs. f_equal.
      rewrite length_take, take_take. f_equal. lia.
Qed.

(** X13: after a well-nested sequence of events the first [current_level]
    slots of [nrs] hold the numbers of the calls still open, outermost
    first; an [Exit] that follows returns and formats its return value for
    the innermost of them, the call it closes. *)
Theorem exit_reports_innermost_call (es : list event) (outer : list Z)
    (nr retval : Z) (force_split : bool) :
  nested 0 es = true ->
  open_calls [] es = outer ++ [nr] ->
  exists t' t'' prefix,
    run g sys_thread_selfid defs type es initial_thread = Ok tt t'
    /\ take (Z.to_nat (current_level t')) (nrs t') = outer ++ [nr]
    /\ handle_generic_exit g sys_thread_selfid defs type retval force_split t'
       = Ok tt t''
    /\ take (Z.to_nat (current_level t'')) (nrs t'') = outer
    /\ emitted t'' =
       emitted t'
       ++ [(prefix ++ result_text g defs nr retval ++ newline)%string].
Proof using tracing.
  intros Hn Hopen.
  destruct (run_stack es initial_thread) as (t' & Hrun & Hr & Hlen & Hst);
    [cbn; lia | reflexivity | exact Hn |].
  change (take (Z.to_nat (current_level initial_thread)) (nrs initial_thread))
    with (@nil Z) in Hst.
  rewrite Hopen in Hst.
  assert (Hl : length (take (Z.to_nat (current_level t')) (nrs t'))
               = S (length outer))
    by (rewrite Hst, length_app; cbn [length]; lia).
  rewrite length_take in Hl.
  assert (Hnr : nrs t' !! Z.to_nat (current_level t' - 1) = Some nr).
  { rewrite <- (lookup_take_lt (nrs t') (Z.to_nat (current_level t')))
      by lia.
    rewrite Hst.
    replace (Z.to_nat (current_level t' - 1)) with (length outer + 0)%nat
      by lia.
    rewrite lookup_app_r by lia.
    replace (length outer + 0 - length outer)%nat with 0%nat by lia.
    reflexivity. }
  destruct (exit_facts retval force_split t' nr ltac:(lia) Hnr)
    as (t'' & Hexit & Hc & _ & Hnrs & _ & Hem).
  exists t', t''. eexists.
  split; [exact Hrun|]. split; [exact Hst|]. split; [exact Hexit|].
  split.
  - rewrite Hc, Hnrs.
    replace (Z.to_nat (current_level t' - 1)) with (length outer) by lia.
    transitivity (take (length outer)
                    (take (Z.to_nat (current_level t')) (nrs t'))).
    + rewrite take_take. f_equal. lia.
    + rewrite Hst, take_app_length. reflexivity.
  - rewrite Hem, string_app_assoc. reflexivity.
Qed.

(** X14: with split mode off, a call [a] interrupted by a nested call [b]
    gives three lines: the header of [a] alone, flushed when [b] enters;
    the whole line of [b]; and, for the return of [a], its name again in
    gray with empty parentheses followed by its return value, indented as
    its header was. *)
Theorem nested_call_three_lines (a b : Z) (args_a args_b : list Z)
    (ret_a ret_b : Z) :
  xtrace_split_entry_and_exit g = false ->
  exists t',
    run g sys_thread_selfid defs type
      [Entry a args_a; Entry b args_b; Exit ret_b false; Exit ret_a false]
      initial_thread = Ok tt t'
    /\ emitted t' =
       [ (header_text g sys_thread_selfid defs type 0 a args_a
          ++ newline)%string;
         (header_text g sys_thread_selfid defs type 1 b args_b
          ++ result_text g defs b ret_b ++ newline)%string;
         (dimmed_header g sys_thread_selfid defs type 0 a
          ++ result_text g defs a ret_a ++ newline)%string ]
    /\ log t' = ""
    /\ current_level t' = 0.
Proof using tracing.
  intros Hsplit. cbn [run]. rewrite bind_eq. cbn [step].
  destruct (entry_facts a args_a initial_thread ltac:(cbn; lia))
    as (t1 & -> & Hc1 & Hp1 & Hn1 & Hl1 & He1).
  cbv beta iota. rewrite bind_eq.
  rewrite Hsplit in Hl1, He1.
  cbn -[header_text] in Hc1, Hp1, Hn1, Hl1, He1.
  destruct (entry_facts b args_b t1 ltac:(lia))
    as (t2 & -> & Hc2 & Hp2 & Hn2 & Hl2 & He2).
  cbv beta iota. rewrite bind_eq.
  rewrite Hsplit, Hc1, Hp1 in Hl2, He2. rewrite He1, Hl1 in He2.
  rewrite Hc1 in Hc2, Hp2, Hn2.
  cbn -[header_text] in Hc2, Hn2, Hl2, He2.
  assert (Hb : nrs t2 !! Z.to_nat (current_level t2 - 1) = Some b)
    by (rewrite Hc2, Hn2, Hn1; reflexivity).
  destruct (exit_facts ret_b false t2 b ltac:(lia) Hb)
    as (t3 & -> & Hc3 & Hp3 & Hn3 & Hl3 & He3).
  cbv beta iota. rewrite bind_eq.
  rewrite Hsplit, Hc2, Hp2, He2, Hl2 in He3. rewrite Hc2 in Hc3, Hp3.
  cbn -[header_text result_text newline] in Hc3, He3.
  assert (Ha : nrs t3 !! Z.to_nat (current_level t3 - 1) = Some a)
    by (rewrite Hc3, Hn3, Hn2, Hn1; reflexivity).
  destruct (exit_facts ret_a false t3 a ltac:(lia) Ha)
    as (t4 & -> & Hc4 & Hp4 & Hn4 & Hl4 & He4).
  cbv beta iota.
  rewrite Hsplit, Hc3, Hp3, He3, Hl3 in He4. rewrite Hc3 in Hc4.
  cbn -[header_text result_text dimmed_header newline] in Hc4, He4.
  exists t4. split; [reflexivity|]. split; [exact He4|].
  split; [exact Hl4 | exact Hc4].
Qed.

End TrackerMore.

Lemma run_returns_iff_nested_witness :
  Tracker.xtrace_ignore Tracker.plain_globals = false
  /\ ((exists t',
         Tracker.run Tracker.plain_globals 7 Tracker.no_defs "bsd"
           [Tracker.Entry 3 []; Tracker.Exit 0 false] Tracker.initial_thread
         = Tracker.Ok tt t')
      <-> Tracker.nested 0 [Tracker.Entry 3 []; Tracker.Exit 0 false] = true).
Proof.
  split; [reflexivity|].
  exact (run_returns_iff_nested Tracker.plain_globals 7 Tracker.no_defs "bsd"
           eq_refl [Tracker.Entry 3 []; Tracker.Exit 0 false]).
Defined.

Lemma merged_mode_line_count_witness :
  Tracker.nested 0 [Tracker.Entry 3 []; Tracker.Entry 4 [];
                    Tracker.Exit 0 false; Tracker.Exit 0 false] = true
  /\ exists t',
       Tracker.run Tracker.plain_globals 7 Tracker.no_defs "bsd"
         [Tracker.Entry 3 []; Tracker.Entry 4 [];
          Tracker.Exit 0 false; Tracker.Exit 0 false] Tracker.initial_thread
       = Tracker.Ok tt t'
       /\ length (Tracker.emitted t') = 3%nat.
Proof.
  split; [reflexivity|].
  exact (merged_mode_line_count Tracker.plain_globals 7 Tracker.no_defs "bsd"
           eq_refl
           [Tracker.Entry 3 []; Tracker.Entry 4 [];
            Tracker.Exit 0 false; Tracker.Exit 0 false] eq_refl eq_refl).
Defined.

Lemma split_mode_line_per_event_witness :
  Tracker.nested 0 [Tracker.Entry 3 []; Tracker.Exit 0 false] = true
  /\ exists t',
       Tracker.run TrackerSpec.split_globals 7 Tracker.no_defs "bsd"
         [Tracker.Entry 3 []; Tracker.Exit 0 false] Tracker.initial_thread
       = Tracker.Ok tt t'
       /\ length (Tracker.emitted t') = 2%nat.
Proof.
  split; [reflexivity|].
  destruct (split_mode_line_per_event TrackerSpec.split_globals 7
              Tracker.no_defs "bsd" eq_refl
              [Tracker.Entry 3 []; Tracker.Exit 0 false] eq_refl eq_refl)
    as (t' & Hrun & Hcount & _).
  exists t'. split; [exact Hrun | exact Hcount].
Defined.

Lemma exit_reports_innermost_call_witness :
  TrackerSpec.open_calls [] [Tracker.Entry 3 []; Tracker.Entry 4 []] = [3; 4]
  /\ exists t' t'',
       Tracker.run Tracker.plain_globals 7 Tracker.no_defs "bsd"
         [Tracker.Entry 3 []; Tracker.Entry 4 []] Tracker.initial_thread
       = Tracker.Ok tt t'
       /\ Tracker.handle_generic_exit Tracker.plain_globals 7 Tracker.no_defs
            "bsd" 10 false t' = Tracker.Ok tt t''
       /\ take (Z.to_nat (Tracker.current_level t'')) (Tracker.nrs t'') = [3].
Proof.
  split; [reflexivity|].
  destruct (exit_reports_innermost_call Tracker.plain_globals 7
              Tracker.no_defs "bsd" eq_refl
              [Tracker.Entry 3 []; Tracker.Entry 4 []] [3] 4 10 false
              eq_refl eq_refl)
    as (t' & t'' & prefix & Hrun & _ & Hexit & Hstack & _).
  exists t', t''. split; [exact Hrun|]. split; [exact Hexit | exact Hstack].
Defined.

Lemma nested_call_three_lines_witness :
  exists t',
    Tracker.run Tracker.plain_globals 7 Tracker.no_defs "bsd"
      [Tracker.Entry 3 []; Tracker.Entry 4 [];
       Tracker.Exit 0 false; Tracker.Exit 1 false] Tracker.initial_thread
    = Tracker.Ok tt t'
    /\ length (Tracker.emitted t') = 3%nat.
Proof.
  destruct (nested_call_three_lines Tracker.plain_globals 7 Tracker.no_defs
              "bsd" eq_refl 3 4 [] [] 1 0 eq_refl)
    as (t' & Hrun & Hlines & _).
  exists t'. split; [exact Hrun|]. rewrite Hlines. reflexivity.
Defined.


(* ===================================================================== *)
(** * Further properties: the environment block *)
(* ===================================================================== *)

Section EnvpMore.

Import Envp EnvpSpec.
Local Open Scope nat_scope.

Lemma starts_with_spec (key : list ascii) :
  forall s,
    starts_with key s = true
    <-> exists rest, s = map Init key ++ Init "="%char :: rest.
Proof.
  induction key as [|k key IH]; intros s.
  - destruct s as [|[c|] s]; cbn [starts_with map app].
    + split; [discriminate | intros [rest H]; discriminate H].
    + rewrite Ascii.eqb_eq. split.
      * intros ->. now exists s.
      * intros [rest [= -> _]]. reflexivity.
    + split; [discriminate | intros [rest H]; discriminate H].
  - destruct s as [|[c|] s]; cbn [starts_with map app].
    + split; [discriminate | intros [rest H]; discriminate H].
    + rewrite andb_true_iff, Ascii.eqb_eq, IH. split.
      * intros [-> [rest ->]]. now exists rest.
      * intros [rest [= -> ->]]. split; [reflexivity | now exists rest].
    + split; [discriminate | intros [rest H]; discriminate H].
Qed.

Lemma has_keyb_spec (key : list ascii) (e : chars) :
  has_keyb key e = true <-> has_key key e.
Proof. apply starts_with_spec. Qed.

Lemma has_keyb_false (key : list ascii) (e : chars) :
  has_keyb key e = false <-> ~ has_key key e.
Proof.
  rewrite <- has_keyb_spec. destruct (has_keyb key e); split; congruence.
Qed.

(** What [find_key] finds: the place of the first entry for [key]. *)
Lemma find_key_Some (key : list ascii) (es : list chars) :
  forall i e,
    find_key key es = Some (i, e) ->
    exists pre post,
      es = pre ++ e :: post /\ length pre = i
      /\ Forall (fun o => ~ has_key key o) pre /\ has_key key e.
Proof.
  induction es as [|o es IH]; intros i e H; [discriminate|].
  cbn [find_key] in H. destruct (has_keyb key o) eqn:E.
  - injection H as <- <-. exists [], es.
    repeat split; [constructor | now apply has_keyb_spec].
  - destruct (find_key key es) as [[j e']|]; [|discriminate].
    injection H as <- <-.
    destruct (IH j e' eq_refl) as (pre & post & -> & <- & Hno & He).
    exists (o :: pre), post. repeat split; [|exact He].
    constructor; [now apply has_keyb_false | exact Hno].
Qed.

Lemma find_key_None (key : list ascii) (es : list chars) :
  find_key key es = None -> Forall (fun o => ~ has_key key o) es.
Proof.
  induction es as [|o es IH]; intros H; [constructor|].
  cbn [find_key] in H. destruct (has_keyb key o) eqn:E; [discriminate|].
  destruct (find_key key es) as [[j e']|]; [discriminate|].
  constructor; [now apply has_keyb_false | now apply IH].
Qed.

Lemma find_key_first (key : list ascii) (pre : list chars) (e : chars)
    (post : list chars) :
  Forall (fun o => ~ has_key key o) pre -> has_key key e ->
  find_key key (pre ++ e :: post) = Some (length pre, e).
Proof.
  intros Hno He. induction Hno as [|o pre Ho Hno IH]; cbn [app find_key length].
  - now rewrite (proj2 (has_keyb_spec key e) He).
  - rewrite (proj2 (has_keyb_false key o) Ho), IH. reflexivity.
Qed.

Lemma find_key_absent (key : list ascii) (es : list chars) :
  Forall (fun o => ~ has_key key o) es -> find_key key es = None.
Proof.
  intros Hno. induction Hno as [|o es Ho Hno IH]; [reflexivity|].
  cbn [find_key]. rewrite (proj2 (has_keyb_false key o) Ho), IH. reflexivity.
Qed.

(** The loop of [envp_find] over a block finds what [find_key] finds. *)
Lemma envp_find_from_spec (key : list ascii) (es : list chars)
    (behind : list slot) (i : nat) :
  key_ok key -> Forall scannable es ->
  envp_find_from (block es behind) i (cbytes key) (length key)
  = Some (match find_key key es with
          | Some (j, _) => Some (i + j)
          | None => None
          end).
Proof.
  intros Hkey Hs. destruct (find_key key es) as [[j e]|] eqn:E.
  - destruct (find_key_Some key es j e E) as (pre & post & -> & <- & Hno & He).
    apply Forall_app in Hs as [Hs _].
    apply envp_find_from_first; assumption.
  - apply envp_find_from_none; [assumption | assumption |].
    now apply find_key_None.
Qed.

Lemma strlen_key (key : list ascii) :
  key_ok key -> strlen (cbytes key) = Some (length key).
Proof. intros [Hn _]. unfold cbytes. now apply strlen_cbytes. Qed.

Lemma block_lookup (es : list chars) (behind : list slot) (i : nat)
    (e : chars) :
  es !! i = Some e -> block es behind !! i = Some (Ptr e).
Proof.
  intros H. unfold block. rewrite lookup_app_l
    by (rewrite length_map; now apply lookup_lt_Some in H).
  rewrite list_lookup_fmap, H. reflexivity.
Qed.

Lemma has_key_strchr (key : list ascii) (e : chars) :
  key_ok key -> has_key key e ->
  strchr (cells e) "="%char = Some (Some (length key)).
Proof.
  intros [Hn He] [rest ->]. now apply strchr_found.
Qed.

Lemma has_key_scannable (key : list ascii) (e : chars) :
  key_ok key -> has_key key e -> scannable e.
Proof.
  intros Hkey He. unfold scannable. rewrite (has_key_strchr key e Hkey He).
  eexists; reflexivity.
Qed.

(** X15: on a block of entries that can be scanned for ['='], [envp_find]
    returns the slot of the first entry that reads [key=...], and [NULL]
    when no entry does; it never looks behind the terminating [NULL]. *)
Theorem envp_find_first_entry (h : heap) (a : nat) (es : list chars)
    (behind : list slot) (key : list ascii) :
  key_ok key ->
  h !! a = Some (block es behind) ->
  Forall scannable es ->
  envp_find h a (cbytes key) = Some (fst <$> find_key key es)
  /\ (forall i, fst <$> find_key key es = Some i ->
        exists e, es !! i = Some e /\ has_key key e
                  /\ forall j o, j < i -> es !! j = Some o -> ~ has_key key o)
  /\ (fst <$> find_key key es = None ->
        forall o, o ∈ es -> ~ has_key key o).
Proof.
  intros Hkey Ha Hs. split; [|split].
  - unfold envp_find. rewrite strlen_key, Ha by exact Hkey.
    cbn [mbind option_bind].
    rewrite envp_find_from_spec by assumption.
    destruct (find_key key es) as [[j e]|]; reflexivity.
  - intros i Hi. destruct (find_key key es) as [[j e]|] eqn:E; [|discriminate].
    injection Hi as ->.
    destruct (find_key_Some key es i e E) as (pre & post & -> & <- & Hno & He).
    exists e. split; [|split; [exact He|]].
    + rewrite lookup_app_r by lia. now rewrite Nat.sub_diag.
    + intros j o Hj Ho. rewrite lookup_app_l in Ho by exact Hj.
      rewrite Forall_forall in Hno. apply Hno.
      now apply list_elem_of_lookup_2 in Ho.
  - intros Hnone. destruct (find_key key es) as [[j e]|] eqn:E; [discriminate|].
    apply find_key_None in E. rewrite Forall_forall in E. exact E.
Qed.

Lemma envp_get_spec (h : heap) (a : nat) (es : list chars)
    (behind : list slot) (key : list ascii) :
  key_ok key ->
  h !! a = Some (block es behind) ->
  Forall scannable es ->
  envp_get h a (cbytes key) = Some (lookup_value key es).
Proof.
  intros Hkey Ha Hs. unfold envp_get, envp_find, lookup_value.
  rewrite strlen_key, Ha by exact Hkey. cbn [mbind option_bind].
  rewrite envp_find_from_spec by assumption. cbn [mbind option_bind].
  destruct (find_key key es) as [[j e]|] eqn:E; [|reflexivity].
  destruct (find_key_Some key es j e E) as (pre & post & -> & <- & Hno & He).
  cbn [plus].
  rewrite (block_lookup _ _ _ e)
    by (rewrite lookup_app_r by lia; now rewrite Nat.sub_diag).
  cbn [mbind option_bind]. rewrite (has_key_strchr key e Hkey He).
  reflexivity.
Qed.

(** X16: [envp_get] returns a pointer to what stands behind [key=] in the
    first entry for [key], and [NULL] when the block has no such entry. *)
Theorem envp_get_first_value (h : heap) (a : nat) (es : list chars)
    (behind : list slot) (key : list ascii) :
  key_ok key ->
  h !! a = Some (block es behind) ->
  Forall scannable es ->
  (forall pre e post,
     es = pre ++ e :: post ->
     Forall (fun o => ~ has_key key o) pre -> has_key key e ->
     exists rest,
       cells e = map Init key ++ Init "="%char :: rest
       /\ envp_get h a (cbytes key) = Some (Some rest))
  /\ (Forall (fun o => ~ has_key key o) es ->
      envp_get h a (cbytes key) = Some None).
Proof.
  intros Hkey Ha Hs. split.
  - intros pre e post -> Hno He. pose proof He as [rest Hrest].
    exists rest. split; [exact Hrest|].
    rewrite (envp_get_spec h a _ behind key Hkey Ha Hs).
    unfold lookup_value. rewrite find_key_first by assumption.
    unfold value_of. rewrite Hrest.
    replace (length key + 1) with (length (map Init key ++ [Init "="%char]))
      by (rewrite length_app, length_map; reflexivity).
    replace (map Init key ++ Init "="%char :: rest)
      with ((map Init key ++ [Init "="%char]) ++ rest)
      by (now rewrite <- app_assoc).
    now rewrite drop_app_length.
  - intros Hno. rewrite (envp_get_spec h a _ behind key Hkey Ha Hs).
    unfold lookup_value. now rewrite find_key_absent.
Qed.

Lemma made_entry_eq (key value : list ascii) (vr : list cell) :
  key_ok key -> NUL ∉ value ->
  envp_make_entry (cbytes key) (map Init value ++ Init NUL :: vr)
  = Some (made_entry key value).
Proof.
  intros [Hk _] Hv. unfold cbytes. now apply envp_make_entry_eq.
Qed.

Lemma made_entry_has_key (key value : list ascii) :
  has_key key (made_entry key value).
Proof. eexists. reflexivity. Qed.

Lemma envp_set_present (h : heap) (a : nat) (pre post : list chars)
    (old : chars) (behind : list slot) (key value : list ascii)
    (vr : list cell) (allocated : bool) :
  key_ok key -> NUL ∉ value ->
  h !! a = Some (block (pre ++ old :: post) behind) ->
  Forall scannable pre ->
  Forall (fun o => ~ has_key key o) pre ->
  has_key key old ->
  envp_set (Some a) (cbytes key) (map Init value ++ Init NUL :: vr)
    allocated h
  = Some (Some a, allocated,
          <[a := block (pre ++ made_entry key value :: post) behind]> h).
Proof.
  intros Hkey Hv Ha Hs Hno Hold.
  unfold envp_set, envp_find. rewrite strlen_key, Ha by exact Hkey.
  cbn [mbind option_bind].
  rewrite (envp_find_from_first key Hkey pre old post behind 0 Hs Hno Hold).
  cbn [mbind option_bind]. rewrite made_entry_eq by assumption.
  cbn [mbind option_bind plus].
  rewrite (slot_store_eq h a (length pre) _ _ Ha).
  - cbn [mbind option_bind]. now rewrite block_insert.
  - rewrite block_length, length_app. cbn [length]. lia.
Qed.

Lemma envp_set_absent (h : heap) (a : nat) (es : list chars)
    (behind : list slot) (key value : list ascii) (vr : list cell)
    (allocated : bool) :
  key_ok key -> NUL ∉ value ->
  h !! a = Some (block es behind) ->
  Forall scannable es ->
  Forall (fun o => ~ has_key key o) es ->
  envp_set (Some a) (cbytes key) (map Init value ++ Init NUL :: vr)
    allocated h
  = Some (Some (fresh (dom h)), true,
          <[fresh (dom h) := block (es ++ [made_entry key value]) []]>
            (if allocated then delete a h else h)).
Proof.
  intros Hkey Hv Ha Hs Hno.
  pose proof (fresh_ne h a _ Ha) as Hne.
  set (a' := fresh (dom h)) in *.
  unfold envp_set, envp_find. rewrite strlen_key, Ha by exact Hkey.
  cbn [mbind option_bind].
  rewrite (envp_find_from_none key Hkey es behind 0 Hs Hno).
  cbn [mbind option_bind]. unfold envp_count. rewrite Ha.
  cbn [mbind option_bind]. rewrite envp_count_from_block.
  cbn [mbind option_bind]. unfold xtrace_malloc_ptrs. fold a'.
  unfold memcpy_ptrs. rewrite lookup_insert_eq. cbn [mbind option_bind].
  rewrite lookup_insert_ne by exact Hne. rewrite Ha.
  cbn [mbind option_bind]. rewrite length_replicate, block_length.
  replace ((length es <=? length es + 2)
           && (length es <=? length es + S (length behind))) with true
    by (symmetry; apply andb_true_intro; split; apply Nat.leb_le; lia).
  cbn [mbind option_bind]. rewrite insert_insert_eq.
  assert (Harr : take (length es) (block es behind)
                 ++ drop (length es) (replicate (length es + 2) Wild)
                 = map Ptr es ++ [Wild; Wild]).
  { unfold block.
    rewrite take_app_length' by (rewrite length_map; reflexivity).
    rewrite replicate_add, drop_app_length'
      by (rewrite length_replicate; reflexivity).
    reflexivity. }
  rewrite Harr. clear Harr. rewrite made_entry_eq by assumption.
  cbn [mbind option_bind].
  set (h3 := if allocated then xtrace_free a _ else _).
  assert (H3 : h3 = <[a' := map Ptr es ++ [Wild; Wild]]>
                      (if allocated then delete a h else h)).
  { subst h3. destruct allocated; [|reflexivity].
    unfold xtrace_free. now rewrite delete_insert_ne by congruence. }
  rewrite H3. clear H3 h3.
  rewrite (slot_store_eq _ a' (length es) _ _ (lookup_insert_eq _ _ _))
    by (rewrite length_app, length_map; cbn [length]; lia).
  cbn [mbind option_bind]. rewrite insert_insert_eq.
  rewrite (slot_store_eq _ a' (length es + 1) Null _ (lookup_insert_eq _ _ _))
    by (rewrite length_insert, length_app, length_map; cbn [length]; lia).
  cbn [mbind option_bind]. rewrite insert_insert_eq.
  do 3 f_equal.
  replace (length es) with (length (map Ptr es) + 0) at 2
    by (rewrite length_map; lia).
  rewrite insert_app_r. cbn [insert list_insert].
  replace (length es + 1) with (length (map Ptr es) + 1)
    by (rewrite length_map; lia).
  rewrite insert_app_r. unfold block. rewrite map_app, <- app_assoc.
  reflexivity.
Qed.

(** [envp_set] on a block, by what [find_key] finds in it. *)
Lemma envp_set_spec (h : heap) (a : nat) (es : list chars)
    (behind : list slot) (key value : list ascii) (vr : list cell)
    (allocated : bool) :
  key_ok key -> NUL ∉ value ->
  h !! a = Some (block es behind) ->
  Forall scannable es ->
  envp_set (Some a) (cbytes key) (map Init value ++ Init NUL :: vr)
    allocated h
  = Some (match find_key key es with
          | Some _ =>
              (Some a, allocated,
               <[a := block (upsert key (made_entry key value) es) behind]> h)
          | None =>
              (Some (fresh (dom h)), true,
               <[fresh (dom h) :=
                   block (upsert key (made_entry key value) es) []]>
                 (if allocated then delete a h else h))
          end).
Proof.
  intros Hkey Hv Ha Hs. unfold upsert.
  destruct (find_key key es) as [[i old]|] eqn:E.
  - destruct (find_key_Some key es i old E)
      as (pre & post & -> & <- & Hno & Hold).
    apply Forall_app in Hs as [Hs _].
    rewrite (envp_set_present h a pre post old behind key value vr
               allocated) by assumption.
    do 3 f_equal.
    rewrite insert_app_r_alt by lia. now rewrite Nat.sub_diag.
  - apply find_key_None in E.
    now rewrite (envp_set_absent h a es behind key value vr allocated).
Qed.

Lemma has_key_unique (key key' : list ascii) (e : chars) :
  key_ok key -> key_ok key' ->
  has_key key e -> has_key key' e -> key = key'.
Proof.
  intros [_ Hk] [_ Hk'] [r H0] [r' H]. rewrite H0 in H. clear e H0.
  revert key' Hk' H. induction key as [|c key IH]; intros key' Hk' H.
  - destruct key' as [|c' key']; [reflexivity|].
    cbn [map app] in H. injection H as H _. subst c'.
    exfalso. apply Hk'. now left.
  - apply not_elem_of_cons in Hk as [Hc Hk].
    destruct key' as [|c' key'].
    + cbn [map app] in H. injection H as H _. congruence.
    + apply not_elem_of_cons in Hk' as [Hc' Hk'].
      cbn [map app] in H. injection H as -> H.
      f_equal. now apply (IH Hk key' Hk').
Qed.

Lemma find_key_upsert_same (key : list ascii) (e : chars)
    (es : list chars) :
  has_key key e ->
  exists i, find_key key (upsert key e es) = Some (i, e).
Proof.
  intros He. unfold upsert. destruct (find_key key es) as [[i old]|] eqn:E.
  - destruct (find_key_Some key es i old E)
      as (pre & post & -> & <- & Hno & Hold).
    exists (length pre).
    rewrite insert_app_r_alt by lia. rewrite Nat.sub_diag.
    cbn [insert list_insert]. now apply find_key_first.
  - apply find_key_None in E. exists (length es). now apply find_key_first.
Qed.

Lemma find_key_skip (key : list ascii) (pre : list chars) (rest : list chars) :
  Forall (fun o => ~ has_key key o) pre ->
  find_key key (pre ++ rest)
  = match find_key key rest with
    | Some (i, e) => Some (length pre + i, e)
    | None => None
    end.
Proof.
  intros Hno. induction Hno as [|o pre Ho Hno IH]; cbn [app find_key length].
  - destruct (find_key key rest) as [[i e]|]; reflexivity.
  - rewrite (proj2 (has_keyb_false key o) Ho), IH.
    destruct (find_key key rest) as [[i e]|]; reflexivity.
Qed.

(** An [upsert] for [key] leaves the value of every other key alone. *)
Lemma lookup_value_upsert_other (key key' : list ascii) (e : chars)
    (es : list chars) :
  key_ok key -> key_ok key' -> key <> key' ->
  has_key key e ->
  lookup_value key' (upsert key e es) = lookup_value key' es.
Proof.
  intros Hkey Hkey' Hne He.
  assert (Hother : forall o, has_key key o -> has_keyb key' o = false).
  { intros o Ho. apply has_keyb_false. intros Ho'.
    apply Hne. now apply (has_key_unique key key' o). }
  unfold lookup_value, upsert.
  destruct (find_key key es) as [[i old]|] eqn:E.
  - destruct (find_key_Some key es i old E)
      as (pre & post & -> & <- & Hno & Hold).
    rewrite insert_app_r_alt by lia. rewrite Nat.sub_diag.
    cbn [insert list_insert].
    clear E Hno. induction pre as [|o pre IH]; cbn [app find_key].
    + now rewrite !Hother by assumption.
    + destruct (has_keyb key' o); [reflexivity|].
      destruct (find_key key' (pre ++ e :: post)) as [[j x]|],
               (find_key key' (pre ++ old :: post)) as [[j' x']|];
        cbn in IH |- *; congruence.
  - clear E. induction es as [|o es IH]; cbn [app find_key].
    + now rewrite Hother by assumption.
    + destruct (has_keyb key' o); [reflexivity|].
      destruct (find_key key' (es ++ [e])) as [[j x]|],
               (find_key key' es) as [[j' x']|];
        cbn in IH |- *; congruence.
Qed.

Lemma value_of_made_entry (key value : list ascii) :
  value_of key (made_entry key value) = map Init value ++ [Undef].
Proof.
  unfold value_of, made_entry. cbn [cells].
  replace (length key + 1) with (length (map Init key ++ [Init "="%char]))
    by (rewrite length_app, length_map; reflexivity).
  replace (map Init key ++ Init "="%char :: map Init value ++ [Undef])
    with ((map Init key ++ [Init "="%char]) ++ map Init value ++ [Undef])
    by (now rewrite <- app_assoc).
  now rewrite drop_app_length.
Qed.

Lemma lookup_value_upsert_same (key value : list ascii) (es : list chars) :
  lookup_value key (upsert key (made_entry key value) es)
  = Some (map Init value ++ [Undef]).
Proof.
  destruct (find_key_upsert_same key (made_entry key value) es
              (made_entry_has_key key value)) as [i Hi].
  unfold lookup_value. rewrite Hi. now rewrite value_of_made_entry.
Qed.

Lemma upsert_scannable (key : list ascii) (e : chars) (es : list chars) :
  scannable e -> Forall scannable es -> Forall scannable (upsert key e es).
Proof.
  intros He Hs. unfold upsert. destruct (find_key key es) as [[i old]|].
  - now apply Forall_insert.
  - apply Forall_app. split; [exact Hs | now constructor].
Qed.

(** The block [envp_set] leaves, for a block or for no block at all. *)
Lemma envp_set_block (h : heap) (a : nat) (es : list chars)
    (behind : list slot) (key value : list ascii) (vr : list cell)
    (allocated : bool) :
  key_ok key -> NUL ∉ value ->
  h !! a = Some (block es behind) ->
  Forall scannable es ->
  exists a' allocated' h' behind',
    envp_set (Some a) (cbytes key) (map Init value ++ Init NUL :: vr)
      allocated h
    = Some (Some a', allocated', h')
    /\ h' !! a' = Some (block (upsert key (made_entry key value) es) behind')
    /\ Forall scannable (upsert key (made_entry key value) es).
Proof.
  intros Hkey Hv Ha Hs.
  rewrite (envp_set_spec h a es behind key value vr allocated)
    by assumption.
  assert (Hsc : Forall scannable (upsert key (made_entry key value) es)).
  { apply upsert_scannable; [|exact Hs].
    apply (has_key_scannable key); [exact Hkey | apply made_entry_has_key]. }
  destruct (find_key key es) as [[i old]|]; do 4 eexists;
    (split; [reflexivity|]); (split; [apply lookup_insert_eq | exact Hsc]).
Qed.

(** [envp_set] on no block at all. *)
Lemma envp_set_null (h : heap) (key value : list ascii)
    (allocated : bool) :
  key_ok key -> NUL ∉ value ->
  envp_set None (cbytes key) (cbytes value) allocated h
  = Some (Some (fresh (dom h)), true,
          <[fresh (dom h) := block (upsert key (made_entry key value) []) []]>
            h).
Proof.
  intros Hkey Hv. unfold envp_set, xtrace_malloc_ptrs.
  unfold cbytes at 2. rewrite made_entry_eq by assumption.
  cbn [mbind option_bind replicate].
  rewrite (slot_store_eq _ _ 0 _ _ (lookup_insert_eq _ _ _))
    by (cbn; lia).
  cbn [mbind option_bind]. rewrite insert_insert_eq.
  rewrite (slot_store_eq _ _ 1 Null _ (lookup_insert_eq _ _ _))
    by (cbn; lia).
  cbn [mbind option_bind]. rewrite insert_insert_eq. reflexivity.
Qed.

(** X17: a value stored with [envp_set] is the one [envp_get] finds for the
    key afterwards, whether the block had the key, had it not, or there was
    no block: the bytes of the value, followed by the byte that
    [envp_make_entry] never writes instead of a terminator. *)
Theorem envp_get_after_envp_set (h : heap) (key value : list ascii)
    (allocated : bool) :
  key_ok key -> NUL ∉ value ->
  (forall a es behind,
     h !! a = Some (block es behind) -> Forall scannable es ->
     exists a' allocated' h',
       envp_set (Some a) (cbytes key) (cbytes value) allocated h
       = Some (Some a', allocated', h')
       /\ envp_get h' a' (cbytes key)
          = Some (Some (map Init value ++ [Undef])))
  /\ exists a' h',
       envp_set None (cbytes key) (cbytes value) allocated h
       = Some (Some a', true, h')
       /\ envp_get h' a' (cbytes key)
          = Some (Some (map Init value ++ [Undef])).
Proof.
  intros Hkey Hv.
  pose proof (lookup_value_upsert_same key value) as Hval.
  split.
  - intros a es behind Ha Hs.
    destruct (envp_set_block h a es behind key value [] allocated
                Hkey Hv Ha Hs)
      as (a' & allocated' & h' & behind' & Hset & Ha' & Hs').
    exists a', allocated', h'. split; [exact Hset|].
    rewrite (envp_get_spec h' a' _ behind' key Hkey Ha' Hs').
    now rewrite Hval.
  - do 2 eexists. split.
    + now apply envp_set_null.
    + rewrite (envp_get_spec _ _ [made_entry key value] [] key Hkey
                 (lookup_insert_eq _ _ _)).
      * f_equal. exact (Hval []).
      * constructor; [|constructor].
        apply (has_key_scannable key);
          [exact Hkey | apply made_entry_has_key].
Qed.

(** One [envp_set] of the hook: the block it leaves, and what it does to
    the heap [h0] the hook started from, with the caller's block at [a0]. *)
Lemma envp_set_step (h0 : heap) (a0 : nat) (h : heap) (a : nat)
    (es : list chars) (behind : list slot) (key value : list ascii)
    (vr : list cell) (allocated : bool) :
  key_ok key -> NUL ∉ value ->
  h !! a = Some (block es behind) ->
  Forall scannable es ->
  framed h0 a0 h a ->
  (if allocated then a <> a0 else a = a0) ->
  exists a' allocated' h' behind',
    envp_set (Some a) (cbytes key) (map Init value ++ Init NUL :: vr)
      allocated h
    = Some (Some a', allocated', h')
    /\ h' !! a' = Some (block (upsert key (made_entry key value) es) behind')
    /\ Forall scannable (upsert key (made_entry key value) es)
    /\ framed h0 a0 h' a'
    /\ (if allocated' then a' <> a0 else a' = a0).
Proof.
  intros Hkey Hv Ha Hs (Hfr & Hcaller & Hnew) Hown.
  rewrite (envp_set_spec h a es behind key value vr allocated)
    by assumption.
  assert (Hsc : Forall scannable (upsert key (made_entry key value) es)).
  { apply upsert_scannable; [|exact Hs].
    apply (has_key_scannable key); [exact Hkey | apply made_entry_has_key]. }
  destruct (find_key key es) as [[i old]|].
  - exists a, allocated. do 2 eexists.
    split; [reflexivity|]. split; [apply lookup_insert_eq|].
    split; [exact Hsc|]. split; [|exact Hown].
    split; [|split; [|exact Hnew]].
    + intros b Hb Hb0. rewrite lookup_insert_ne by congruence.
      now apply Hfr.
    + destruct (decide (a = a0)) as [->|Hne].
      * rewrite lookup_insert_eq. eexists; reflexivity.
      * rewrite lookup_insert_ne by exact Hne. exact Hcaller.
  - pose proof (fresh_ne h a _ Ha) as Hne.
    destruct Hcaller as [arr0 Harr0].
    pose proof (fresh_ne h a0 _ Harr0) as Hne0.
    set (a' := fresh (dom h)) in *.
    exists a', true. do 2 eexists.
    split; [reflexivity|]. split; [apply lookup_insert_eq|].
    split; [exact Hsc|]. split; [|exact Hne0].
    assert (Hfresh : h0 !! a' = None).
    { destruct (h0 !! a') as [arr|] eqn:E; [|reflexivity].
      exfalso. apply (is_fresh (dom h)). fold a'. apply elem_of_dom.
      rewrite (Hfr a') by assumption. rewrite E. eexists; reflexivity. }
    split; [|split; [|right; exact Hfresh]].
    + intros b Hb Hb0. rewrite lookup_insert_ne by congruence.
      destruct allocated.
      * destruct (decide (b = a)) as [->|Hba].
        -- rewrite lookup_delete_eq. destruct Hnew as [->|Hnew];
             [contradiction | now rewrite Hnew].
        -- rewrite lookup_delete_ne by congruence. now apply Hfr.
      * subst a. now apply Hfr.
    + rewrite lookup_insert_ne by exact Hne0.
      destruct allocated.
      * rewrite lookup_delete_ne by exact Hown. now rewrite Harr0.
      * now rewrite Harr0.
Qed.

Lemma not_elem_of_forallb (x : ascii) (l : list ascii) :
  forallb (fun c => negb (Ascii.eqb c x)) l = true -> x ∉ l.
Proof.
  induction l as [|c l IH]; cbn [forallb]; intros H.
  - apply not_elem_of_nil.
  - apply andb_prop in H as [Hc Hl]. apply not_elem_of_cons. split.
    + intros ->. now rewrite Ascii.eqb_refl in Hc.
    + now apply IH.
Qed.

Lemma key_ok_check (key : list ascii) :
  forallb (fun c => negb (Ascii.eqb c NUL)) key = true ->
  forallb (fun c => negb (Ascii.eqb c "="%char)) key = true ->
  key_ok key.
Proof. intros H1 H2. split; now apply not_elem_of_forallb. Qed.

Lemma SPLIT_KEY_ok : key_ok SPLIT_KEY.
Proof. apply key_ok_check; reflexivity. Qed.
Lemma NO_COLOR_KEY_ok : key_ok NO_COLOR_KEY.
Proof. apply key_ok_check; reflexivity. Qed.
Lemma KPRINTF_KEY_ok : key_ok KPRINTF_KEY.
Proof. apply key_ok_check; reflexivity. Qed.
Lemma PER_THREAD_KEY_ok : key_ok PER_THREAD_KEY.
Proof. apply key_ok_check; reflexivity. Qed.
Lemma LOG_FILE_KEY_ok : key_ok LOG_FILE_KEY.
Proof. apply key_ok_check; reflexivity. Qed.
Lemma INSERT_KEY_ok : key_ok INSERT_KEY.
Proof. apply key_ok_check; reflexivity. Qed.

Lemma flag_text_ok (b : bool) : NUL ∉ flag_text b.
Proof. apply not_elem_of_forallb. now destruct b. Qed.

Lemma LIBRARY_PATH_ok : NUL ∉ String.list_ascii_of_string LIBRARY_PATH.
Proof. apply not_elem_of_forallb. reflexivity. Qed.

Lemma text_cbytes (x : list ascii) (rest : list cell) :
  NUL ∉ x -> text (map Init x ++ Init NUL :: rest) = x.
Proof.
  induction x as [|c x IH]; intros Hx; [reflexivity|].
  apply not_elem_of_cons in Hx as [Hc Hx].
  cbn [map app text]. rewrite eqb_NUL_false by congruence.
  now rewrite IH.
Qed.

(** The value the hook builds, for any old value that is a C string. *)
Lemma new_insert_libraries_spec (old : option (list cell)) :
  (forall v, old = Some v ->
     exists x rest, (NUL ∉ x) /\ v = map Init x ++ Init NUL :: rest) ->
  new_insert_libraries old
  = Some {| cells := cbytes (insert_libraries_text old); past_end := [] |}
  /\ NUL ∉ insert_libraries_text old.
Proof.
  intros Hold. destruct old as [v|].
  - destruct (Hold v eq_refl) as (x & rest & Hx & ->).
    unfold insert_libraries_text. rewrite text_cbytes by exact Hx.
    destruct x as [|c x].
    + split; [vm_compute; reflexivity | apply LIBRARY_PATH_ok].
    + split.
      * now apply new_insert_libraries_present.
      * intros H. apply elem_of_app in H as [H|H]; [exact (Hx H)|].
        apply elem_of_cons in H as [H|H]; [discriminate H|].
        now apply LIBRARY_PATH_ok.
  - split; [apply new_insert_libraries_absent | apply LIBRARY_PATH_ok].
Qed.

(** In an entry that is a C string and reads [key=...], what stands behind
    the ['='] is a C string. *)
Lemma c_string_value (key : list ascii) (e : chars) :
  key_ok key -> c_string e -> has_key key e ->
  exists x rest,
    (NUL ∉ x) /\ value_of key e = map Init x ++ Init NUL :: rest.
Proof.
  intros [Hkn _] (l & rest & Hl & Hcells) [r Hr].
  unfold value_of. rewrite Hr.
  replace (length key + 1) with (length (map Init key ++ [Init "="%char]))
    by (rewrite length_app, length_map; reflexivity).
  replace (map Init key ++ Init "="%char :: r)
    with ((map Init key ++ [Init "="%char]) ++ r)
    by (now rewrite <- app_assoc).
  rewrite drop_app_length. rewrite Hcells in Hr. clear e Hcells.
  revert l Hl Hr. induction key as [|k key IH]; intros l Hl Hr.
  - destruct l as [|c l]; [discriminate Hr|].
    cbn [map app] in Hr. injection Hr as -> <-.
    apply not_elem_of_cons in Hl as [_ Hl]. now exists l, rest.
  - apply not_elem_of_cons in Hkn as [Hk Hkn].
    destruct l as [|c l].
    + cbn [map app] in Hr. injection Hr as <-. congruence.
    + cbn [map app] in Hr. injection Hr as -> Hr.
      apply not_elem_of_cons in Hl as [_ Hl]. now apply (IH Hkn l).
Qed.

Lemma c_string_scannable (e : chars) : c_string e -> scannable e.
Proof.
  intros (l & rest & Hl & Hcells). unfold scannable. rewrite Hcells.
  clear e Hcells. induction l as [|c l IH].
  - cbn [map app strchr]. eexists; reflexivity.
  - apply not_elem_of_cons in Hl as [Hc Hl]. cbn [map app strchr].
    destruct (Ascii.eqb c "="%char); [eexists; reflexivity|].
    rewrite eqb_NUL_false by congruence.
    destruct (IH Hl) as [[j|] ->]; eexists; reflexivity.
Qed.

Lemma lookup_value_c_string (key : list ascii) (es : list chars) :
  key_ok key -> Forall c_string es ->
  forall v, lookup_value key es = Some v ->
    exists x rest, (NUL ∉ x) /\ v = map Init x ++ Init NUL :: rest.
Proof.
  intros Hkey Hes v Hv. unfold lookup_value in Hv.
  destruct (find_key key es) as [[i e]|] eqn:E; [|discriminate].
  injection Hv as <-.
  destruct (find_key_Some key es i e E) as (pre & post & -> & _ & _ & He).
  apply Forall_app in Hes as [_ Hes]. apply Forall_cons in Hes as [Hce _].
  now apply c_string_value.
Qed.

Lemma lookup_value_option_entries (cfg : config) (base : list ascii)
    (es : list chars) (key : list ascii) :
  key_ok key ->
  key <> SPLIT_KEY -> key <> NO_COLOR_KEY -> key <> KPRINTF_KEY ->
  key <> PER_THREAD_KEY -> key <> LOG_FILE_KEY ->
  lookup_value key (option_entries cfg base es) = lookup_value key es.
Proof.
  intros Hkey H1 H2 H3 H4 H5. unfold option_entries. cbv zeta.
  rewrite !lookup_value_upsert_other;
    auto using made_entry_has_key, SPLIT_KEY_ok, NO_COLOR_KEY_ok,
      KPRINTF_KEY_ok, PER_THREAD_KEY_ok, LOG_FILE_KEY_ok.
Qed.

Lemma framed_refl (h : heap) (a : nat) :
  is_Some (h !! a) -> framed h a h a.
Proof. intros H. split; [reflexivity|]. split; [exact H | now left]. Qed.

(** The whole hook on a block of C strings: it returns, and leaves a block
    with [hook_entries]. *)
Lemma hook_run (cfg : config) (base : list ascii) (brest : list cell)
    (h : heap) (a : nat) (es : list chars) (behind : list slot) :
  xtrace_logfile_base cfg = map Init base ++ Init NUL :: brest ->
  NUL ∉ base ->
  h !! a = Some (block es behind) ->
  Forall c_string es ->
  exists a' h' behind',
    xtrace_execve_inject_hook cfg (Some a) h = Some (Some a', h')
    /\ h' !! a' = Some (block (hook_entries cfg base es) behind')
    /\ Forall scannable (hook_entries cfg base es)
    /\ framed h a h' a'.
Proof.
  intros Hbase Hb Ha Hes.
  assert (Hs : Forall scannable es)
    by (eapply Forall_impl; [exact Hes | apply c_string_scannable]).
  assert (Hf : framed h a h a) by (apply framed_refl; eauto).
  unfold hook_entries, option_entries. cbv zeta.
  destruct (envp_set_step h a h a es behind SPLIT_KEY
              (flag_text (xtrace_split_entry_and_exit cfg)) [] false
              SPLIT_KEY_ok (flag_text_ok _) Ha Hs Hf eq_refl)
    as (a1 & al1 & h1 & b1 & Hset1 & Ha1 & Hs1 & Hf1 & Ho1).
  set (es1 := upsert SPLIT_KEY _ es) in *.
  destruct (envp_set_step h a h1 a1 es1 b1 NO_COLOR_KEY
              (flag_text (xtrace_no_color cfg)) [] al1
              NO_COLOR_KEY_ok (flag_text_ok _) Ha1 Hs1 Hf1 Ho1)
    as (a2 & al2 & h2 & b2 & Hset2 & Ha2 & Hs2 & Hf2 & Ho2).
  set (es2 := upsert NO_COLOR_KEY _ es1) in *.
  destruct (envp_set_step h a h2 a2 es2 b2 KPRINTF_KEY
              (flag_text (xtrace_kprintf cfg)) [] al2
              KPRINTF_KEY_ok (flag_text_ok _) Ha2 Hs2 Hf2 Ho2)
    as (a3 & al3 & h3 & b3 & Hset3 & Ha3 & Hs3 & Hf3 & Ho3).
  set (es3 := upsert KPRINTF_KEY _ es2) in *.
  destruct (envp_set_step h a h3 a3 es3 b3 PER_THREAD_KEY
              (flag_text (xtrace_use_per_thread_logfile cfg)) [] al3
              PER_THREAD_KEY_ok (flag_text_ok _) Ha3 Hs3 Hf3 Ho3)
    as (a4 & al4 & h4 & b4 & Hset4 & Ha4 & Hs4 & Hf4 & Ho4).
  set (es4 := upsert PER_THREAD_KEY _ es3) in *.
  assert (Hlt : NUL ∉ logfile_text cfg base).
  { unfold logfile_text. destruct (xtrace_use_logfile cfg);
      [exact Hb | apply not_elem_of_nil]. }
  destruct (envp_set_step h a h4 a4 es4 b4 LOG_FILE_KEY
              (logfile_text cfg base)
              (if xtrace_use_logfile cfg then brest else []) al4
              LOG_FILE_KEY_ok Hlt Ha4 Hs4 Hf4 Ho4)
    as (a5 & al5 & h5 & b5 & Hset5 & Ha5 & Hs5 & Hf5 & Ho5).
  set (es5 := upsert LOG_FILE_KEY _ es4) in *.
  assert (Hlog : (if xtrace_use_logfile cfg
                  then xtrace_logfile_base cfg else cstr "")
                 = map Init (logfile_text cfg base) ++ Init NUL
                   :: (if xtrace_use_logfile cfg then brest else [])).
  { unfold logfile_text. destruct (xtrace_use_logfile cfg);
      [exact Hbase | reflexivity]. }
  assert (Hold : lookup_value INSERT_KEY es5 = lookup_value INSERT_KEY es).
  { apply (lookup_value_option_entries cfg base es INSERT_KEY);
      [apply INSERT_KEY_ok | discriminate ..]. }
  destruct (new_insert_libraries_spec (lookup_value INSERT_KEY es)
              (lookup_value_c_string INSERT_KEY es INSERT_KEY_ok Hes))
    as [Hnew Hnn].
  destruct (envp_set_step h a h5 a5 es5 b5 INSERT_KEY
              (insert_libraries_text (lookup_value INSERT_KEY es)) [] al5
              INSERT_KEY_ok Hnn Ha5 Hs5 Hf5 Ho5)
    as (a6 & al6 & h6 & b6 & Hset6 & Ha6 & Hs6 & Hf6 & Ho6).
  exists a6, h6, b6.
  split; [|split; [exact Ha6 | split; [exact Hs6 | exact Hf6]]].
  unfold xtrace_execve_inject_hook. cbv zeta.
  rewrite (Hset1 : envp_set (Some a) (cstr "XTRACE_SPLIT_ENTRY_AND_EXIT")
                     (flag (xtrace_split_entry_and_exit cfg)) false h = _).
  cbn [mbind option_bind].
  rewrite (Hset2 : envp_set (Some a1) (cstr "XTRACE_NO_COLOR")
                     (flag (xtrace_no_color cfg)) al1 h1 = _).
  cbn [mbind option_bind].
  rewrite (Hset3 : envp_set (Some a2) (cstr "XTRACE_KPRINTF")
                     (flag (xtrace_kprintf cfg)) al2 h2 = _).
  cbn [mbind option_bind].
  rewrite (Hset4 : envp_set (Some a3) (cstr "XTRACE_LOG_FILE_PER_THREAD")
                     (flag (xtrace_use_per_thread_logfile cfg)) al3 h3 = _).
  cbn [mbind option_bind].
  rewrite Hlog.
  rewrite (Hset5 : envp_set (Some a4) (cstr "XTRACE_LOG_FILE") _ al4 h4 = _).
  cbn [mbind option_bind].
  rewrite (envp_get_spec h5 a5 es5 b5 INSERT_KEY INSERT_KEY_ok Ha5 Hs5
           : envp_get h5 a5 (cstr "DYLD_INSERT_LIBRARIES") = _).
  cbn [mbind option_bind]. rewrite Hold, Hnew.
  cbn [mbind option_bind cells].
  rewrite (Hset6 : envp_set (Some a5) (cstr "DYLD_INSERT_LIBRARIES")
                     (cbytes _) al5 h5 = _).
  reflexivity.
Qed.







Section Hook.

Variable cfg : config.
Variable base : list ascii.
Variable brest : list cell.
Variable h : heap.
Variable a : nat.
Variable es : list chars.
Variable behind : list slot.
Hypothesis logfile_base_is :
  xtrace_logfile_base cfg = map Init base ++ Init NUL :: brest.
Hypothesis base_ok : NUL ∉ base.
Hypothesis caller_block : h !! a = Some (block es behind).
Hypothesis entries_are_strings : Forall c_string es.



(** X22: the hook frees nothing of the caller's and leaks no array: after
    it, the caller's array is still allocated, the block it hands back is
    the caller's array or an array that did not exist before, and every
    other array of the heap is as it was, so the arrays it allocated on the
    way are freed again. *)
Theorem inject_hook_memory :
  exists a' h',
    xtrace_execve_inject_hook cfg (Some a) h = Some (Some a', h')
    /\ is_Some (h' !! a)
    /\ is_Some (h' !! a')
    /\ (a' = a \/ h !! a' = None)
    /\ (forall b, b <> a' -> b <> a -> h' !! b = h !! b).
Proof using logfile_base_is base_ok caller_block entries_are_strings.
  destruct (hook_run cfg base brest h a es behind logfile_base_is base_ok
              caller_block entries_are_strings)
    as (a' & h' & behind' & Hrun & Ha' & _ & Hfr & Hcaller & Hnew).
  exists a', h'. split; [exact Hrun|]. split; [exact Hcaller|].
  split; [rewrite Ha'; eexists; reflexivity|].
  split; [exact Hnew | exact Hfr].
Qed.


End Hook.

End EnvpMore.

Lemma envp_find_first_entry_witness :
  Envp.envp_find
    {[ 0%nat := Envp.block [Envp.literal "A=1"; Envp.literal "B=0"] [] ]}
    0%nat (Envp.cstr "B")
  = Some (Some 1%nat).
Proof.
  destruct (envp_find_first_entry
              {[ 0%nat :=
                   Envp.block [Envp.literal "A=1"; Envp.literal "B=0"] [] ]}
              0%nat [Envp.literal "A=1"; Envp.literal "B=0"] [] ["B"%char])
    as [H _].
  - apply key_ok_check; reflexivity.
  - reflexivity.
  - repeat constructor; eexists; reflexivity.
  - exact H.
Defined.

Lemma envp_get_first_value_witness :
  exists rest,
    Envp.cells (Envp.literal "B=0")
    = map Envp.Init ["B"%char] ++ Envp.Init "="%char :: rest
    /\ Envp.envp_get
         {[ 0%nat := Envp.block [Envp.literal "A=1"; Envp.literal "B=0"] [] ]}
         0%nat (Envp.cstr "B")
       = Some (Some rest).
Proof.
  destruct (envp_get_first_value
              {[ 0%nat :=
                   Envp.block [Envp.literal "A=1"; Envp.literal "B=0"] [] ]}
              0%nat [Envp.literal "A=1"; Envp.literal "B=0"] [] ["B"%char])
    as [H _].
  - apply key_ok_check; reflexivity.
  - reflexivity.
  - repeat constructor; eexists; reflexivity.
  - apply (H [Envp.literal "A=1"] (Envp.literal "B=0") []).
    + reflexivity.
    + constructor; [|constructor]. intros [rest Hrest]. discriminate Hrest.
    + eexists. reflexivity.
Defined.

Lemma envp_get_after_envp_set_witness :
  exists a' allocated' h',
    Envp.envp_set (Some 0%nat) (Envp.cstr "B") (Envp.cstr "2") false
      {[ 0%nat := Envp.block [Envp.literal "A=1"; Envp.literal "B=0"] [] ]}
    = Some (Some a', allocated', h')
    /\ Envp.envp_get h' a' (Envp.cstr "B")
       = Some (Some [Envp.Init "2"%char; Envp.Undef]).
Proof.
  destruct (envp_get_after_envp_set
              {[ 0%nat :=
                   Envp.block [Envp.literal "A=1"; Envp.literal "B=0"] [] ]}
              ["B"%char] ["2"%char] false) as [H _].
  - apply key_ok_check; reflexivity.
  - apply not_elem_of_forallb. reflexivity.
  - apply (H 0%nat [Envp.literal "A=1"; Envp.literal "B=0"] []).
    + reflexivity.
    + repeat constructor; eexists; reflexivity.
Defined.

Lemma path_block_strings :
  Forall EnvpSpec.c_string [Envp.literal "PATH=/bin"].
Proof.
  constructor; [|constructor].
  exists (String.list_ascii_of_string "PATH=/bin"), [].
  split; [apply not_elem_of_forallb; reflexivity | reflexivity].
Qed.

Lemma path_block_lookup :
  ({[ 0%nat := Envp.block [Envp.literal "PATH=/bin"] [] ]} : Envp.heap)
    !! 0%nat
  = Some (Envp.block [Envp.literal "PATH=/bin"] []).
Proof. reflexivity. Qed.



Lemma inject_hook_memory_witness :
  exists a' h',
    Envp.xtrace_execve_inject_hook Envp.default_config (Some 0%nat)
      {[ 0%nat := Envp.block [Envp.literal "PATH=/bin"] [] ]}
    = Some (Some a', h')
    /\ is_Some (h' !! 0%nat)
    /\ forall b, b <> a' -> b <> 0%nat -> h' !! b = None.
Proof.
  destruct (inject_hook_memory Envp.default_config [] []
              {[ 0%nat := Envp.block [Envp.literal "PATH=/bin"] [] ]}
              0%nat [Envp.literal "PATH=/bin"] []
              eq_refl (not_elem_of_nil _) path_block_lookup path_block_strings)
    as (a' & h' & Hrun & Hcaller & _ & _ & Hfr).
  exists a', h'. split; [exact Hrun|]. split; [exact Hcaller|].
  intros b Hb Hb0. rewrite (Hfr b Hb Hb0).
  now apply lookup_singleton_ne.
Defined.




(* ===================================================================== *)
(** * Further properties: the options *)
(* ===================================================================== *)

Section OptionsMore.

Import Envp Options.
Local Open Scope nat_scope.

Variable PATH_MAX : nat.
Hypothesis PATH_MAX_large : 2 <= PATH_MAX.

Lemma string_is_truthy_flag (b : bool) :
  string_is_truthy (Some (flag b)) = Some b.
Proof. now destruct b. Qed.

Lemma strlen_inv (s : list cell) :
  forall n, strlen s = Some n ->
    exists l rest,
      s = map Init l ++ Init NUL :: rest /\ length l = n /\ (NUL ∉ l).
Proof.
  induction s as [|x s IH]; intros n H; [discriminate|].
  destruct x as [c|]; [|discriminate]. cbn [strlen] in H.
  destruct (Ascii.eqb_spec c NUL) as [->|Hc].
  - injection H as <-. exists [], s.
    repeat split. apply not_elem_of_nil.
  - destruct (strlen s) as [m|]; [|discriminate]. injection H as <-.
    destruct (IH m eq_refl) as (l & rest & -> & <- & Hl).
    exists (c :: l), rest. repeat split.
    apply not_elem_of_cons. split; [congruence | exact Hl].
Qed.

Lemma hook_arguments_split (cfg : config) :
  hook_arguments cfg "XTRACE_SPLIT_ENTRY_AND_EXIT"
  = Some (flag (xtrace_split_entry_and_exit cfg)).
Proof. reflexivity. Qed.

Lemma hook_arguments_no_color (cfg : config) :
  hook_arguments cfg "XTRACE_NO_COLOR" = Some (flag (xtrace_no_color cfg)).
Proof. reflexivity. Qed.

Lemma hook_arguments_kprintf (cfg : config) :
  hook_arguments cfg "XTRACE_KPRINTF" = Some (flag (xtrace_kprintf cfg)).
Proof. reflexivity. Qed.

Lemma hook_arguments_per_thread (cfg : config) :
  hook_arguments cfg "XTRACE_LOG_FILE_PER_THREAD"
  = Some (flag (xtrace_use_per_thread_logfile cfg)).
Proof. reflexivity. Qed.

Lemma hook_arguments_log_file (cfg : config) :
  hook_arguments cfg "XTRACE_LOG_FILE"
  = Some (if xtrace_use_logfile cfg then xtrace_logfile_base cfg
          else cstr "").
Proof. reflexivity. Qed.

Lemma replicate_S_sub (n m : nat) (x : cell) :
  m < n -> replicate (n - m) x = x :: replicate (n - m - 1) x.
Proof.
  intros H. replace (n - m) with (S (n - m - 1)) at 1 by lia. reflexivity.
Qed.

Lemma setup_options_settled (getenv : string -> option (list cell))
    (cfg : config) :
  xtrace_setup_options PATH_MAX getenv (initial_config PATH_MAX) = Some cfg ->
  settled PATH_MAX cfg.
Proof using PATH_MAX_large.
  unfold xtrace_setup_options. intros H.
  destruct (string_is_truthy (getenv "XTRACE_SPLIT_ENTRY_AND_EXIT"));
    [|discriminate H].
  destruct (string_is_truthy (getenv "XTRACE_NO_COLOR")); [|discriminate H].
  destruct (string_is_truthy (getenv "XTRACE_KPRINTF")); [|discriminate H].
  destruct (string_is_truthy (getenv "XTRACE_LOG_FILE_PER_THREAD"));
    [|discriminate H].
  cbn [mbind option_bind] in H.
  destruct (getenv "XTRACE_LOG_FILE") as [[|[c|] rest]|];
    try discriminate H.
  - destruct (Ascii.eqb_spec c NUL) as [->|Hc].
    + injection H as <-. left. split; reflexivity.
    + unfold strlcpy in H.
      destruct (strlen (Init c :: rest)) as [n|] eqn:E; [|discriminate H].
      cbn [mbind option_bind initial_config xtrace_logfile_base] in H.
      destruct (Nat.eqb_spec PATH_MAX 0) as [|_]; [lia|].
      injection H as <-. right. split; [reflexivity|].
      destruct (strlen_inv _ _ E) as (l & rest' & Hl & Hn & Hnul).
      destruct l as [|c' l]; [cbn in Hl; congruence|].
      set (m := n `min` (PATH_MAX - 1)).
      assert (Hm : 1 <= m <= length (c' :: l) /\ m < PATH_MAX)
        by (subst m; cbn [length] in *; lia).
      exists (take m (c' :: l)). cbn [xtrace_logfile_base].
      split; [|split; [|split]].
      * destruct m; [lia | discriminate].
      * intros Hin. apply Hnul. apply list_elem_of_lookup_1 in Hin.
        destruct Hin as [i Hi]. apply lookup_take_Some in Hi as [Hi _].
        now apply list_elem_of_lookup_2 in Hi.
      * rewrite length_take. lia.
      * rewrite Hl. rewrite length_take.
        replace (m `min` length (c' :: l)) with m by lia.
        rewrite take_app_le by (rewrite length_map; lia).
        rewrite <- fmap_take, drop_replicate.
        rewrite (replicate_S_sub PATH_MAX m) by lia.
        do 2 f_equal. f_equal. lia.
  - injection H as <-. left. split; reflexivity.
Qed.

Lemma setup_options_of_hook_arguments (cfg : config) :
  settled PATH_MAX cfg ->
  xtrace_setup_options PATH_MAX (hook_arguments cfg) (initial_config PATH_MAX)
  = Some cfg.
Proof using PATH_MAX_large.
  intros Hcfg. unfold xtrace_setup_options.
  rewrite hook_arguments_split, hook_arguments_no_color, hook_arguments_kprintf,
    hook_arguments_per_thread, hook_arguments_log_file, !string_is_truthy_flag.
  cbn [mbind option_bind].
  destruct cfg as [b1 b2 b3 b4 use base_cells]. unfold settled in Hcfg.
  cbn [Envp.xtrace_split_entry_and_exit Envp.xtrace_no_color
       Envp.xtrace_kprintf Envp.xtrace_use_per_thread_logfile
       xtrace_use_logfile xtrace_logfile_base initial_config] in *.
  destruct Hcfg as [[-> ->]|[-> (name & Hne & Hnul & Hlen & ->)]].
  - reflexivity.
  - destruct name as [|c name]; [congruence|].
    apply not_elem_of_cons in Hnul as Hc. destruct Hc as [Hc _].
    cbn [map app]. rewrite eqb_NUL_false by congruence.
    change (Init c :: map Init name ++ ?r) with (map Init (c :: name) ++ r).
    rewrite (replicate_S_sub PATH_MAX (length (c :: name))) by exact Hlen.
    unfold strlcpy. rewrite strlen_cbytes by exact Hnul.
    cbn [mbind option_bind].
    destruct (Nat.eqb_spec PATH_MAX 0) as [|_]; [lia|].
    replace (length (c :: name) `min` (PATH_MAX - 1))
      with (length (map Init (c :: name)))
      by (rewrite length_map; lia).
    rewrite take_app_length, drop_replicate, length_map.
    cbn [mbind option_bind].
    replace (PATH_MAX - (length (c :: name) + 1))
      with (PATH_MAX - length (c :: name) - 1) by lia.
    reflexivity.
Qed.

(** X29: the reader and the writer of the options agree on their spelling:
    when a configuration was read by [xtrace_setup_options] from some
    environment, then from the strings [xtrace_execve_inject_hook] passes to
    [envp_set] for it, each read as the terminated string it is,
    [xtrace_setup_options] arrives at the same configuration: the four
    flags, whether a log file is used, and its name. This is about the
    arguments of [envp_set], not about the entries it stores. *)
Theorem options_spelling_round_trip (getenv : string -> option (list cell))
    (cfg : config) :
  xtrace_setup_options PATH_MAX getenv (initial_config PATH_MAX) = Some cfg ->
  xtrace_setup_options PATH_MAX (hook_arguments cfg) (initial_config PATH_MAX)
  = Some cfg.
Proof using PATH_MAX_large.
  intros H. apply setup_options_of_hook_arguments.
  now apply (setup_options_settled getenv).
Qed.

End OptionsMore.

Lemma options_spelling_round_trip_witness :
  Options.xtrace_setup_options 8 Options.sample_getenv
    (Options.initial_config 8) = Some Options.sample_config
  /\ Options.xtrace_setup_options 8 (Options.hook_arguments Options.sample_config)
       (Options.initial_config 8) = Some Options.sample_config.
Proof.
  split; [reflexivity|].
  apply (options_spelling_round_trip 8 ltac:(lia) Options.sample_getenv).
  reflexivity.
Defined.


(* ===================================================================== *)
(** * Further properties: the log sinks *)
(* ===================================================================== *)

Section LogfileMore.

Import Logfile.

Variable Args : Type.
Variable render : string -> Args -> string.
Variable PATH_MAX : nat.
Variable open_answer : list (io Args) -> string -> Z.
Variable cfg : settings.

Local Abbreviation log_v := (xtrace_log_v Args render PATH_MAX open_answer cfg).
Local Abbreviation log_all :=
  (Logfile.log_all Args render PATH_MAX open_answer cfg).
Local Abbreviation filename := (per_thread_filename PATH_MAX cfg).
Local Abbreviation written := (Logfile.written Args render).
Local Abbreviation tls := (xtrace_per_thread_logfile Args).
Local Abbreviation once := (xtrace_common_logfile_once Args).
Local Abbreviation common := (xtrace_common_logfile Args).
Local Abbreviation valid := (Logfile.valid Args).
Local Abbreviation logged := (Logfile.logged Args render).
Local Abbreviation opens := (Logfile.opens Args).
Local Abbreviation writes := (Logfile.writes Args).
Local Abbreviation fd_of := (Logfile.fd_of Args).
Local Abbreviation trace :=
  (Logfile.per_thread_trace Args render PATH_MAX cfg).

Hypothesis no_kprintf : xtrace_kprintf cfg = false.
Hypothesis use_logfile : xtrace_use_logfile cfg = true.

Lemma logfile_bind_eq {A B} (m : M Args A) (f : A -> M Args B)
    (s : state Args) :
  (m ≫= f) s =
  match m s with
  | Returned a s' => f a s'
  | Aborted message s' => Aborted message s'
  end.
Proof. reflexivity. Qed.

Lemma substring_all (s : string) (n : nat) :
  (String.length s <= n)%nat -> String.substring 0 n s = s.
Proof.
  revert n. induction s as [|c s IH]; intros n H.
  - now destruct n.
  - destruct n as [|n]; cbn [String.length] in H; [lia|].
    cbn [String.substring]. f_equal. apply IH. lia.
Qed.

Ltac logfile_run :=
  unfold xtrace_log_v, ensure_logfile, xtrace_postfork_child_hook,
    xtrace_once, xtrace_common_logfile_init, _open_for_xtrace,
    _close_for_xtrace, get_xtrace_common_logfile, set_xtrace_common_logfile,
    get_xtrace_per_thread_logfile, set_xtrace_per_thread_logfile, emit,
    xtrace_abort, mbind, mret, M_bind, M_ret;
  cbv beta iota;
  cbn [xtrace_common_logfile_once xtrace_common_logfile
       xtrace_per_thread_logfile ios negb].

(** A thread that has its descriptor writes to it, and does nothing else. *)
Lemma log_cached (tid : Z) (format : string) (args : Args) (s : state Args)
    (fd : Z) :
  tls s !! tid = Some fd -> fd <> -1 ->
  log_v tid format args s
  = Returned tt
      {| xtrace_common_logfile_once := once s;
         xtrace_common_logfile := common s;
         xtrace_per_thread_logfile := tls s;
         ios := ios Args s ++ [Write fd (written (tid, format, args))] |}.
Proof using no_kprintf use_logfile.
  intros Hfd Hne. logfile_run. rewrite no_kprintf, use_logfile.
  cbn [negb]. rewrite Hfd. cbn [default from_option id].
  destruct (Z.eqb_spec fd (-1)) as [|_]; [contradiction|].
  cbn [negb]. rewrite Hfd. reflexivity.
Qed.

(** The first message of a thread with one file per thread. *)
Lemma log_first_per_thread (tid : Z) (format : string) (args : Args)
    (s : state Args) :
  xtrace_use_per_thread_logfile cfg = true ->
  fd_of s tid = -1 ->
  let fd := open_answer (ios Args s) (filename tid) in
  log_v tid format args s
  = if fd <? 0 then
      Aborted "xtrace: failed to open logfile"
        {| xtrace_common_logfile_once := once s;
           xtrace_common_logfile := common s;
           xtrace_per_thread_logfile := tls s;
           ios := ios Args s ++ [Open (filename tid) fd] |}
    else
      Returned tt
        {| xtrace_common_logfile_once := once s;
           xtrace_common_logfile := common s;
           xtrace_per_thread_logfile := <[tid := fd]> (tls s);
           ios := ios Args s
                  ++ [Open (filename tid) fd;
                      Write fd (written (tid, format, args))] |}.
Proof using no_kprintf use_logfile.
  intros Hper Hfd fd. unfold fd_of in Hfd. logfile_run.
  rewrite no_kprintf, use_logfile, Hper. cbn [negb]. rewrite Hfd.
  cbn [Z.eqb Pos.eqb negb]. fold fd.
  destruct (fd <? 0); [reflexivity|].
  cbn [xtrace_common_logfile_once xtrace_common_logfile
       xtrace_per_thread_logfile ios].
  rewrite lookup_insert_eq. cbn [default from_option id].
  rewrite <- app_assoc. reflexivity.
Qed.

(** The first message of a thread with one file for all threads. *)
Lemma log_first_common (tid : Z) (format : string) (args : Args)
    (s : state Args) :
  xtrace_use_per_thread_logfile cfg = false ->
  fd_of s tid = -1 ->
  log_v tid format args s
  = if once s then
      if common s <? 0 then
        Aborted "xtrace: failed to open logfile" s
      else
        Returned tt
          {| xtrace_common_logfile_once := once s;
             xtrace_common_logfile := common s;
             xtrace_per_thread_logfile := <[tid := common s]> (tls s);
             ios := ios Args s
                    ++ [Write (common s) (written (tid, format, args))] |}
    else
      let fd := open_answer (ios Args s) (xtrace_logfile_base cfg) in
      if fd <? 0 then
        Aborted "xtrace: failed to open logfile"
          {| xtrace_common_logfile_once := true;
             xtrace_common_logfile := fd;
             xtrace_per_thread_logfile := tls s;
             ios := ios Args s ++ [Open (xtrace_logfile_base cfg) fd] |}
      else
        Returned tt
          {| xtrace_common_logfile_once := true;
             xtrace_common_logfile := fd;
             xtrace_per_thread_logfile := <[tid := fd]> (tls s);
             ios := ios Args s
                    ++ [Open (xtrace_logfile_base cfg) fd;
                        Write fd (written (tid, format, args))] |}.
Proof using no_kprintf use_logfile.
  intros Hper Hfd. unfold fd_of in Hfd. logfile_run.
  rewrite no_kprintf, use_logfile, Hper. cbn [negb]. rewrite Hfd.
  cbn [Z.eqb Pos.eqb negb].
  destruct s as [o c t tr].
  cbn [xtrace_common_logfile_once xtrace_common_logfile
       xtrace_per_thread_logfile ios].
  destruct o;
    cbn [xtrace_common_logfile_once xtrace_common_logfile
         xtrace_per_thread_logfile ios].
  - destruct (c <? 0); [reflexivity|].
    cbn [xtrace_common_logfile_once xtrace_common_logfile
         xtrace_per_thread_logfile ios].
    rewrite lookup_insert_eq. reflexivity.
  - cbv zeta.
    cbn [xtrace_common_logfile_once xtrace_common_logfile
         xtrace_per_thread_logfile ios].
    destruct (open_answer tr (xtrace_logfile_base cfg) <? 0); [reflexivity|].
    cbn [xtrace_common_logfile_once xtrace_common_logfile
         xtrace_per_thread_logfile ios].
    rewrite lookup_insert_eq. cbn [default from_option id].
    rewrite <- app_assoc. reflexivity.
Qed.

Lemma writes_app (tr1 tr2 : list (io Args)) :
  writes (tr1 ++ tr2) = writes tr1 ++ writes tr2.
Proof. unfold Logfile.writes. apply omap_app. Qed.

Lemma opens_app (tr1 tr2 : list (io Args)) :
  opens (tr1 ++ tr2) = opens tr1 ++ opens tr2.
Proof. unfold Logfile.opens. apply omap_app. Qed.

Lemma fd_of_Some (s : state Args) (tid fd : Z) :
  tls s !! tid = Some fd -> fd_of s tid = fd.
Proof. intros H. unfold Logfile.fd_of. now rewrite H. Qed.

Lemma fd_of_None (s : state Args) (tid : Z) :
  tls s !! tid = None -> fd_of s tid = -1.
Proof. intros H. unfold Logfile.fd_of. now rewrite H. Qed.

(** After a first step that wrote the message of [tid] to [fd], behind the
    events [pre] that are no writes, the rest decides. *)
Lemma logged_step (m : message Args) (ms : list (message Args))
    (s s1 : state Args) (pre : list (io Args)) (fd : Z) :
  log_v m.1.1 m.1.2 m.2 s = Returned tt s1 ->
  ios Args s1 = ios Args s ++ pre ++ [Write fd (written m)] ->
  writes pre = [] ->
  tls s1 !! m.1.1 = Some fd -> 0 <= fd ->
  tls s ⊆ tls s1 ->
  logged s1 ms (log_all ms s1) ->
  logged s (m :: ms) (log_all (m :: ms) s).
Proof.
  intros Hstep Hios Hpre Hfd Hpos Hsub Hrest.
  destruct m as [[tid format] args]. cbn [fst snd] in *.
  cbn [Logfile.log_all]. rewrite logfile_bind_eq, Hstep.
  destruct (log_all ms s1) as [[] s'|msg s']; cbn [Logfile.logged] in *.
  - destruct Hrest as (Hsub' & ev & Hev & Hw & Hall).
    split; [now transitivity (tls s1)|].
    exists (pre ++ [Write fd (written (tid, format, args))] ++ ev).
    split; [rewrite Hev, Hios, <- !app_assoc; reflexivity|].
    rewrite !writes_app, Hpre, Hw. cbn [app Logfile.writes omap fst snd map].
    rewrite (fd_of_Some s' tid fd) by (eapply lookup_weaken; eassumption).
    split; [reflexivity|]. constructor; [exact Hpos|].
    rewrite <- Hw. exact Hall.
  - destruct Hrest as (Hmsg & Hsub' & k & ev & name & fd' & Hk & Hev & Hneg
                       & Hw & Hall).
    split; [exact Hmsg|]. split; [now transitivity (tls s1)|].
    exists (S k), (pre ++ [Write fd (written (tid, format, args))] ++ ev),
      name, fd'.
    split; [cbn [length]; lia|].
    split; [rewrite Hev, Hios, <- !app_assoc; reflexivity|].
    split; [exact Hneg|].
    rewrite !writes_app, Hpre, Hw.
    cbn [app Logfile.writes omap fst snd map take].
    rewrite (fd_of_Some s' tid fd) by (eapply lookup_weaken; eassumption).
    split; [reflexivity|]. constructor; [exact Hpos|].
    rewrite <- Hw. exact Hall.
Qed.

Lemma log_all_logged (ms : list (message Args)) :
  forall s, valid s -> logged s ms (log_all ms s).
Proof using no_kprintf use_logfile.
  induction ms as [|[[tid format] args] ms IH]; intros s [Htls Hcommon].
  - cbn [Logfile.log_all Logfile.logged mret M_ret]. split; [reflexivity|].
    exists []. rewrite app_nil_r. repeat split. constructor.
  - destruct (tls s !! tid) as [fd|] eqn:Hfd.
    + pose proof (Htls tid fd Hfd) as Hpos.
      eapply (logged_step (tid, format, args) ms s _ [] fd).
      * cbn [fst snd]. apply (log_cached tid format args s fd Hfd). lia.
      * reflexivity.
      * reflexivity.
      * exact Hfd.
      * exact Hpos.
      * reflexivity.
      * apply IH. split; [exact Htls | exact Hcommon].
    + pose proof (fd_of_None s tid Hfd) as Hnone.
      destruct (xtrace_use_per_thread_logfile cfg) eqn:Hper.
      * pose proof (log_first_per_thread tid format args s Hper Hnone) as Hstep.
        cbv zeta in Hstep.
        destruct (Z.ltb_spec (open_answer (ios Args s) (filename tid)) 0)
          as [Hneg|Hpos].
        -- cbn [Logfile.log_all]. rewrite logfile_bind_eq, Hstep.
           cbn [Logfile.logged xtrace_per_thread_logfile ios].
           split; [reflexivity|]. split; [reflexivity|].
           exists 0%nat, [], (filename tid),
             (open_answer (ios Args s) (filename tid)).
           split; [cbn [length]; lia|]. split; [reflexivity|].
           split; [exact Hneg|]. split; [reflexivity | constructor].
        -- eapply (logged_step (tid, format, args) ms s _
                     [Open (filename tid) _] _ Hstep).
           ++ reflexivity.
           ++ reflexivity.
           ++ cbn [xtrace_per_thread_logfile]. apply lookup_insert_eq.
           ++ exact Hpos.
           ++ cbn [xtrace_per_thread_logfile]. now apply insert_subseteq.
           ++ apply IH. split; cbn [xtrace_per_thread_logfile
                                    xtrace_common_logfile_once
                                    xtrace_common_logfile];
                [|exact Hcommon].
              intros t f Ht. destruct (decide (t = tid)) as [->|Hne].
              ** rewrite lookup_insert_eq in Ht. now injection Ht as <-.
              ** rewrite lookup_insert_ne in Ht by congruence.
                 now apply (Htls t).
      * pose proof (log_first_common tid format args s Hper Hnone) as Hstep.
        destruct (once s) eqn:Honce.
        -- pose proof (Hcommon eq_refl) as Hpos.
           destruct (Z.ltb_spec (common s) 0) as [Hneg|_]; [lia|].
           eapply (logged_step (tid, format, args) ms s _ [] _ Hstep).
           ++ reflexivity.
           ++ reflexivity.
           ++ cbn [xtrace_per_thread_logfile]. apply lookup_insert_eq.
           ++ exact Hpos.
           ++ cbn [xtrace_per_thread_logfile]. now apply insert_subseteq.
           ++ apply IH. split; cbn [xtrace_per_thread_logfile
                                    xtrace_common_logfile_once
                                    xtrace_common_logfile];
                [|intros _; exact Hpos].
              intros t f Ht. destruct (decide (t = tid)) as [->|Hne].
              ** rewrite lookup_insert_eq in Ht. now injection Ht as <-.
              ** rewrite lookup_insert_ne in Ht by congruence.
                 now apply (Htls t).
        -- cbv zeta in Hstep.
           destruct (Z.ltb_spec
                       (open_answer (ios Args s) (xtrace_logfile_base cfg)) 0)
             as [Hneg|Hpos].
           ++ cbn [Logfile.log_all]. rewrite logfile_bind_eq, Hstep.
              cbn [Logfile.logged xtrace_per_thread_logfile ios].
              split; [reflexivity|]. split; [reflexivity|].
              exists 0%nat, [], (xtrace_logfile_base cfg),
                (open_answer (ios Args s) (xtrace_logfile_base cfg)).
              split; [cbn [length]; lia|]. split; [reflexivity|].
              split; [exact Hneg|]. split; [reflexivity | constructor].
           ++ eapply (logged_step (tid, format, args) ms s _
                        [Open (xtrace_logfile_base cfg) _] _ Hstep).
              ** reflexivity.
              ** reflexivity.
              ** cbn [xtrace_per_thread_logfile]. apply lookup_insert_eq.
              ** exact Hpos.
              ** cbn [xtrace_per_thread_logfile]. now apply insert_subseteq.
              ** apply IH. split; cbn [xtrace_per_thread_logfile
                                       xtrace_common_logfile_once
                                       xtrace_common_logfile];
                   [|intros _; exact Hpos].
                 intros t f Ht. destruct (decide (t = tid)) as [->|Hne].
                 --- rewrite lookup_insert_eq in Ht. now injection Ht as <-.
                 --- rewrite lookup_insert_ne in Ht by congruence.
                     now apply (Htls t).
Qed.

Lemma valid_initial : valid (initial_state Args).
Proof.
  split; [|discriminate]. intros tid fd H.
  cbn [initial_state xtrace_per_thread_logfile] in H.
  now rewrite lookup_empty in H.
Qed.

(** X24: with a log file in use, whatever the kernel answers to the
    [open]s, logging a sequence of messages from any threads ends in one of
    two ways. Either every message was written, in order and cut to 511
    bytes, to the descriptor of its thread, none of them negative; or the
    process was aborted with ["xtrace: failed to open logfile"] directly
    behind an [open] that failed, the messages before the failing one
    written in the same way, and the failing one not at all. *)
Theorem logfile_writes_or_aborts (ms : list (message Args)) :
  match log_all ms (initial_state Args) with
  | Returned _ s' =>
      writes (ios Args s') = map (fun m => (fd_of s' m.1.1, written m)) ms
      /\ Forall (fun w => 0 <= w.1) (writes (ios Args s'))
  | Aborted message s' =>
      message = "xtrace: failed to open logfile"%string
      /\ exists k ev name fd,
           (k < length ms)%nat
           /\ ios Args s' = ev ++ [Open name fd]
           /\ fd < 0
           /\ writes (ios Args s')
              = map (fun m => (fd_of s' m.1.1, written m)) (take k ms)
           /\ Forall (fun w => 0 <= w.1) (writes (ios Args s'))
  end.
Proof using no_kprintf use_logfile.
  pose proof (log_all_logged ms (initial_state Args) valid_initial) as H.
  destruct (log_all ms (initial_state Args)) as [[] s'|msg s'];
    cbn [Logfile.logged initial_state ios app] in H.
  - destruct H as (_ & ev & -> & Hw & Hall). split; assumption.
  - destruct H as (Hmsg & _ & k & ev & name & fd & Hk & Hev & Hneg & Hw & Hall).
    split; [exact Hmsg|]. exists k, ev, name, fd.
    split; [exact Hk|]. split; [exact Hev|]. split; [exact Hneg|].
    rewrite Hev, writes_app. cbn [Logfile.writes omap].
    rewrite app_nil_r. split; assumption.
Qed.

Lemma per_thread_run (ms : list (message Args)) :
  xtrace_use_per_thread_logfile cfg = true ->
  (forall tr name, 0 <= open_answer tr name) ->
  forall s,
    (forall tid fd, tls s !! tid = Some fd -> 0 <= fd) ->
    exists s',
      log_all ms s = Returned tt s'
      /\ tls s ⊆ tls s'
      /\ ios Args s'
         = ios Args s ++ trace (fd_of s') (dom (tls s)) ms.
Proof using no_kprintf use_logfile.
  intros Hper Hopen.
  induction ms as [|[[tid format] args] ms IH]; intros s Htls.
  - exists s. cbn [per_thread_trace]. rewrite app_nil_r.
    repeat split; reflexivity.
  - cbn [Logfile.log_all per_thread_trace fst snd].
    rewrite logfile_bind_eq.
    destruct (tls s !! tid) as [fd|] eqn:Hfd.
    + rewrite (log_cached tid format args s fd Hfd)
        by (pose proof (Htls tid fd Hfd); lia).
      rewrite bool_decide_eq_true_2 by (apply elem_of_dom; eauto).
      edestruct IH as (s' & Hrun & Hsub & Hios); [|rewrite Hrun];
        [exact Htls|].
      cbn [xtrace_per_thread_logfile ios] in *.
      exists s'. split; [reflexivity|]. split; [exact Hsub|].
      rewrite Hios, <- app_assoc. cbn [app].
      rewrite (fd_of_Some s' tid fd)
        by (eapply lookup_weaken; eassumption).
      reflexivity.
    + rewrite bool_decide_eq_false_2 by (apply not_elem_of_dom; exact Hfd).
      pose proof (log_first_per_thread tid format args s Hper
                    (fd_of_None s tid Hfd)) as Hstep.
      cbv zeta in Hstep.
      pose proof (Hopen (ios Args s) (filename tid)) as Hpos.
      destruct (Z.ltb_spec (open_answer (ios Args s) (filename tid)) 0)
        as [|_]; [lia|].
      rewrite Hstep.
      edestruct IH as (s' & Hrun & Hsub & Hios); [|rewrite Hrun].
      { cbn [xtrace_per_thread_logfile]. intros t f Ht.
        destruct (decide (t = tid)) as [->|Hne].
        - rewrite lookup_insert_eq in Ht. now injection Ht as <-.
        - rewrite lookup_insert_ne in Ht by congruence. now apply (Htls t). }
      cbn [xtrace_per_thread_logfile ios] in *.
      rewrite dom_insert_L in Hios.
      exists s'. split; [reflexivity|].
      split; [transitivity (<[tid := open_answer (ios Args s) (filename tid)]>
                              (tls s));
              [now apply insert_subseteq | exact Hsub]|].
      rewrite Hios, <- app_assoc. cbn [app].
      rewrite (fd_of_Some s' tid
                 (open_answer (ios Args s) (filename tid)))
        by (eapply lookup_weaken; [apply lookup_insert_eq | exact Hsub]).
      reflexivity.
Qed.

Lemma opens_trace (fd : Z -> Z) (ms : list (message Args)) :
  forall seen,
    opens (trace fd seen ms)
    = map (fun tid => (filename tid, fd tid))
        (first_uses seen (map (fun m => m.1.1) ms)).
Proof.
  induction ms as [|m ms IH]; intros seen; [reflexivity|].
  cbn [per_thread_trace map first_uses].
  destruct (bool_decide (m.1.1 ∈ seen)).
  - change (opens (Write ?x ?y :: ?l)) with (opens l). apply IH.
  - change (opens (Open ?f ?d :: Write ?x ?y :: ?l)) with ((f, d) :: opens l).
    cbn [map]. now rewrite IH.
Qed.

Lemma writes_trace (fd : Z -> Z) (ms : list (message Args)) :
  forall seen,
    writes (trace fd seen ms)
    = map (fun m => (fd m.1.1, written m)) ms.
Proof.
  induction ms as [|m ms IH]; intros seen; [reflexivity|].
  cbn [per_thread_trace map].
  destruct (bool_decide (m.1.1 ∈ seen)).
  - change (writes (Write ?x ?y :: ?l)) with ((x, y) :: writes l).
    now rewrite IH.
  - change (writes (Open ?f ?d :: Write ?x ?y :: ?l))
      with ((x, y) :: writes l).
    now rewrite IH.
Qed.

Lemma trace_events (fd : Z -> Z) (ms : list (message Args)) :
  forall seen,
    Forall (fun e => match e with
                     | Open _ _ | Write _ _ => True
                     | _ => False
                     end) (trace fd seen ms).
Proof.
  induction ms as [|m ms IH]; intros seen; [constructor|].
  cbn [per_thread_trace]. destruct (bool_decide (m.1.1 ∈ seen)).
  - constructor; [exact I | apply IH].
  - constructor; [exact I|]. constructor; [exact I | apply IH].
Qed.

(** X25: with one log file per thread and every [open] granted, logging a
    sequence of messages asks the sinks exactly this: the first message of
    a thread opens the file of the thread and is written to the descriptor
    this [open] returned, and every later message of the thread is written
    to the same descriptor. So each file is opened exactly once, in the
    order in which the threads first log, every message is written, in
    order, to the descriptor of its thread, and no descriptor is closed. A
    file name is the base name, a dot and the thread id, when that fits. *)
Theorem per_thread_files_opened_once (ms : list (message Args)) :
  xtrace_use_per_thread_logfile cfg = true ->
  (forall tr name, 0 <= open_answer tr name) ->
  exists s',
    log_all ms (initial_state Args) = Returned tt s'
    /\ ios Args s' = trace (fd_of s') ∅ ms
    /\ opens (ios Args s')
       = map (fun tid => (filename tid, fd_of s' tid))
           (first_uses ∅ (map (fun m => m.1.1) ms))
    /\ writes (ios Args s')
       = map (fun m => (fd_of s' m.1.1, written m)) ms
    /\ Forall (fun e => match e with
                        | Open _ _ | Write _ _ => True
                        | _ => False
                        end) (ios Args s')
    /\ (forall tid,
          (String.length (Tracker.fmt_d tid) < 31)%nat ->
          (String.length (xtrace_logfile_base cfg)
           + S (String.length (Tracker.fmt_d tid)) < PATH_MAX)%nat ->
          filename tid
          = (xtrace_logfile_base cfg ++ "." ++ Tracker.fmt_d tid)%string).
Proof using no_kprintf use_logfile.
  intros Hper Hopen.
  destruct (per_thread_run ms Hper Hopen (initial_state Args))
    as (s' & Hrun & _ & Hios).
  { intros tid fd H. cbn [initial_state xtrace_per_thread_logfile] in H.
    now rewrite lookup_empty in H. }
  cbn [initial_state ios xtrace_per_thread_logfile app] in Hios.
  rewrite dom_empty_L in Hios.
  exists s'. split; [exact Hrun|]. split; [exact Hios|].
  split; [rewrite Hios; apply opens_trace|].
  split; [rewrite Hios; apply writes_trace|].
  split.
  - rewrite Hios. apply trace_events.
  - intros tid Hd Hfit. unfold per_thread_filename, strlcat, strlcpy.
    cbv zeta.
    change ("." ++ Tracker.fmt_d tid)%string
      with (String "."%char (Tracker.fmt_d tid)).
    rewrite (substring_all (xtrace_logfile_base cfg)) by lia.
    rewrite (substring_all (String "."%char (Tracker.fmt_d tid)) (32 - 1))
      by (cbn [String.length]; lia).
    rewrite substring_all by (cbn [String.length]; lia). reflexivity.
Qed.

Lemma common_rest (ms : list (message Args)) :
  xtrace_use_per_thread_logfile cfg = false ->
  forall s,
    once s = true -> 0 <= common s ->
    (forall tid fd, tls s !! tid = Some fd -> fd = common s) ->
    exists s',
      log_all ms s = Returned tt s'
      /\ ios Args s'
         = ios Args s ++ map (fun m => Write (common s) (written m)) ms.
Proof using no_kprintf use_logfile.
  intros Hper.
  induction ms as [|[[tid format] args] ms IH]; intros s Honce Hpos Htls.
  - exists s. split; [reflexivity|]. cbn [map]. now rewrite app_nil_r.
  - cbn [Logfile.log_all map]. rewrite logfile_bind_eq.
    destruct (tls s !! tid) as [fd|] eqn:Hfd.
    + pose proof (Htls tid fd Hfd) as ->.
      rewrite (log_cached tid format args s (common s) Hfd) by lia.
      edestruct IH as (s' & Hrun & Hios); [| | |rewrite Hrun];
        [exact Honce | exact Hpos | exact Htls |].
      exists s'. split; [reflexivity|]. rewrite Hios.
      cbn [ios xtrace_common_logfile]. now rewrite <- app_assoc.
    + rewrite (log_first_common tid format args s Hper (fd_of_None s tid Hfd)).
      rewrite Honce.
      destruct (Z.ltb_spec (common s) 0) as [|_]; [lia|].
      edestruct IH as (s' & Hrun & Hios); [| | |rewrite Hrun].
      * reflexivity.
      * exact Hpos.
      * cbn [xtrace_per_thread_logfile xtrace_common_logfile].
        intros t f Ht. destruct (decide (t = tid)) as [->|Hne].
        -- rewrite lookup_insert_eq in Ht. now injection Ht as <-.
        -- rewrite lookup_insert_ne in Ht by congruence. now apply (Htls t).
      * exists s'. split; [reflexivity|]. rewrite Hios.
        cbn [ios xtrace_common_logfile]. now rewrite <- app_assoc.
Qed.

(** X26: with one log file for all threads, logging any sequence of
    messages from any threads opens the file once, for the first message
    and under the base name without a suffix, and writes every message, in
    order, to the descriptor this [open] returned; nothing else happens. *)
Theorem common_logfile_opened_once (m : message Args)
    (ms : list (message Args)) :
  xtrace_use_per_thread_logfile cfg = false ->
  0 <= open_answer [] (xtrace_logfile_base cfg) ->
  exists s',
    log_all (m :: ms) (initial_state Args) = Returned tt s'
    /\ ios Args s'
       = Open (xtrace_logfile_base cfg)
           (open_answer [] (xtrace_logfile_base cfg))
         :: map (fun m =>
                   Write (open_answer [] (xtrace_logfile_base cfg))
                     (written m))
              (m :: ms).
Proof using no_kprintf use_logfile.
  intros Hper Hpos. destruct m as [[tid format] args].
  cbn [Logfile.log_all]. rewrite logfile_bind_eq.
  rewrite (log_first_common tid format args (initial_state Args) Hper)
    by reflexivity.
  cbn [initial_state xtrace_common_logfile_once ios]. cbv zeta.
  destruct (Z.ltb_spec (open_answer [] (xtrace_logfile_base cfg)) 0)
    as [|_]; [lia|].
  edestruct (common_rest ms Hper) as (s' & Hrun & Hios); [| | |rewrite Hrun].
  - reflexivity.
  - exact Hpos.
  - cbn [xtrace_per_thread_logfile xtrace_common_logfile].
    intros t f Ht. destruct (decide (t = tid)) as [->|Hne].
    + rewrite lookup_insert_eq in Ht. now injection Ht as <-.
    + rewrite lookup_insert_ne in Ht by congruence.
      cbn [initial_state xtrace_per_thread_logfile] in Ht.
      rewrite lookup_empty in Ht. discriminate Ht.
  - exists s'. split; [reflexivity|]. rewrite Hios. reflexivity.
Qed.

Lemma postfork_per_thread (tid fd : Z) (s : state Args) :
  xtrace_use_per_thread_logfile cfg = true ->
  tls s !! tid = Some fd -> 0 <= fd ->
  xtrace_postfork_child_hook Args cfg tid s
  = Returned tt
      {| xtrace_common_logfile_once := once s;
         xtrace_common_logfile := common s;
         xtrace_per_thread_logfile := <[tid := -1]> (tls s);
         ios := ios Args s ++ [Close fd] |}.
Proof.
  intros Hper Hfd Hpos. logfile_run. rewrite Hper, Hfd.
  cbn [default from_option id].
  destruct (Z.leb_spec 0 fd) as [_|]; [reflexivity | lia].
Qed.

(** X27: in the child of a [fork], with one log file per thread,
    [xtrace_postfork_child_hook] closes the descriptor the thread had and
    forgets it, and leaves those of the other threads; the next message of
    the thread opens a file again and is written to the descriptor that
    [open] returns. With one log file for all threads the hook does
    nothing: the child keeps writing to the descriptor it inherited. *)
Theorem postfork_child_reopens (tid fd : Z) (format : string) (args : Args)
    (s : state Args) :
  tls s !! tid = Some fd -> 0 <= fd ->
  (xtrace_use_per_thread_logfile cfg = true ->
   exists s1,
     xtrace_postfork_child_hook Args cfg tid s = Returned tt s1
     /\ ios Args s1 = ios Args s ++ [Close fd]
     /\ fd_of s1 tid = -1
     /\ (forall t, t <> tid -> tls s1 !! t = tls s !! t)
     /\ (0 <= open_answer (ios Args s1) (filename tid) ->
         exists s2,
           log_v tid format args s1 = Returned tt s2
           /\ ios Args s2
              = ios Args s
                ++ [Close fd;
                    Open (filename tid)
                      (open_answer (ios Args s1) (filename tid));
                    Write (open_answer (ios Args s1) (filename tid))
                      (written (tid, format, args))]))
  /\ (xtrace_use_per_thread_logfile cfg = false ->
      xtrace_postfork_child_hook Args cfg tid s = Returned tt s).
Proof using no_kprintf use_logfile.
  intros Hfd Hpos. split; intros Hper.
  - rewrite (postfork_per_thread tid fd s Hper Hfd Hpos).
    eexists. split; [reflexivity|].
    cbn [xtrace_per_thread_logfile ios].
    split; [reflexivity|].
    split; [unfold Logfile.fd_of; cbn [xtrace_per_thread_logfile];
            now rewrite lookup_insert_eq|].
    split; [intros t Ht; now rewrite lookup_insert_ne by congruence|].
    intros Hopen. eexists.
    rewrite log_first_per_thread;
      [|exact Hper
       |unfold Logfile.fd_of; cbn [xtrace_per_thread_logfile];
        now rewrite lookup_insert_eq].
    cbn [ios]. cbv zeta.
    destruct (Z.ltb_spec (open_answer (ios Args s ++ [Close fd])
                            (filename tid)) 0) as [|_]; [lia|].
    split; [reflexivity|]. cbn [ios]. now rewrite <- app_assoc.
  - unfold xtrace_postfork_child_hook. now rewrite Hper.
Qed.

End LogfileMore.

Lemma logfile_writes_or_aborts_witness :
  match
    Logfile.log_all unit (fun format _ => format) 64 Logfile.sample_open
      (Logfile.sample_settings true)
      [(1, "a"%string, tt); (2, "b"%string, tt); (1, "c"%string, tt)]
      (Logfile.initial_state unit)
  with
  | Logfile.Returned _ s' =>
      Logfile.writes unit (Logfile.ios unit s')
      = map (fun m => (Logfile.fd_of unit s' m.1.1,
                       Logfile.written unit (fun format _ => format) m))
          [(1, "a"%string, tt); (2, "b"%string, tt); (1, "c"%string, tt)]
      /\ Forall (fun w => 0 <= w.1)
           (Logfile.writes unit (Logfile.ios unit s'))
  | Logfile.Aborted _ _ => False
  end.
Proof.
  pose proof (logfile_writes_or_aborts unit (fun format _ => format) 64
                Logfile.sample_open (Logfile.sample_settings true)
                eq_refl eq_refl
                [(1, "a"%string, tt); (2, "b"%string, tt);
                 (1, "c"%string, tt)]) as H.
  destruct (Logfile.log_all unit (fun format _ => format) 64
              Logfile.sample_open (Logfile.sample_settings true)
              [(1, "a"%string, tt); (2, "b"%string, tt); (1, "c"%string, tt)]
              (Logfile.initial_state unit)) as [[] s'|msg s'] eqn:E.
  - exact H.
  - vm_compute in E. discriminate E.
Defined.

Lemma sample_open_granted (tr : list (Logfile.io unit)) (name : string) :
  0 <= Logfile.sample_open tr name.
Proof. unfold Logfile.sample_open. lia. Qed.

Lemma per_thread_files_opened_once_witness :
  exists s',
    Logfile.log_all unit (fun format _ => format) 64 Logfile.sample_open
      (Logfile.sample_settings true)
      [(1, "a"%string, tt); (2, "b"%string, tt); (1, "c"%string, tt)]
      (Logfile.initial_state unit)
    = Logfile.Returned tt s'
    /\ map fst (Logfile.opens unit (Logfile.ios unit s'))
       = ["/tmp/x.1"%string; "/tmp/x.2"%string].
Proof.
  destruct (per_thread_files_opened_once unit (fun format _ => format) 64
              Logfile.sample_open (Logfile.sample_settings true)
              eq_refl eq_refl
              [(1, "a"%string, tt); (2, "b"%string, tt); (1, "c"%string, tt)]
              eq_refl sample_open_granted)
    as (s' & Hrun & _ & Hopens & _).
  exists s'. split; [exact Hrun|]. rewrite Hopens.
  rewrite map_map. reflexivity.
Defined.

Lemma common_logfile_opened_once_witness :
  exists s',
    Logfile.log_all unit (fun format _ => format) 64 Logfile.sample_open
      (Logfile.sample_settings false)
      [(1, "a"%string, tt); (2, "b"%string, tt)]
      (Logfile.initial_state unit)
    = Logfile.Returned tt s'
    /\ Logfile.ios unit s'
       = [Logfile.Open "/tmp/x" 3; Logfile.Write 3 "a"; Logfile.Write 3 "b"].
Proof.
  apply (common_logfile_opened_once unit (fun format _ => format) 64
           Logfile.sample_open (Logfile.sample_settings false)
           eq_refl eq_refl (1, "a"%string, tt) [(2, "b"%string, tt)]
           eq_refl).
  apply sample_open_granted.
Defined.

Lemma postfork_child_reopens_witness :
  exists s1,
    Logfile.xtrace_postfork_child_hook unit (Logfile.sample_settings true) 1
      {| Logfile.xtrace_common_logfile_once := false;
         Logfile.xtrace_common_logfile := -1;
         Logfile.xtrace_per_thread_logfile := {[ 1 := 3 ]};
         Logfile.ios := [Logfile.Open "/tmp/x.1" 3] |}
    = Logfile.Returned tt s1
    /\ Logfile.ios unit s1 = [Logfile.Open "/tmp/x.1" 3; Logfile.Close 3].
Proof.
  destruct (postfork_child_reopens unit (fun format _ => format) 64
              Logfile.sample_open (Logfile.sample_settings true)
              eq_refl eq_refl 1 3 "a" tt
              {| Logfile.xtrace_common_logfile_once := false;
                 Logfile.xtrace_common_logfile := -1;
                 Logfile.xtrace_per_thread_logfile := {[ 1 := 3 ]};
                 Logfile.ios := [Logfile.Open "/tmp/x.1" 3] |})
    as [Hper _].
  - apply lookup_singleton_eq.
  - lia.
  - destruct (Hper eq_refl) as (s1 & Hrun & Hios & _).
    exists s1. split; [exact Hrun | exact Hios].
Defined.


(* ===================================================================== *)
(** * The stray store of [envp_make_entry] in one address space *)
(* ===================================================================== *)

